(** * UltiSnips: trigger matching, snippet lookup, jumping and edit
    reconciliation of [python/UltiSnips/__init__.py], as a shallow embedding.

    Python values are modelled as follows.
    - Text ([unicode] objects) is a list of characters, [str]; characters are
      code points below 256 ([ascii]).
    - Python integers are [Z]; lengths and loop counters that the code only
      ever counts upwards from 0 are [nat].
    - Indexing and slicing follow Python: a negative index counts from the
      end, a slice bound is clipped to the sequence, and indexing out of
      range raises [IndexError] (here: [None]).
    - Objects that the code mutates ([Snippet], [SnippetManager], the
      buffer) are records that the functions take and return. *)

From Stdlib Require Import ZArith Ascii String.
From stdpp Require Import base option list gmap strings pretty.

Local Open Scope Z_scope.

(** ** Python text primitives *)
Module PyStr.

Definition str := list ascii.

(** A literal of the source, written as a Rocq string. *)
Definition py (s : string) : str := list_ascii_of_string s.

Definition len {A} (l : list A) : Z := Z.of_nat (length l).

(** [unicode.isspace] on code points below 256: TAB..CR, FS..US, SPACE,
    NEL and NBSP.  This is the class used by [split()], [strip()] and
    [rstrip()] without arguments. *)
Definition isspace (c : ascii) : bool :=
  let n := N_of_ascii c in
  ((9 <=? n) && (n <=? 13) || (28 <=? n) && (n <=? 32)
   || (n =? 133) || (n =? 160))%N.

(** The class [\s] of [re] without the UNICODE flag: [ \t\n\r\f\v]. *)
Definition re_isspace (c : ascii) : bool :=
  let n := N_of_ascii c in
  ((9 <=? n) && (n <=? 13) || (n =? 32))%N.

(** The class [\w] of [re] without the UNICODE flag: [a-zA-Z0-9_]. *)
Definition re_isword (c : ascii) : bool :=
  let n := N_of_ascii c in
  ((48 <=? n) && (n <=? 57) || (65 <=? n) && (n <=? 90)
   || (97 <=? n) && (n <=? 122) || (n =? 95))%N.

Definition newline : ascii := ascii_of_N 10.
Definition tab : ascii := ascii_of_N 9.
Definition space : ascii := ascii_of_N 32.

(** [c in (" ", "\t")], also the character set of [strip(" \t")]. *)
Definition isblank (c : ascii) : bool :=
  bool_decide (c = space) || bool_decide (c = tab).

Fixpoint lstrip_by (p : ascii → bool) (s : str) : str :=
  match s with
  | [] => []
  | c :: s' => if p c then lstrip_by p s' else s
  end.

Definition rstrip_by (p : ascii → bool) (s : str) : str :=
  rev (lstrip_by p (rev s)).

Definition strip_by (p : ascii → bool) (s : str) : str :=
  rstrip_by p (lstrip_by p s).

(** [s.rstrip()] and [s.strip()]. *)
Definition rstrip : str → str := rstrip_by isspace.
Definition strip : str → str := strip_by isspace.

(** [s.split()]: the maximal runs of non-whitespace characters. *)
Fixpoint split (s : str) : list str :=
  match s with
  | [] => []
  | c :: s' =>
      if isspace c then split s'
      else match s' with
           | [] => [[c]]
           | c' :: _ =>
               if isspace c' then [c] :: split s'
               else match split s' with
                    | w :: ws => (c :: w) :: ws
                    | [] => [[c]]
                    end
           end
  end.

(** [s.startswith(p)] and [s.endswith(p)]. *)
Definition startswith (s p : str) : bool := bool_decide (p `prefix_of` s).
Definition endswith (s p : str) : bool := bool_decide (p `suffix_of` s).

(** [s.rfind(sub)]: the highest index at which [sub] occurs in [s], or -1.
    [rfind_from sub s i] searches the suffix [s] that starts at offset [i]. *)
Fixpoint rfind_from (sub s : str) (i : Z) : Z :=
  match s with
  | [] => if bool_decide (sub = []) then i else -1
  | _ :: s' =>
      let r := rfind_from sub s' (i + 1) in
      if 0 <=? r then r
      else if bool_decide (sub `prefix_of` s) then i else -1
  end.

Definition rfind (s sub : str) : Z := rfind_from sub s 0.

(** A slice bound as Python clips it for a sequence of length [n]. *)
Definition clip (n i : Z) : nat :=
  Z.to_nat (if i <? 0 then Z.max 0 (n + i) else Z.min i n).

(** [l[:j]], [l[i:]] and [l[i:j]]. *)
Definition slice_to {A} (l : list A) (j : Z) : list A :=
  take (clip (len l) j) l.
Definition slice_from {A} (l : list A) (i : Z) : list A :=
  drop (clip (len l) i) l.
Definition slice {A} (l : list A) (i j : Z) : list A :=
  drop (clip (len l) i) (take (clip (len l) j) l).

(** [l[i]]: [None] stands for [IndexError]. *)
Definition getitem {A} (l : list A) (i : Z) : option A :=
  if i <? 0 then
    if 0 <=? len l + i then l !! Z.to_nat (len l + i) else None
  else l !! Z.to_nat i.

(** ["\n".join(ls)]. *)
Fixpoint join_lines (ls : list str) : str :=
  match ls with
  | [] => []
  | [l] => l
  | l :: ls' => l ++ newline :: join_lines ls'
  end.

End PyStr.
Import PyStr.

(** ** Regular expressions

    [re] is Python's library, not code of the repository.  The three fixed
    patterns of the source are modelled by what they compute; the engine
    behind a user-supplied regex trigger is a parameter of the model
    ([re_finditer] below). *)
Module Re.

(** A match object: its span in the searched text and its groups. *)
Record MatchObject := {
  mo_start : Z;
  mo_end : Z;
  mo_groups : list str;
}.

(** [re.match(r'.\b.', s)]: two characters, neither a newline, exactly one
    of them a word character. *)
Definition match_boundary (s : str) : option MatchObject :=
  match s with
  | c1 :: c2 :: _ =>
      if negb (bool_decide (c1 = newline)) && negb (bool_decide (c2 = newline))
         && xorb (re_isword c1) (re_isword c2)
      then Some {| mo_start := 0; mo_end := 2; mo_groups := [] |}
      else None
  | _ => None
  end.

(** [\b] holds between [c1] and [c2], and [.] matches both: what
    [r'.\b.'] asks of the two characters. *)
Definition regex_boundary (c1 c2 : ascii) : Prop :=
  c1 ≠ newline ∧ c2 ≠ newline ∧ re_isword c1 ≠ re_isword c2.

(** The text after the last position [k], [1 <= k < len s], at which [s]
    has a word boundary. *)
Fixpoint after_last_boundary (s : str) : option str :=
  match s with
  | c1 :: s' =>
      match s' with
      | c2 :: _ =>
          match after_last_boundary s' with
          | Some r => Some r
          | None => if xorb (re_isword c1) (re_isword c2) then Some s' else None
          end
      | [] => None
      end
  | [] => None
  end.

(** [re.sub(r'^.+\b(.+)$', r'\1', s)]: [.] matches no newline and [$] also
    matches before a final newline. *)
Definition sub_word_suffix (s : str) : str :=
  let '(body, nl) :=
    match last s with
    | Some c => if bool_decide (c = newline) then (removelast s, [newline]) else (s, [])
    | None => (s, [])
    end in
  if bool_decide (newline ∈ body) then s
  else match after_last_boundary body with
       | Some r => r ++ nl
       | None => s
       end.

(** [re.match(r'(.*?)\s+$', s)], as its group 1: the text before the final
    run of [\s] characters, when that run is not empty and the text before
    it holds no newline. *)
Definition match_trailing_space (s : str) : option str :=
  let g := rstrip_by re_isspace s in
  if bool_decide (g = s) || bool_decide (newline ∈ g) then None else Some g.

End Re.
Import Re.

(** ** class Snippet *)
Module Matcher.

(** What [matches], [could_match] and [_re_match] return: [True]/[False],
    a match object, or [None]. *)
Inductive PyVal :=
  | PyBool (b : bool)
  | PyMatch (m : MatchObject)
  | PyNone.

(** Truth value of a result in [if match] and [not match]. *)
Definition truthy (v : PyVal) : bool :=
  match v with
  | PyBool b => b
  | PyMatch _ => true
  | PyNone => false
  end.

Definition of_match (m : option MatchObject) : PyVal :=
  match m with
  | Some m => PyMatch m
  | None => PyNone
  end.

(** A [Snippet] object; [oid] is the identity of the object, which is what
    [snip in selected_snippets] compares (the class defines no [__eq__]). *)
Record Snippet := {
  oid : nat;
  _t : str;
  _v : str;
  _d : str;
  _opts : str;
  _matched : str;
  _last_re : option MatchObject;
}.

Definition set_matched (m : str) (self : Snippet) : Snippet :=
  {| oid := oid self; _t := _t self; _v := _v self; _d := _d self;
     _opts := _opts self; _matched := m; _last_re := _last_re self |}.

Definition set_last_re (r : option MatchObject) (self : Snippet) : Snippet :=
  {| oid := oid self; _t := _t self; _v := _v self; _d := _d self;
     _opts := _opts self; _matched := _matched self; _last_re := r |}.

(** The same definition with other options. *)
Definition with_opts (o : str) (self : Snippet) : Snippet :=
  {| oid := oid self; _t := _t self; _v := _v self; _d := _d self;
     _opts := o; _matched := _matched self; _last_re := _last_re self |}.

(** The same definition without the option [c]. *)
Definition without_option (c : ascii) (self : Snippet) : Snippet :=
  with_opts (filter (λ x, x ≠ c) (_opts self)) self.

Global Arguments set_matched : simpl never.
Global Arguments set_last_re : simpl never.

(** [Snippet(trigger, value, descr, options, globals)]. *)
Definition new_Snippet (id : nat) (trigger value descr options : str) : Snippet :=
  {| oid := id; _t := trigger; _v := value; _d := descr; _opts := options;
     _matched := []; _last_re := None |}.

(** [opt in self._opts] for a one-character [opt]. *)
Definition has_option (self : Snippet) (opt : string) : bool :=
  match py opt with
  | [c] => bool_decide (c ∈ _opts self)
  | _ => false
  end.

Global Arguments has_option : simpl never.

Definition overwrites_previous (self : Snippet) : bool := has_option self "!".
Definition trigger (self : Snippet) : str := _t self.
Definition matched (self : Snippet) : str := _matched self.

Definition _words_for_line (self : Snippet) (before : str) (num_words : option nat) : str :=
  if bool_decide (before = []) then []
  else
    let num_words :=
      match num_words with
      | None => length (split (_t self))
      | Some n => n
      end in
    let word_list := split before in
    if bool_decide (length word_list ≤ num_words)%nat then strip before
    else
      let before_words :=
        foldl (λ before_words i,
                 let left := rfind before_words
                               (default [] (getitem word_list (- Z.of_nat i))) in
                 slice_to before_words left)
              before (seq 1 num_words) in
      strip (slice_from before (len before_words)).

Section Matching.

(** [re.finditer(pattern, text)]: the successive non-overlapping matches of
    the engine, left to right. *)
Variable re_finditer : str → str → list MatchObject.

Fixpoint _re_match_loop (self : Snippet) (trigger : str) (ms : list MatchObject)
  : PyVal * Snippet :=
  match ms with
  | [] => (PyBool false, self)
  | m :: ms' =>
      if negb (mo_end m =? len trigger) then _re_match_loop self trigger ms'
      else
        let self := set_matched (slice trigger (mo_start m) (mo_end m)) self in
        let self := set_last_re (Some m) self in
        (PyMatch m, self)
  end.

Definition _re_match (self : Snippet) (trigger : str) : PyVal * Snippet :=
  _re_match_loop self trigger (re_finditer (_t self) trigger).

(** The strategy selected by the options [r], [w], [i] in [matches]. *)
Definition matches_base (self : Snippet) (trigger words : str) : PyVal * Snippet :=
  if has_option self "r" then _re_match self trigger
  else if has_option self "w" then
    let words_len := len (_t self) in
    let words_prefix := slice_to words (- words_len) in
    let words_suffix := slice_from words (- words_len) in
    let match_ := bool_decide (words_suffix = _t self) in
    if match_ && negb (bool_decide (words_prefix = [])) then
      let boundaryChars := slice_from words_prefix (-1) ++ slice_to words_suffix 1 in
      (of_match (match_boundary boundaryChars), self)
    else (PyBool match_, self)
  else if has_option self "i" then (PyBool (endswith words (_t self)), self)
  else (PyBool (bool_decide (words = _t self)), self).

(** The [b] check shared by [matches] and [could_match]. *)
Definition boundary_check (self : Snippet) (trigger : str) (match_ : PyVal)
  : PyVal * Snippet :=
  if has_option self "b" && truthy match_ then
    let text_before := slice_to (rstrip trigger) (- len (_matched self)) in
    if negb (bool_decide (strip_by isblank text_before = []))
    then (PyBool false, set_matched [] self)
    else (match_, self)
  else (match_, self).

Definition matches (self : Snippet) (trigger : str) : PyVal * Snippet :=
  let self := set_matched [] self in
  if negb (bool_decide (trigger = [])) && negb (bool_decide (rstrip trigger = trigger))
  then (PyBool false, self)
  else
    let words := _words_for_line self trigger None in
    let '(match_, self) := matches_base self trigger words in
    let self :=
      if truthy match_ && bool_decide (_matched self = [])
      then set_matched (_t self) self else self in
    boundary_check self trigger match_.

(** The strategy selected by the options in [could_match]. *)
Definition could_match_base (self : Snippet) (trigger words : str) : PyVal * Snippet :=
  if has_option self "r" then _re_match self trigger
  else if has_option self "w" then
    let words_suffix := sub_word_suffix words in
    let match_ := startswith (_t self) words_suffix in
    let self := set_matched words_suffix self in
    if negb (bool_decide (words_suffix = words)) then (PyBool false, self)
    else (PyBool match_, self)
  else if has_option self "i" then (PyBool (startswith (_t self) words), self)
  else (PyBool (startswith (_t self) words), self).

(** [trigger.rstrip() is not trigger] is read as [!=]: CPython's [rstrip]
    returns the object itself when it strips nothing. *)
Definition could_match (self : Snippet) (trigger : str) : PyVal * Snippet :=
  let self := set_matched [] self in
  let trigger :=
    match last trigger with
    | Some c => if isblank c then [] else trigger
    | None => trigger
    end in
  if negb (bool_decide (trigger = [])) && negb (bool_decide (rstrip trigger = trigger))
  then (PyBool false, self)
  else
    let words := _words_for_line self trigger None in
    let '(match_, self) := could_match_base self trigger words in
    let self :=
      if truthy match_ && bool_decide (_matched self = [])
      then set_matched words self else self in
    boundary_check self trigger match_.

End Matching.

(** An engine for patterns without metacharacters: the successive
    non-overlapping occurrences of the pattern, left to right (an empty
    pattern matches once at every position). *)
Fixpoint literal_finditer_from (fuel : nat) (pat text : str) (i : Z) : list MatchObject :=
  match fuel with
  | O => []
  | S fuel' =>
      if bool_decide (pat `prefix_of` text) then
        {| mo_start := i; mo_end := i + len pat; mo_groups := [] |} ::
        match pat, text with
        | [], [] => []
        | [], _ :: text' => literal_finditer_from fuel' pat text' (i + 1)
        | _, _ => literal_finditer_from fuel' pat (drop (length pat) text) (i + len pat)
        end
      else match text with
           | [] => []
           | _ :: text' => literal_finditer_from fuel' pat text' (i + 1)
           end
  end.

Definition literal_finditer (pat text : str) : list MatchObject :=
  literal_finditer_from (S (length text)) pat text 0.

End Matcher.
Import Matcher.

(** ** Snippet lookup: [SnippetManager._snips] *)
Module Lookup.

(** A snippet provider, as [_find_snippets] uses it:
    [provider.get_matching_snippets(trigger, potentially)]. *)
Definition Provider := str → bool → list Snippet.

(** [_find_snippets(ft, trigger, potentially)]; [ft] is not used. *)
Definition _find_snippets (_snippet_providers : list Provider)
    (ft trigger : str) (potentially : bool) : list Snippet :=
  foldl (λ snips provider, snips ++ provider trigger potentially) [] _snippet_providers.

(** One round of the loop that fills the dictionary [snippets]. *)
Definition group_step (snippets : gmap str (list Snippet)) (s : Snippet)
  : gmap str (list Snippet) :=
  let snippets :=
    if bool_decide (snippets !! trigger s = None) || overwrites_previous s
    then <[trigger s := []]> snippets
    else snippets in
  alter (λ l, l ++ [s]) (trigger s) snippets.

(** The objects left in the dictionary, by identity:
    [set([item for sublist in snippets.values() for item in sublist])]. *)
Definition selected_snippets (snippets : gmap str (list Snippet)) : gset nat :=
  list_to_set (oid <$> mjoin (map_to_list snippets).*2).

(** The part of [_snips] after [found_snippets] is collected. *)
Definition select_snippets (found_snippets : list Snippet) : list Snippet :=
  let snippets := foldl group_step ∅ found_snippets in
  let selected := selected_snippets snippets in
  filter (λ snip, oid snip ∈ selected) found_snippets.

(** [_snips(before, possible)]; [filetypes] is [self._filetypes[_vim.buf.nr]]. *)
Definition _snips (_snippet_providers : list Provider) (filetypes : list str)
    (before : str) (possible : bool) : list Snippet :=
  let found_snippets :=
    foldl (λ found ft, found ++ _find_snippets _snippet_providers ft before possible)
      [] (rev filetypes) in
  select_snippets found_snippets.

(** [s'] does not clear the list kept for the trigger [t]. *)
Definition keeps (t : str) (s' : Snippet) : Prop :=
  ¬ (trigger s' = t ∧ overwrites_previous s' = true).



End Lookup.
Import Lookup.

(** ** Exceptions and loops *)
Module Py.

(** The exceptions that the modelled code tells apart. *)
Inductive Exn :=
  | IndexError
  | OtherError.

#[global] Instance Exn_eq_dec : EqDecision Exn.
Proof. solve_decision. Defined.

(** The outcome of a computation that may raise; a [while] loop is run
    with a bound on its rounds and is [Unfinished] when the bound is hit. *)
Inductive Run (A : Type) :=
  | Done (a : A)
  | Raised (e : Exn)
  | Unfinished.
Arguments Done {A} a.
Arguments Raised {A} e.
Arguments Unfinished {A}.

#[global] Instance Run_ret : MRet Run := λ A a, Done a.

#[global] Instance Run_bind : MBind Run := λ A B k r,
  match r with
  | Done a => k a
  | Raised e => Raised e
  | Unfinished => Unfinished
  end.

(** [l[i]] as a computation. *)
Definition index {A} (l : list A) (i : Z) : Run A :=
  match getitem l i with
  | Some a => Done a
  | None => Raised IndexError
  end.

End Py.
Import Py.

(** ** Edit reconciliation: the window of [SnippetManager.cursor_moved] *)
Module Reconcile.

(** [lt_span] and [ct_span], each [[start, end]], and [initial_line]. *)
Record Spans := {
  lt_span : Z * Z;
  ct_span : Z * Z;
  initial_line : Z;
}.

(** The condition of the first [while]; [and] stops at the first false
    operand: the two subscripts come first, and [self._vstate.ppos], which
    raises [IndexError] when fewer than two positions are remembered, is
    only read when the two lines are equal. *)
Definition trailing_cond (lt ct : list str) (ppos_line : Run Z) (pos_line : Z) (s : Spans)
  : Run bool :=
  a ← index lt ((lt_span s).2 - 1);
  b ← index ct ((ct_span s).2 - 1);
  if bool_decide (a = b) then
    ppos_line ← ppos_line;
    Done ((ppos_line <? initial_line s + (lt_span s).2 - 1)
          && (pos_line <? initial_line s + (ct_span s).2 - 1)
          && ((lt_span s).1 <? (lt_span s).2)
          && ((ct_span s).1 <? (ct_span s).2))
  else Done false.

(** The first [while]: remove equal lines from behind. *)
Fixpoint strip_trailing (rounds : nat) (lt ct : list str) (ppos_line : Run Z) (pos_line : Z)
    (s : Spans) : Run Spans :=
  match rounds with
  | O => Unfinished
  | S rounds' =>
      c ← trailing_cond lt ct ppos_line pos_line s;
      if c : bool then
        strip_trailing rounds' lt ct ppos_line pos_line
          {| lt_span := ((lt_span s).1, (lt_span s).2 - 1);
             ct_span := ((ct_span s).1, (ct_span s).2 - 1);
             initial_line := initial_line s |}
      else Done s
  end.

(** The condition of the second [while]; the subscripts are only reached
    when both spans are not empty. *)
Definition leading_cond (lt ct : list str) (ppos_line : Run Z) (pos_line : Z) (s : Spans)
  : Run bool :=
  if ((lt_span s).1 <? (lt_span s).2) && ((ct_span s).1 <? (ct_span s).2) then
    a ← index lt (lt_span s).1;
    b ← index ct (ct_span s).1;
    if bool_decide (a = b) then
      ppos_line ← ppos_line;
      Done ((initial_line s <=? ppos_line) && (initial_line s <=? pos_line))
    else Done false
  else Done false.

(** The second [while]: remove equal lines from the front. *)
Fixpoint strip_leading (rounds : nat) (lt ct : list str) (ppos_line : Run Z) (pos_line : Z)
    (s : Spans) : Run Spans :=
  match rounds with
  | O => Unfinished
  | S rounds' =>
      c ← leading_cond lt ct ppos_line pos_line s;
      if c : bool then
        strip_leading rounds' lt ct ppos_line pos_line
          {| lt_span := ((lt_span s).1 + 1, (lt_span s).2);
             ct_span := ((ct_span s).1 + 1, (ct_span s).2);
             initial_line := initial_line s + 1 |}
      else Done s
  end.

(** Both loops, under [if lt and ct]. *)
Definition strip_equal_lines (cstart : Z) (lt ct : list str) (ppos_line : Run Z)
    (pos_line : Z)
  : Run Spans :=
  let s := {| lt_span := (0, len lt); ct_span := (0, len ct); initial_line := cstart |} in
  if negb (bool_decide (lt = [])) && negb (bool_decide (ct = [])) then
    s ← strip_trailing (S (length lt)) lt ct ppos_line pos_line s;
    strip_leading (S (length lt)) lt ct ppos_line pos_line s
  else Done s.

(** The three assignments after the loops. *)
Definition widen (cstart : Z) (s : Spans) : Spans :=
  {| lt_span := (Z.max 0 ((lt_span s).1 - 1), (lt_span s).2);
     ct_span := (Z.max 0 ((ct_span s).1 - 1), (ct_span s).2);
     initial_line := Z.max cstart (initial_line s - 1) |}.

(** Lines 551-576 of [cursor_moved]: [(initial_line, lt, ct)] as they are
    handed to [guess_edit]. *)
Definition trim_window (cstart : Z) (lt ct : list str) (ppos_line : Run Z)
    (pos_line : Z)
  : Run (Z * list str * list str) :=
  s ← strip_equal_lines cstart lt ct ppos_line pos_line;
  let s := widen cstart s in
  Done (initial_line s,
        slice lt (lt_span s).1 (lt_span s).2,
        slice ct (ct_span s).1 (ct_span s).2).

(** The state after [k] lines were removed from behind and [j] from the
    front. *)
Definition stripped (cstart : Z) (lt ct : list str) (j k : nat) : Spans :=
  {| lt_span := (Z.of_nat j, len lt - Z.of_nat k);
     ct_span := (Z.of_nat j, len ct - Z.of_nat k);
     initial_line := cstart + Z.of_nat j |}.

(** What is known of the [k] lines removed from behind: they are the same
    in both texts and lie after both cursor lines. *)
Definition trailing_ok (cstart : Z) (lt ct : list str) (ppos_line pos_line : Z)
    (k : nat) : Prop :=
  (k ≤ length lt)%nat ∧ (k ≤ length ct)%nat
  ∧ drop (length lt - k) lt = drop (length ct - k) ct
  ∧ ((0 < k)%nat → ppos_line < cstart + len lt - Z.of_nat k
                    ∧ pos_line < cstart + len ct - Z.of_nat k).

(** What is known of the [j] lines removed from the front: they are the
    same in both texts and none lies after a cursor line. *)
Definition leading_ok (cstart : Z) (lt ct : list str) (ppos_line pos_line : Z)
    (j k : nat) : Prop :=
  (j + k ≤ length lt)%nat ∧ (j + k ≤ length ct)%nat
  ∧ take j lt = take j ct
  ∧ ((0 < j)%nat → cstart + Z.of_nat j - 1 ≤ ppos_line
                    ∧ cstart + Z.of_nat j - 1 ≤ pos_line).

End Reconcile.
Import Reconcile.

(** ** The host editor

    [UltiSnips._vim] and [UltiSnips.geometry] are not part of the modelled
    file; what [SnippetManager] needs of them is written down here. *)
Module Vim.

(** Modelled from the spec: a [Position] is a line and a column, ordered
    by line first (section 3, "Position"). *)
Record Position := {
  line : Z;
  col : Z;
}.

#[global] Instance Position_eq_dec : EqDecision Position.
Proof. solve_decision. Defined.

Definition pos_le (p q : Position) : bool :=
  (line p <? line q) || ((line p =? line q) && (col p <=? col q)).

(** The buffer, the cursor, and what [mode()] and [visualmode()] return. *)
Record State := {
  buf : list str;
  cursor : Position;
  mode : str;
  visualmode : str;
}.

Definition set_buf (b : list str) (v : State) : State :=
  {| buf := b; cursor := cursor v; mode := mode v; visualmode := visualmode v |}.

Definition set_cursor (p : Position) (v : State) : State :=
  {| buf := buf v; cursor := p; mode := mode v; visualmode := visualmode v |}.

(** Modelled from the spec: [_vim.buf.current_line_splitted], the cursor
    line split at the cursor into [(before, after)] (section 6, "Buffer
    access"). *)
Definition current_line_splitted (v : State) : str * str :=
  let l := default [] (getitem (buf v) (line (cursor v))) in
  (slice_to l (col (cursor v)), slice_from l (col (cursor v))).

(** [text.split('\n')]. *)
Fixpoint split_lines (cur text : str) : list str :=
  match text with
  | [] => [rev cur]
  | c :: text' =>
      if bool_decide (c = newline) then rev cur :: split_lines [] text'
      else split_lines (c :: cur) text'
  end.

(** Modelled from the spec: [_vim.text_to_vim(start, end, text)] replaces
    the text between two positions of the buffer by [text] (section 6,
    "read/replace an arbitrary line range") and leaves the cursor at
    [start]. *)
Definition text_to_vim (start end_ : Position) (text : str) (v : State) : State :=
  let first := default [] (getitem (buf v) (line start)) in
  let last_ := default [] (getitem (buf v) (line end_)) in
  let new_lines :=
    split_lines [] (slice_to first (col start) ++ text ++ slice_from last_ (col end_)) in
  set_cursor start
    (set_buf (slice_to (buf v) (line start) ++ new_lines
              ++ slice_from (buf v) (line end_ + 1)) v).

(** Modelled from the spec: [_vim.select(start, end)] puts the cursor on
    [start] (and selects up to [end]); the text stays as it is (section 6,
    "read/set cursor Position"). *)
Definition select (start end_ : Position) (v : State) : State :=
  set_cursor start v.

End Vim.
Import Vim.

(** ** class SnippetManager and its state *)
Module Manager.

(** [VisualContentPreserver]. *)
Record VisualContentPreserver := {
  vc_mode : str;
  vc_text : str;
}.

(** [VisualContentPreserver.reset]. *)
Definition reset_visual : VisualContentPreserver := {| vc_mode := []; vc_text := [] |}.

(** [_VimPosition]: a position with the modes seen there. *)
Record VimPosition := {
  vp_pos : Position;
  vp_mode : str;
  vp_visualmode : str;
}.

(** [VimState]; [_poss] is a [deque(maxlen=5)], newest last. *)
Record VimState := {
  _poss : list VimPosition;
  _lvb : list str;
  _lvb_len : Z;
}.

(** [VimState.remember_position]. *)
Definition remember_position (vs : VimState) (v : Vim.State) : VimState :=
  let p := {| vp_pos := cursor v; vp_mode := mode v; vp_visualmode := visualmode v |} in
  let poss := _poss vs ++ [p] in
  {| _poss := if bool_decide (5 < length poss)%nat then drop 1 poss else poss;
     _lvb := _lvb vs; _lvb_len := _lvb_len vs |}.

(** A tabstop as [_jump] sees it: [no], [start], [end].  A tabstop object
    counts as true in [if self._ctab], an instance in [if self._cs]. *)
Record Tab := {
  no : Z;
  tab_start : Position;
  tab_end : Position;
}.

Section Collaborators.

(** [SnippetInstance] objects ([UltiSnips.text_objects]) with the methods
    that [SnippetManager] calls; a method that changes its object returns
    the changed object. *)
Variable Inst : Type.
Variable inst_snippet : Inst → Snippet.
Variable inst_start inst_end : Inst → Position.
Variable select_next_tab : bool → Inst → option Tab * Inst.

(** A parent for a new instance, found in the tree of the current one. *)
Variable Parent : Type.
Variable find_parent_for_new_to : Position → Inst → Parent.

(** [SnippetInstance(snippet, parent, indent, v, start, end, visual_content,
    last_re, globals)].  The constructor gets the preserver object itself;
    what it reads of it, it reads while it runs.  It may write the
    expanded text to the buffer. *)
Variable new_SnippetInstance :
  Snippet → option Parent → str → str → Position → Position →
  VisualContentPreserver → option MatchObject → Vim.State → Inst * Vim.State.

(** [IndentUtil().ntabs_to_proper_indent]. *)
Variable ntabs_to_proper_indent : nat → str.

(** The manager; the stack [_csnippets] has its top last. *)
Record SnippetManager := {
  _csnippets : list Inst;
  _ctab : option Tab;
  _ignore_movements : bool;
  _vstate : VimState;
  _visual_content : VisualContentPreserver;
}.

Definition set_csnippets (l : list Inst) (m : SnippetManager) : SnippetManager :=
  {| _csnippets := l; _ctab := _ctab m; _ignore_movements := _ignore_movements m;
     _vstate := _vstate m; _visual_content := _visual_content m |}.
Definition set_ctab (t : option Tab) (m : SnippetManager) : SnippetManager :=
  {| _csnippets := _csnippets m; _ctab := t; _ignore_movements := _ignore_movements m;
     _vstate := _vstate m; _visual_content := _visual_content m |}.
Definition set_ignore_movements (b : bool) (m : SnippetManager) : SnippetManager :=
  {| _csnippets := _csnippets m; _ctab := _ctab m; _ignore_movements := b;
     _vstate := _vstate m; _visual_content := _visual_content m |}.
Definition set_vstate (vs : VimState) (m : SnippetManager) : SnippetManager :=
  {| _csnippets := _csnippets m; _ctab := _ctab m;
     _ignore_movements := _ignore_movements m;
     _vstate := vs; _visual_content := _visual_content m |}.
Definition set_visual_content (vc : VisualContentPreserver) (m : SnippetManager)
  : SnippetManager :=
  {| _csnippets := _csnippets m; _ctab := _ctab m;
     _ignore_movements := _ignore_movements m;
     _vstate := _vstate m; _visual_content := vc |}.

(** The property [_cs]: the top of the stack, or [None]. *)
Definition _cs (m : SnippetManager) : option Inst := last (_csnippets m).

(** [self._csnippets.pop()]. *)
Definition _current_snippet_is_done (m : SnippetManager) : SnippetManager :=
  set_csnippets (removelast (_csnippets m)) m.

Definition _reinit (m : SnippetManager) : SnippetManager :=
  set_ignore_movements false (set_ctab None m).

(** [VimState.remember_buffer(to)]. *)
Definition remember_buffer (vs : VimState) (to : Inst) (v : Vim.State) : VimState :=
  let vs := {| _poss := _poss vs;
               _lvb := slice (buf v) (line (inst_start to)) (line (inst_end to) + 1);
               _lvb_len := len (buf v) |} in
  remember_position vs v.

(** The [s] branch of [_jump]: trailing whitespace before the cursor is cut
    when nothing follows the cursor. *)
Definition trim_before_cursor (cs : Inst) (v : Vim.State) : Vim.State :=
  let '(before, after) := current_line_splitted v in
  if has_option (inst_snippet cs) "s" then
    if bool_decide (after = []) then
      match match_trailing_space before with
      | Some group1 =>
          let lineno := line (cursor v) in
          text_to_vim {| line := lineno; col := 0 |}
                      {| line := lineno; col := len before + len after |} group1 v
      | None => v
      end
    else v
  else v.

(** [_jump(backwards)]; it calls itself after a pop, so [rounds] need not
    exceed the height of the stack. *)
Fixpoint _jump_rounds (rounds : nat) (backwards : bool) (m : SnippetManager)
    (v : Vim.State) : SnippetManager * Vim.State * bool :=
  let '(m, v, jumped) :=
    match _cs m with
    | Some cs =>
        let '(ctab, cs) := select_next_tab backwards cs in
        let m := set_ctab ctab (set_csnippets (removelast (_csnippets m) ++ [cs]) m) in
        match ctab with
        | Some tab =>
            let v := trim_before_cursor cs v in
            let v := select (tab_start tab) (tab_end tab) v in
            let m := if no tab =? 0 then _current_snippet_is_done m else m in
            (m, v, true)
        | None =>
            let m := _current_snippet_is_done m in
            match rounds with
            | S rounds' => _jump_rounds rounds' backwards m v
            | O => (m, v, false)
            end
        end
    | None => (m, v, false)
    end in
  if jumped : bool then (set_vstate (remember_position (_vstate m) v) m, v, jumped)
  else (m, v, jumped).

Definition _jump (backwards : bool) (m : SnippetManager) (v : Vim.State)
  : SnippetManager * Vim.State * bool :=
  _jump_rounds (length (_csnippets m)) backwards m v.

(** [str.splitlines] of a [unicode] text: LF, VT, FF, CR (CR LF is one
    break), FS, GS, RS and NEL end a line. *)
Definition is_linebreak (c : ascii) : bool :=
  let n := N_of_ascii c in
  ((10 <=? n) && (n <=? 13) || (28 <=? n) && (n <=? 30) || (n =? 133))%N.

Fixpoint splitlines (text cur : str) (after_cr : bool) : list str :=
  match text with
  | [] => match cur with [] => [] | _ => [rev cur] end
  | c :: text' =>
      if after_cr && bool_decide (c = newline) then splitlines text' cur false
      else if is_linebreak c
           then rev cur :: splitlines text' [] (bool_decide (c = ascii_of_N 13))
           else splitlines text' (c :: cur) false
  end.

(** [Snippet.launch(text_before, visual_content, parent, start, end)]. *)
Definition launch (self : Snippet) (text_before : str)
    (visual_content : VisualContentPreserver) (parent : option Parent)
    (start end_ : Position) (vim : Vim.State) : Inst * Vim.State :=
  let indent := take (length text_before - length (lstrip_by isblank text_before))
                     text_before in
  let lines := splitlines (_v self ++ [newline]) [] false in
  let v :=
    imap (λ line_num line,
            let tabs :=
              if has_option self "t" then 0%nat
              else (length line - length (lstrip_by (λ c, bool_decide (c = tab)) line))%nat in
            let line_ind := ntabs_to_proper_indent tabs in
            let line_ind := if bool_decide (line_num ≠ 0%nat) then indent ++ line_ind
                            else line_ind in
            line_ind ++ drop tabs line)
         lines in
  new_SnippetInstance self parent indent (join_lines v) start end_ visual_content
    (_last_re self) vim.

(** [_do_snippet(snippet, before, after)]. *)
Definition _do_snippet (snippet : Snippet) (before after : str)
    (m : SnippetManager) (v : Vim.State) : SnippetManager * Vim.State :=
  let text_before :=
    if negb (bool_decide (matched snippet = []))
    then slice_to before (- len (matched snippet)) else before in
  let start := {| line := line (cursor v); col := len text_before |} in
  let end_ := {| line := line (cursor v); col := len before |} in
  let '(si, v) :=
    match _cs m with
    | Some cs =>
        launch snippet text_before (_visual_content m)
          (Some (find_parent_for_new_to start cs)) start end_ v
    | None => launch snippet text_before (_visual_content m) None start end_ v
    end in
  let m := set_visual_content reset_visual m in
  let m := set_csnippets (_csnippets m ++ [si]) m in
  let m := set_ignore_movements true m in
  let m :=
    match head (_csnippets m) with
    | Some to => set_vstate (remember_buffer (_vstate m) to v) m
    | None => m
    end in
  let '(m, v, _) := _jump false m v in
  (m, v).

(** An operation of an edit script, as [guess_edit] and [diff] of
    [UltiSnips._diff] produce them. *)
Variable Cmd : Type.
Variable guess_edit : Z → list str → list str → VimState → Run (bool * list Cmd).
Variable diff : str → str → Z → Run (list Cmd).

(** One operation applied to the tree of [_csnippets[0]].  The instances
    above it on the stack are parts of that tree, so the operation is
    given the whole stack; it may change it and then raise. *)
Variable _do_edit : Cmd → list Inst → list Inst * Run unit.

(** [_csnippets[0].update_textobjects()], on the whole stack for the same
    reason; it writes to the buffer. *)
Variable update_textobjects : list Inst → Vim.State → list Inst * Vim.State.

(** Modelled from the spec: the operations of the edit script applied in
    order (section 4.3, step 4), up to the first one that does not end
    normally. *)
Fixpoint apply_edits (cmds : list Cmd) (stack : list Inst)
  : list Inst * Run unit :=
  match cmds with
  | [] => (stack, Done ())
  | cmd :: cmds' =>
      match _do_edit cmd stack with
      | (stack, Done _) => apply_edits cmds' stack
      | (stack, r) => (stack, r)
      end
  end.

(** Modelled from the spec: [replay_user_edits] of [SnippetInstance], which
    is not part of the modelled file, applies the operations of the edit
    script in order (section 4.3, step 4).  When an operation cannot be
    resolved against the tree (an index-range error), the replay pass is
    discarded and the model is left unchanged (section 4.3, failure
    policy; section 7, "ReconciliationDesync"). *)
Definition replay_user_edits (cmds : list Cmd) (stack : list Inst)
  : list Inst * Run unit :=
  match apply_edits cmds stack with
  | (_, Raised IndexError) => (stack, Raised IndexError)
  | (stack', r) => (stack', r)
  end.

(** The body of the [try] in [cursor_moved]. *)
Definition replay_pass (initial_line : Z) (lt ct : list str) (m : SnippetManager)
  : SnippetManager * Run unit :=
  match guess_edit initial_line lt ct (_vstate m) with
  | Done (rv, es) =>
      let es :=
        if rv : bool then Done es
        else diff (join_lines lt) (join_lines ct) initial_line in
      match es with
      | Done es =>
          match _csnippets m with
          | [] => (m, Raised IndexError)
          | _ :: _ =>
              let '(stack, r) := replay_user_edits es (_csnippets m) in
              (set_csnippets stack m, r)
          end
      | Raised e => (m, Raised e)
      | Unfinished => (m, Unfinished)
      end
  | Raised e => (m, Raised e)
  | Unfinished => (m, Unfinished)
  end.

(** [try: ... except IndexError: pass]. *)
Definition try_replay_pass (initial_line : Z) (lt ct : list str) (m : SnippetManager)
  : SnippetManager * Run unit :=
  match replay_pass initial_line lt ct m with
  | (m, Raised IndexError) => (m, Done ())
  | (m, r) => (m, r)
  end.

(** [_check_if_still_inside_snippet]; it calls itself after a pop. *)
Fixpoint _check_if_still_inside_snippet (rounds : nat) (m : SnippetManager)
    (v : Vim.State) : SnippetManager :=
  match _cs m with
  | Some cs =>
      if negb (pos_le (inst_start cs) (cursor v) && pos_le (cursor v) (inst_end cs))
      then
        let m := _reinit (_current_snippet_is_done m) in
        match rounds with
        | S rounds' => _check_if_still_inside_snippet rounds' m v
        | O => m
        end
      else m
  | None => m
  end.

(** [cursor_moved], without the wrapper [err_to_scratch_buffer]: what is
    [Raised] here is what the wrapper catches. *)
Definition cursor_moved (m : SnippetManager) (v : Vim.State)
  : SnippetManager * Vim.State * Run unit :=
  let m := set_vstate (remember_position (_vstate m) v) m in
  if negb (bool_decide (mode v ∈ [[]; py "i"; py "n"; py "in"])) then (m, v, Done ())
  else if _ignore_movements m then (set_ignore_movements false m, v, Done ())
  else
    let '(m, r) :=
      match _csnippets m with
      | bottom :: _ =>
          let cstart := line (inst_start bottom) in
          let cend := line (inst_end bottom) + (len (buf v) - _lvb_len (_vstate m)) in
          let ct := slice (buf v) cstart (cend + 1) in
          let lt := _lvb (_vstate m) in
          let pos := cursor v in
          let ppos_line := p ← index (_poss (_vstate m)) (-2); Done (line (vp_pos p)) in
          match trim_window cstart lt ct ppos_line (line pos) with
          | Done (initial_line, lt, ct) => try_replay_pass initial_line lt ct m
          | Raised e => (m, Raised e)
          | Unfinished => (m, Unfinished)
          end
      | [] => (m, Done ())
      end in
    match r with
    | Done _ =>
        let m := _check_if_still_inside_snippet (length (_csnippets m)) m v in
        match _csnippets m with
        | to :: _ =>
            let '(stack, v) := update_textobjects (_csnippets m) v in
            let m := set_csnippets stack m in
            match stack with
            | to :: _ => (set_vstate (remember_buffer (_vstate m) to v) m, v, Done ())
            | [] => (m, v, Done ())
            end
        | [] => (m, v, Done ())
        end
    | _ => (m, v, r)
    end.

End Collaborators.

Global Arguments _csnippets {Inst}.
Global Arguments _ctab {Inst}.
Global Arguments _ignore_movements {Inst}.
Global Arguments _vstate {Inst}.
Global Arguments _visual_content {Inst}.
Global Arguments set_csnippets {Inst}.
Global Arguments set_ctab {Inst}.
Global Arguments set_ignore_movements {Inst}.
Global Arguments set_vstate {Inst}.
Global Arguments set_visual_content {Inst}.
Global Arguments _cs {Inst}.
Global Arguments _current_snippet_is_done {Inst}.
Global Arguments _reinit {Inst}.
Global Arguments remember_buffer {Inst}.
Global Arguments trim_before_cursor {Inst}.
Global Arguments _jump_rounds {Inst}.
Global Arguments _jump {Inst}.
Global Arguments launch {Inst Parent}.
Global Arguments _do_snippet {Inst} _ _ _ _ {Parent}.
Global Arguments apply_edits {Inst Cmd}.
Global Arguments replay_user_edits {Inst Cmd}.
Global Arguments replay_pass {Inst Cmd}.
Global Arguments try_replay_pass {Inst Cmd}.
Global Arguments _check_if_still_inside_snippet {Inst}.
Global Arguments cursor_moved {Inst} _ _ {Cmd}.

(** Modelled from the spec: an instance that hands out its tabstops in the
    order of their numbers, with stop 0 last (section 4.4).  It stands for
    [SnippetInstance] in concrete runs. *)
Record ListInst := {
  li_snippet : Snippet;
  li_start : Position;
  li_end : Position;
  li_tabs : list Tab;
}.

Definition li_select_next_tab (backwards : bool) (i : ListInst) : option Tab * ListInst :=
  match li_tabs i with
  | t :: ts => (Some t, {| li_snippet := li_snippet i; li_start := li_start i;
                           li_end := li_end i; li_tabs := ts |})
  | [] => (None, i)
  end.

Definition li_set_tabs (ts : list Tab) (i : ListInst) : ListInst :=
  {| li_snippet := li_snippet i; li_start := li_start i; li_end := li_end i;
     li_tabs := ts |}.

(** Modelled from the spec: a new instance spans [start] to [end] and has
    the final stop 0 at its end; the buffer is left as it is. *)
Definition li_new (snippet : Snippet) (parent : option unit) (indent v : str)
    (start end_ : Position) (visual_content : VisualContentPreserver)
    (last_re : option MatchObject) (vim : Vim.State) : ListInst * Vim.State :=
  ({| li_snippet := snippet; li_start := start; li_end := end_;
      li_tabs := [ {| no := 0; tab_start := end_; tab_end := end_ |} ] |}, vim).

(** An operation of an edit script: a position and the net change of
    length there. *)
Record EditOp := {
  op_pos : Position;
  op_delta : Z;
}.

Definition tab_contains (p : Position) (t : Tab) : bool :=
  pos_le (tab_start t) p && pos_le p (tab_end t).

Definition shift_col (d : Z) (p : Position) : Position :=
  {| line := line p; col := col p + d |}.

(** The tabstops after an operation at [p]: the first one that contains
    [p] grows by [d], and those that start after [p] on its line move. *)
Fixpoint li_edit_tabs (p : Position) (d : Z) (found : bool) (ts : list Tab)
  : option (list Tab) :=
  match ts with
  | [] => if found then Some [] else None
  | t :: ts' =>
      if negb found && tab_contains p t then
        ts'' ← li_edit_tabs p d true ts';
        Some ({| no := no t; tab_start := tab_start t;
                 tab_end := shift_col d (tab_end t) |} :: ts'')
      else
        ts'' ← li_edit_tabs p d found ts';
        Some ((if (line (tab_start t) =? line p) && (col p <? col (tab_start t))
               then {| no := no t; tab_start := shift_col d (tab_start t);
                       tab_end := shift_col d (tab_end t) |}
               else t) :: ts'')
  end.

(** Modelled from the spec: one replayed operation resolves to the tabstop
    whose span contains its position, that span grows or shrinks by the
    net change, and what lies after it moves (section 4.3, step 4); an
    operation that resolves to no tabstop is an index-range error
    (section 7, "ReconciliationDesync"). *)
Definition li_do_edit (op : EditOp) (stack : list ListInst)
  : list ListInst * Run unit :=
  match stack with
  | bottom :: above =>
      match li_edit_tabs (op_pos op) (op_delta op) false (li_tabs bottom) with
      | Some ts => (li_set_tabs ts bottom :: above, Done ())
      | None => (stack, Raised IndexError)
      end
  | [] => (stack, Raised IndexError)
  end.

(** The marker by which a template refers to the preserved selection. *)
Definition references_visual (template : str) : bool :=
  0 <=? rfind template (py "VISUAL").

End Manager.
Import Manager.

(** ** Concrete inputs *)
Module Examples.

(** Triggers [fn] and [bar] with given options. *)
Definition snip_fn (opts : string) : Snippet := new_Snippet 0 (py "fn") [] [] (py opts).
Definition snip_bar (opts : string) : Snippet := new_Snippet 0 (py "bar") [] [] (py opts).

(** A regex trigger without metacharacters: ["b "], a [b] and a space. *)
Definition snip_b_space : Snippet := new_Snippet 0 (py "b ") [] [] (py "r").
Definition snip_ab : Snippet := new_Snippet 0 (py "ab") [] [] (py "r").

Definition form_feed : ascii := ascii_of_N 12.

(** Four candidates from one provider. *)
Definition demo_found : list Snippet :=
  [ new_Snippet 1 (py "t") [] [] [];
    new_Snippet 2 (py "a") [] [] [];
    new_Snippet 3 (py "t") [] [] (py "!");
    new_Snippet 4 (py "t") [] [] [] ].

Definition demo_provider : Provider := λ _ _, demo_found.

(** A run of two jumps. *)
Definition tab_at (n c : Z) : Tab :=
  {| no := n; tab_start := {| line := 0; col := c |};
     tab_end := {| line := 0; col := c |} |}.

(** An instance of a definition with [s] that has not jumped yet. *)
Definition inst_s : ListInst :=
  {| li_snippet := new_Snippet 0 (py "t") (py "ab $1$2$0") [] (py "s");
     li_start := {| line := 0; col := 0 |};
     li_end := {| line := 0; col := 3 |};
     li_tabs := [tab_at 1 3; tab_at 2 0; tab_at 0 3] |}.

Definition manager_s : SnippetManager ListInst :=
  {| _csnippets := [inst_s]; _ctab := None; _ignore_movements := false;
     _vstate := {| _poss := []; _lvb := []; _lvb_len := 0 |};
     _visual_content := reset_visual |}.

(** The cursor stands before ["ab "]. *)
Definition vim_s : Vim.State :=
  {| buf := [py "ab "]; cursor := {| line := 0; col := 0 |};
     mode := py "i"; visualmode := [] |}.

Definition first_jump : SnippetManager ListInst * Vim.State * bool :=
  _jump li_snippet li_select_next_tab false manager_s vim_s.

Definition second_jump : SnippetManager ListInst * Vim.State * bool :=
  _jump li_snippet li_select_next_tab false first_jump.1.1 first_jump.1.2.

(** An expansion that does not refer to the selection. *)
Definition snip_hello : Snippet := new_Snippet 0 (py "t") (py "hello") [] [].

(** A selection was preserved; no snippet is active. *)
Definition manager_visual : SnippetManager ListInst :=
  {| _csnippets := []; _ctab := None; _ignore_movements := false;
     _vstate := {| _poss := []; _lvb := []; _lvb_len := 0 |};
     _visual_content := {| vc_mode := py "v"; vc_text := py "sel" |} |}.

Definition vim_t : Vim.State :=
  {| buf := [py "t"]; cursor := {| line := 0; col := 1 |};
     mode := py "i"; visualmode := py "v" |}.

(** A replay that fails at its second operation. *)
Definition inst_two_tabs : ListInst :=
  {| li_snippet := snip_hello;
     li_start := {| line := 0; col := 0 |};
     li_end := {| line := 0; col := 9 |};
     li_tabs := [ {| no := 1; tab_start := {| line := 0; col := 0 |};
                     tab_end := {| line := 0; col := 2 |} |};
                  {| no := 0; tab_start := {| line := 0; col := 9 |};
                     tab_end := {| line := 0; col := 9 |} |} ] |}.

Definition manager_two_tabs : SnippetManager ListInst :=
  {| _csnippets := [inst_two_tabs]; _ctab := None; _ignore_movements := false;
     _vstate := {| _poss := []; _lvb := []; _lvb_len := 0 |};
     _visual_content := reset_visual |}.

(** One character typed inside tabstop 1, then an operation on a line
    where the tree has nothing. *)
Definition two_ops : list EditOp :=
  [ {| op_pos := {| line := 0; col := 1 |}; op_delta := 1 |};
    {| op_pos := {| line := 7; col := 0 |}; op_delta := 1 |} ].

Definition guess_two_ops : Z → list str → list str → VimState → Run (bool * list EditOp) :=
  λ _ _ _ _, Done (true, two_ops).

Definition no_diff : str → str → Z → Run (list EditOp) := λ _ _ _, Done [].

End Examples.
Import Examples.
(** ** The rest of [VimState] *)

Module VimStateAccess.

(** [VimState()]: no position is remembered.  [_lvb] is [None] and
    [_lvb_len] is not set before the first [remember_buffer]; neither is
    read before, and they stand as an empty list and 0 here. *)
Definition new_VimState : VimState := {| _poss := []; _lvb := []; _lvb_len := 0 |}.

(** The properties [pos] and [ppos]: [self._poss[-1]] and [self._poss[-2]]. *)
Definition pos (vs : VimState) : Run VimPosition := index (_poss vs) (-1).
Definition ppos (vs : VimState) : Run VimPosition := index (_poss vs) (-2).

(** The property [diff_in_buffer_length]. *)
Definition diff_in_buffer_length (vs : VimState) (v : Vim.State) : Z :=
  len (buf v) - _lvb_len vs.

(** The property [remembered_buffer]: a copy of [_lvb]. *)
Definition remembered_buffer (vs : VimState) : list str := _lvb vs.

End VimStateAccess.
Import VimStateAccess.

(** ** Filetypes of a buffer *)
Module Filetypes.

(** [self._filetypes], a [defaultdict(lambda: ['all'])] keyed by the
    buffer number. *)
Abbreviation FiletypesDict := (gmap Z (list str)) (only parsing).

(** [self._filetypes[nr]]: reading a missing key enters the default. *)
Definition dd_get (nr : Z) (fts : FiletypesDict) : list str * FiletypesDict :=
  match fts !! nr with
  | Some l => (l, fts)
  | None => ([py "all"], <[nr := [py "all"]]> fts)
  end.

(** The property [primary_filetype], for the buffer number [nr]. *)
Definition primary_filetype (nr : Z) (fts : FiletypesDict) : Run str * FiletypesDict :=
  let '(l, fts) := dd_get nr fts in
  (index l 0, fts).

(** [reset_buffer_filetypes]. *)
Definition reset_buffer_filetypes (nr : Z) (fts : FiletypesDict) : FiletypesDict :=
  if bool_decide (is_Some (fts !! nr)) then delete nr fts else fts.

(** [s.split(sep)] for a one-character separator; [cur] holds the
    current piece in reverse. *)
Fixpoint split_on (sep : ascii) (cur s : str) : list str :=
  match s with
  | [] => [rev cur]
  | c :: s' =>
      if bool_decide (c = sep) then rev cur :: split_on sep [] s'
      else split_on sep (c :: cur) s'
  end.

(** [l.index(x)]: the first position of [x]; [None] stands for
    [ValueError]. *)
Fixpoint list_index (x : str) (l : list str) : option nat :=
  match l with
  | [] => None
  | y :: l' => if bool_decide (y = x) then Some 0%nat else S <$> list_index x l'
  end.

(** [l.insert(i, x)]: the position is clipped like a slice bound. *)
Definition list_insert {A} (i : Z) (x : A) (l : list A) : list A :=
  take (clip (len l) i) l ++ x :: drop (clip (len l) i) l.

(** One round of the loop of [add_buffer_filetypes], on [idx] and the
    list [buf_fts] (which is the list in the dictionary). *)
Definition add_filetype_step (st : Z * list str) (ft : str) : Z * list str :=
  let ft := strip ft in
  if bool_decide (ft = []) then st
  else match list_index ft st.2 with
       | Some i => (Z.of_nat i, st.2)
       | None => (st.1 + 1, list_insert (st.1 + 1) ft st.2)
       end.

(** [add_buffer_filetypes(ft)]. *)
Definition add_buffer_filetypes (nr : Z) (ft : str) (fts : FiletypesDict) : FiletypesDict :=
  let '(buf_fts, fts) := dd_get nr fts in
  let st := foldl add_filetype_step (-1, buf_fts) (split_on "." [] ft) in
  <[nr := st.2]> fts.

(** The filetypes that a dotted name asks for: its pieces, stripped, the
    empty ones left out. *)
Definition wanted_filetypes (ft : str) : list str :=
  filter (λ x, x ≠ []) (strip <$> split_on "." [] ft).

End Filetypes.
Import Filetypes.

(** ** The visual selection: [VisualContentPreserver.conserve] *)
Module Visual.

Section Conserve.

(** [UltiSnips.compatibility.byte2col(line, nbyte)]. *)
Variable byte2col : Z → Z → Z.

(** [_vim.buf[ln] + '\n']. *)
Definition _vim_line_with_eol (v : Vim.State) (ln : Z) : Run str :=
  l ← index (buf v) ln; Done (l ++ [newline]).

(** [range(a, b)]. *)
Definition range (a b : Z) : list Z :=
  (λ k, a + Z.of_nat k) <$> seq 0 (Z.to_nat (b - a)).

(** The lines collected by [for cl in range(sl, el-1)]. *)
Fixpoint lines_with_eol (v : Vim.State) (text : str) (cls : list Z) : Run str :=
  match cls with
  | [] => Done text
  | cl :: cls' =>
      l ← _vim_line_with_eol v cl;
      lines_with_eol v (text ++ l) cls'
  end.

(** The text between the marks: [sl], [sbyte] are [line("'<")] and
    [col("'<")], [el], [ebyte] those of ['>]. *)
Definition selected_text (sl sbyte el ebyte : Z) (v : Vim.State) : Run str :=
  let sc := byte2col sl (sbyte - 1) in
  let ec := byte2col el (ebyte - 1) in
  if bool_decide (sl = el) then
    l ← _vim_line_with_eol v (sl - 1);
    Done (slice l sc (ec + 1))
  else
    first ← _vim_line_with_eol v (sl - 1);
    text ← lines_with_eol v (slice_from first sc) (range sl (el - 1));
    last_ ← _vim_line_with_eol v (el - 1);
    Done (text ++ slice_to last_ (ec + 1)).

(** [conserve()]: [_mode] is set before the text is read, so it is set
    also when reading the text raises. *)
Definition conserve (sl sbyte el ebyte : Z) (self : VisualContentPreserver)
    (v : Vim.State) : VisualContentPreserver * Run unit :=
  let self := {| vc_mode := visualmode v; vc_text := vc_text self |} in
  match selected_text sl sbyte el ebyte v with
  | Done text => ({| vc_mode := vc_mode self; vc_text := text |}, Done ())
  | Raised e => (self, Raised e)
  | Unfinished => (self, Unfinished)
  end.

End Conserve.

(** The whole buffer as one text, every line with its end of line, and
    the place of line [n] in it. *)
Definition buffer_text (b : list str) : str := mjoin ((λ l, l ++ [newline]) <$> b).
Definition line_offset (b : list str) (n : nat) : Z := len (buffer_text (take n b)).

End Visual.
Import Visual.

(** ** Listing: [Snippet.description] and [ask_for_users_choice] *)
Module Listing.

(** The property [description]: [("(%s) %s" % (self._t, self._d)).strip()]. *)
Definition description (self : Snippet) : str :=
  strip (py "(" ++ _t self ++ py ") " ++ _d self).

(** What [_vim.eval("inputlist(...)")] gives: a [_vim.error], [None], or
    the number of the chosen entry in decimal. *)
Inductive Reply :=
  | VimError
  | NoReply
  | Number (rv : Z).

Section Choice.

(** The editor's [inputlist] on the escaped list of entries. *)
Variable inputlist : list str → Reply.

(** The entries shown: ["%i: %s" % (i+1, s.description)]. *)
Definition display (snippets : list Snippet) : list str :=
  imap (λ i s, py (pretty (S i)) ++ py ": " ++ description s) snippets.

(** [ask_for_users_choice(snippets)]; [None] of Python is [None]. *)
Definition ask_for_users_choice (snippets : list Snippet) : Run (option Snippet) :=
  match inputlist (display snippets) with
  | VimError => Done None
  | NoReply => Done None
  | Number rv =>
      if rv =? 0 then Done None
      else
        let rv := if len snippets <? rv then len snippets else rv in
        s ← index snippets (rv - 1);
        Done (Some s)
  end.

End Choice.

End Listing.
Import Listing.

(** ** Commands of [SnippetManager] *)
Module Commands.

Section Commands.

Variable Inst : Type.
Variable inst_snippet : Inst → Snippet.
Variable inst_start inst_end : Inst → Position.
Variable select_next_tab : bool → Inst → option Tab * Inst.
Variable Parent : Type.
Variable find_parent_for_new_to : Position → Inst → Parent.
Variable new_SnippetInstance :
  Snippet → option Parent → str → str → Position → Position →
  VisualContentPreserver → option MatchObject → Vim.State → Inst * Vim.State.
Variable ntabs_to_proper_indent : nat → str.
Variable re_finditer : str → str → list MatchObject.
Variable inputlist : list str → Reply.

Local Abbreviation _do_snippet :=
  (_do_snippet inst_snippet inst_start inst_end select_next_tab
     find_parent_for_new_to new_SnippetInstance ntabs_to_proper_indent).

(** [while len(self._csnippets): self._current_snippet_is_done()]. *)
Fixpoint finish_all (rounds : nat) (m : SnippetManager Inst) : Run (SnippetManager Inst) :=
  match _csnippets m with
  | [] => Done m
  | _ :: _ =>
      match rounds with
      | S rounds' => finish_all rounds' (_current_snippet_is_done m)
      | O => Unfinished
      end
  end.

(** [leaving_buffer()]; a round of the loop pops one instance, so the
    height of the stack bounds the rounds. *)
Definition leaving_buffer (m : SnippetManager Inst) : Run (SnippetManager Inst) :=
  m ← finish_all (length (_csnippets m)) m;
  Done (_reinit m).

(** [_try_expand()]; [filetypes] is [self._filetypes[_vim.buf.nr]]. *)
Definition _try_expand (_snippet_providers : list Provider) (filetypes : list str)
    (m : SnippetManager Inst) (v : Vim.State)
  : SnippetManager Inst * Vim.State * Run bool :=
  let '(before, after) := current_line_splitted v in
  if bool_decide (before = []) then (m, v, Done false)
  else
    let snippets := _snips _snippet_providers filetypes before false in
    match snippets with
    | [] => (m, v, Done false)
    | [snippet] =>
        let '(m, v) := _do_snippet snippet before after m v in
        (m, v, Done true)
    | _ =>
        match ask_for_users_choice inputlist snippets with
        | Done (Some snippet) =>
            let '(m, v) := _do_snippet snippet before after m v in
            (m, v, Done true)
        | Done None => (m, v, Done true)
        | Raised e => (m, v, Raised e)
        | Unfinished => (m, v, Unfinished)
        end
    end.

(** [expand_anon(value, trigger, descr, options)], without the wrapper;
    [id] is the identity of the new [Snippet] object. *)
Definition expand_anon (id : nat) (value trigger descr options : str)
    (m : SnippetManager Inst) (v : Vim.State)
  : SnippetManager Inst * Vim.State * bool :=
  let '(before, after) := current_line_splitted v in
  let snip := new_Snippet id trigger value descr options in
  if bool_decide (trigger = []) then
    let '(m, v) := _do_snippet snip before after m v in (m, v, true)
  else
    let '(r, snip) := matches re_finditer snip before in
    if truthy r then
      let '(m, v) := _do_snippet snip before after m v in (m, v, true)
    else (m, v, false).

(** The text that [err_to_scratch_buffer] puts before the stack trace. *)
Definition error_intro : str :=
  py "An error occured. This is either a bug in UltiSnips or a bug in a
snippet definition. If you think this is a bug, please report it to
https://bugs.launchpad.net/ultisnips/+filebug.

Following is the full stack trace:
".

(** [traceback.format_exc()] and [_vim.new_scratch_buffer(s)]. *)
Variable format_exc : Exn → str.
Variable new_scratch_buffer : str → Vim.State → Vim.State.

(** The decorator [err_to_scratch_buffer], applied to the outcome of the
    decorated method: an exception of any kind is caught, the snippets
    are ended and the trace is shown; the call then returns [None]. *)
Definition err_to_scratch_buffer {R} (out : SnippetManager Inst * Vim.State * Run R)
  : SnippetManager Inst * Vim.State * Run (option R) :=
  let '(m, v, r) := out in
  match r with
  | Done a => (m, v, Done (Some a))
  | Raised e =>
      let s := error_intro ++ format_exc e in
      match leaving_buffer m with
      | Done m => (m, new_scratch_buffer s v, Done None)
      | Raised e' => (m, v, Raised e')
      | Unfinished => (m, v, Unfinished)
      end
  | Unfinished => (m, v, Unfinished)
  end.

End Commands.

Global Arguments finish_all {Inst}.
Global Arguments leaving_buffer {Inst}.
Global Arguments _try_expand {Inst} _ _ _ _ {Parent}.
Global Arguments expand_anon {Inst} _ _ _ _ {Parent}.
Global Arguments err_to_scratch_buffer {Inst} _ _ {R}.

End Commands.
Import Commands.
(** ** More concrete inputs *)
Module MoreExamples.


Definition snip_ab_rb : Snippet := new_Snippet 0 (py "ab") [] [] (py "rb").

(** An instance in line 1 that has no tabstop, above [inst_s]. *)
Definition inst_done : ListInst :=
  {| li_snippet := snip_hello;
     li_start := {| line := 1; col := 0 |};
     li_end := {| line := 1; col := 2 |};
     li_tabs := [] |}.

Definition manager_nested : SnippetManager ListInst :=
  {| _csnippets := [inst_s; inst_done]; _ctab := None; _ignore_movements := false;
     _vstate := {| _poss := []; _lvb := []; _lvb_len := 0 |};
     _visual_content := reset_visual |}.

(** An editor in which the user always answers [n]. *)
Definition answer (n : Z) : list str → Reply := λ _, Number n.

(** Three lines, and columns that are byte offsets. *)
Definition vim_three_lines : Vim.State :=
  {| buf := [py "ab"; py "cd"; py "ef"]; cursor := {| line := 0; col := 0 |};
     mode := py "n"; visualmode := py "v" |}.

Definition ascii_byte2col : Z → Z → Z := λ _ nbyte, nbyte.

(** An edit guesser that fails with an error other than [IndexError]. *)
Definition guess_fails : Z → list str → list str → VimState → Run (bool * list EditOp) :=
  λ _ _ _ _, Raised OtherError.

(** A trace text and a scratch buffer that shows the text. *)
Definition trace_of : Exn → str := λ _, py "Traceback".
Definition scratch : str → Vim.State → Vim.State :=
  λ s v, {| buf := [s]; cursor := {| line := 0; col := 0 |};
            mode := mode v; visualmode := visualmode v |}.

End MoreExamples.
Import MoreExamples.

(** * Properties

    ** Python text primitives *)

Example split_ex : split (py "  x a  ba ") = [py "x"; py "a"; py "ba"].
Proof. reflexivity. Qed.

Example rfind_ex : rfind (py "x a ba") (py "a") = 5 ∧ rfind (py "abc") [] = 3
  ∧ rfind (py "abc") (py "z") = -1.
Proof. vm_compute. done. Qed.

Example slice_ex : slice_to (py "abc") (-0) = [] ∧ slice_from (py "abc") (-0) = py "abc"
  ∧ slice_to (py "abc") (-1) = py "ab" ∧ slice_from (py "abc") (-5) = py "abc".
Proof. vm_compute. done. Qed.


Section Strip.
Context (p : ascii → bool).

Lemma lstrip_by_suffix s : lstrip_by p s `suffix_of` s.
Proof.
  induction s as [|c s IH]; simpl; [done|].
  destruct (p c); [by apply suffix_cons_r | done].
Qed.

Lemma rstrip_by_snoc s c :
  rstrip_by p (s ++ [c]) = if p c then rstrip_by p s else s ++ [c].
Proof.
  unfold rstrip_by. rewrite rev_app_distr. simpl.
  destruct (p c); [done|]. simpl. by rewrite rev_involutive.
Qed.

Lemma rstrip_by_prefix s : rstrip_by p s `prefix_of` s.
Proof.
  unfold rstrip_by. destruct (lstrip_by_suffix (rev s)) as [k Hk].
  exists (rev k). rewrite <-rev_app_distr, <-Hk. by rewrite rev_involutive.
Qed.

Lemma rstrip_by_length s : (length (rstrip_by p s) ≤ length s)%nat.
Proof. apply prefix_length, rstrip_by_prefix. Qed.

(** [s.rstrip() == s] exactly when [s] does not end in a stripped character. *)
Lemma rstrip_by_fixed s c :
  last s = Some c → rstrip_by p s = s ↔ p c = false.
Proof.
  intros Hl. destruct s as [|a s'] using rev_ind; [done|].
  rewrite last_snoc in Hl. injection Hl as ->.
  rewrite rstrip_by_snoc. destruct (p c); [|done].
  split; [|done]. intros Heq.
  pose proof (rstrip_by_length s') as Hlen. rewrite Heq in Hlen.
  rewrite length_app in Hlen. simpl in Hlen. lia.
Qed.

(** Stripping a text that keeps its last character strips at the front only. *)
Lemma strip_by_suffix s : rstrip_by p s = s → strip_by p s `suffix_of` s.
Proof.
  intros Hs. unfold strip_by.
  destruct (lstrip_by_suffix s) as [k Hk].
  assert (rstrip_by p (lstrip_by p s) = lstrip_by p s) as ->; [|by exists k].
  destruct (lstrip_by p s) as [|a l] eqn:El using rev_ind; [done|].
  clear IHl. rewrite rstrip_by_snoc.
  destruct (p a) eqn:Ea; [|done]. exfalso.
  rewrite Hk, app_assoc, rstrip_by_snoc, Ea in Hs.
  pose proof (rstrip_by_length (k ++ l)) as Hlen. rewrite Hs in Hlen.
  rewrite !length_app in Hlen. simpl in Hlen. lia.
Qed.

(** A suffix of a text that keeps its last character keeps its own. *)
Lemma rstrip_by_suffix_fixed s t :
  rstrip_by p s = s → t `suffix_of` s → rstrip_by p t = t.
Proof.
  intros Hs [k ->]. destruct t as [|a t] using rev_ind; [done|]. clear IHt.
  rewrite app_assoc in Hs.
  apply (rstrip_by_fixed _ a) in Hs; [|by rewrite last_snoc].
  apply (rstrip_by_fixed _ a); [by rewrite last_snoc|done].
Qed.

Lemma lstrip_by_nil s : lstrip_by p s = [] ↔ Forall (λ c, p c = true) s.
Proof.
  induction s as [|c s IH]; cbn; [by split; [constructor|]|].
  destruct (p c) eqn:Ec.
  - rewrite IH. split; [by constructor|by intros [? ?]%Forall_cons].
  - split; [done|]. intros [? ?]%Forall_cons. congruence.
Qed.

(** [s.strip(chars) == ''] exactly when [s] consists of [chars] only. *)
Lemma strip_by_nil s : strip_by p s = [] ↔ Forall (λ c, p c = true) s.
Proof.
  unfold strip_by, rstrip_by. split.
  - intros H. apply (f_equal (@rev ascii)) in H. rewrite rev_involutive in H. cbn in H.
    apply lstrip_by_nil in H. apply Forall_rev in H. rewrite rev_involutive in H.
    apply lstrip_by_nil.
    destruct (lstrip_by p s) as [|c l] eqn:E; [done|]. exfalso.
    apply Forall_cons in H as [Hc _].
    clear -E Hc. induction s as [|a s IH]; cbn in E; [done|].
    destruct (p a) eqn:Ea; [by apply IH|]. injection E as -> ->. congruence.
  - intros H. apply lstrip_by_nil in H. by rewrite H.
Qed.

End Strip.

(** Slices taken from the end, as in [s[:-n]] and [s[-n:]]. *)
Lemma slice_neg_app {A} (l : list A) (n : Z) :
  0 ≤ n → slice_to l (- n) ++ slice_from l (- n) = l.
Proof.
  intros Hn. unfold slice_to, slice_from, clip.
  destruct (- n <? 0) eqn:E; apply take_drop.
Qed.

Lemma slice_app_neg {A} (k t : list A) :
  t ≠ [] → slice_to (k ++ t) (- len t) = k ∧ slice_from (k ++ t) (- len t) = t.
Proof.
  intros Ht. unfold slice_to, slice_from, clip, len.
  assert (0 < length t)%nat by (destruct t; simpl; [done|lia]).
  replace (- Z.of_nat (length t) <? 0) with true by (symmetry; apply Z.ltb_lt; lia).
  rewrite length_app.
  replace (Z.to_nat _) with (length k) by lia.
  split; [by rewrite take_app_length | by rewrite drop_app_length].
Qed.

Lemma slice_to_0 {A} (l : list A) : slice_to l 0 = [].
Proof.
  unfold slice_to, clip, len. cbn [Z.ltb Z.compare].
  by replace (Z.to_nat _) with 0%nat by lia.
Qed.

Lemma slice_from_0 {A} (l : list A) : slice_from l 0 = l.
Proof.
  unfold slice_from, clip, len. cbn [Z.ltb Z.compare].
  by replace (Z.to_nat _) with 0%nat by lia.
Qed.

(** ** Trigger matching *)

Example words_for_line_ex :
  _words_for_line (new_Snippet 0 (py "a b") [] [] []) (py "x  ya b") None = py "ya b".
Proof. vm_compute. done. Qed.

Example matches_w_ex :
  (matches literal_finditer (new_Snippet 0 (py "bar") [] [] (py "w")) (py "foo.bar")).1
    = PyMatch {| mo_start := 0; mo_end := 2; mo_groups := [] |}
  ∧ (matches literal_finditer (new_Snippet 0 (py "bar") [] [] (py "w")) (py "foobar")).1
    = PyNone.
Proof. vm_compute. done. Qed.

Example literal_finditer_ex :
  literal_finditer (py "ab") (py "abxabab")
  = [ {| mo_start := 0; mo_end := 2; mo_groups := [] |};
      {| mo_start := 3; mo_end := 5; mo_groups := [] |};
      {| mo_start := 5; mo_end := 7; mo_groups := [] |} ].
Proof. vm_compute. done. Qed.

Lemma isblank_isspace c : isblank c = true → isspace c = true.
Proof.
  unfold isblank. intros [H|H]%orb_true_iff; apply bool_decide_eq_true in H; by subst.
Qed.

(** The guard [trigger and trigger.rstrip() != trigger] of [matches] and
    [could_match] only looks at the last character. *)
Lemma whitespace_guard t :
  negb (bool_decide (t = [])) && negb (bool_decide (rstrip t = t))
  = negb (bool_decide (rstrip t = t)).
Proof. destruct t; [done|]. by rewrite bool_decide_eq_false_2. Qed.

Lemma rstrip_after_space t c :
  last t = Some c → isspace c = true → rstrip t ≠ t.
Proof.
  intros Hl Hc Heq. apply (rstrip_by_fixed isspace t c Hl) in Heq. congruence.
Qed.

Lemma has_option_set_matched m self o :
  has_option (set_matched m self) o = has_option self o.
Proof. done. Qed.

Lemma has_option_set_last_re r self o :
  has_option (set_last_re r self) o = has_option self o.
Proof. done. Qed.

Lemma matched_set_matched m self : _matched (set_matched m self) = m.
Proof. done. Qed.
Lemma matched_set_last_re r self : _matched (set_last_re r self) = _matched self.
Proof. done. Qed.
Lemma t_set_matched m self : _t (set_matched m self) = _t self.
Proof. done. Qed.
Lemma t_set_last_re r self : _t (set_last_re r self) = _t self.
Proof. done. Qed.
Lemma last_re_set_matched m self : _last_re (set_matched m self) = _last_re self.
Proof. done. Qed.
Lemma last_re_set_last_re r self : _last_re (set_last_re r self) = r.
Proof. done. Qed.
Lemma set_matched_twice m m' self :
  set_matched m (set_matched m' self) = set_matched m self.
Proof. done. Qed.
Lemma set_matched_set_last_re m r self :
  set_matched m (set_last_re r self) = set_last_re r (set_matched m self).
Proof. done. Qed.
Lemma words_for_line_set_matched m self before n :
  _words_for_line (set_matched m self) before n = _words_for_line self before n.
Proof. done. Qed.

Create Rewrite HintDb snippet.
Hint Rewrite has_option_set_matched has_option_set_last_re matched_set_matched
  matched_set_last_re t_set_matched t_set_last_re last_re_set_matched
  last_re_set_last_re set_matched_twice set_matched_set_last_re
  words_for_line_set_matched : snippet.

Section MatchingProperties.
Variable re_finditer : str → str → list MatchObject.

Local Abbreviation matches := (matches re_finditer).
Local Abbreviation could_match := (could_match re_finditer).

(** What [matches] does once [r] is out of the way and [b] is not set:
    the guard, then the strategy, then [_matched = _t] on success. *)
Lemma matches_plain self before :
  has_option self "r" = false → has_option self "b" = false →
  matches self before =
    if negb (bool_decide (rstrip before = before)) then (PyBool false, set_matched [] self)
    else
      let r := (matches_base re_finditer (set_matched [] self) before
                  (_words_for_line self before None)).1 in
      (r, if truthy r && bool_decide (_t self ≠ [])
          then set_matched (_t self) self else set_matched [] self).
Proof.
  intros Hr Hb. unfold Matcher.matches. rewrite whitespace_guard.
  destruct (negb _); [done|].
  autorewrite with snippet.
  destruct (matches_base _ _ _ _) as [v self'] eqn:Ebase.
  assert (self' = set_matched [] self) as ->.
  { revert Ebase. unfold matches_base. autorewrite with snippet. rewrite Hr.
    repeat case_match; by intros [= <- <-]. }
  cbn [fst]. unfold boundary_check.
  destruct (truthy v); cbn [andb]; autorewrite with snippet.
  - rewrite bool_decide_eq_true_2 by done. autorewrite with snippet.
    rewrite Hb. cbn [andb]. destruct (_t self) eqn:Et; [|done].
    done.
  - by rewrite andb_false_r.
Qed.

(** C2, as the code has it: without [r], [w], [i] and [b], [matches] holds
    exactly when [before] does not end in whitespace and its trailing run
    of words, [_words_for_line(before)], equals the trigger text. *)
Theorem matches_default_iff self before :
  has_option self "r" = false → has_option self "w" = false →
  has_option self "i" = false → has_option self "b" = false →
  truthy (matches self before).1 = true
  ↔ rstrip before = before ∧ _words_for_line self before None = _t self.
Proof.
  intros Hr Hw Hi Hb. rewrite matches_plain by done.
  destruct (decide (rstrip before = before)) as [Hs|Hs].
  - rewrite (bool_decide_eq_true_2 _ Hs). cbn.
    unfold matches_base. autorewrite with snippet. rewrite Hr, Hw, Hi. cbn.
    rewrite bool_decide_eq_true. tauto.
  - rewrite (bool_decide_eq_false_2 _ Hs). cbn. split; [done|tauto].
Qed.

Lemma match_boundary_two c1 c2 :
  truthy (of_match (match_boundary [c1; c2])) = true ↔ regex_boundary c1 c2.
Proof.
  unfold match_boundary, regex_boundary.
  destruct (decide (c1 = newline)) as [->|H1].
  { rewrite bool_decide_eq_true_2 by done. cbn. split; [done|tauto]. }
  destruct (decide (c2 = newline)) as [->|H2].
  { rewrite (bool_decide_eq_true_2 (newline = newline)) by done.
    rewrite andb_false_r. cbn. split; [done|tauto]. }
  rewrite !bool_decide_eq_false_2 by done. cbn.
  destruct (re_isword c1), (re_isword c2); cbn;
    (split; [try done; by intros _|try done; by intros (_ & _ & ?)]).
Qed.

Lemma slice_from_last (p : str) c : last p = Some c → slice_from p (-1) = [c].
Proof.
  intros Hl. destruct p as [|a p'] using rev_ind; [done|].
  rewrite last_snoc in Hl. injection Hl as ->.
  apply (slice_app_neg p' [c]). done.
Qed.

Lemma slice_to_head (t : str) c : head t = Some c → slice_to t 1 = [c].
Proof.
  destruct t as [|a t]; [done|]. intros [= ->].
  unfold slice_to, clip, len. cbn [Z.ltb Z.compare length].
  replace (Z.to_nat _) with 1%nat by lia. done.
Qed.

(** C7, as the code has it: with [w] (and neither [r] nor [b]), [matches]
    succeeds exactly when [before] does not end in whitespace, the trailing
    word run ends with the trigger text, and, when something of the word
    run precedes it, [r'.\b.'] matches the two characters at the seam. *)
Theorem matches_word_iff self before :
  has_option self "r" = false → has_option self "w" = true →
  has_option self "b" = false →
  truthy (matches self before).1 = true
  ↔ rstrip before = before
    ∧ ∃ p, _words_for_line self before None = p ++ _t self
           ∧ (p ≠ [] → ∃ c1 c2, last p = Some c1 ∧ head (_t self) = Some c2
                                 ∧ regex_boundary c1 c2).
Proof.
  intros Hr Hw Hb. rewrite matches_plain by done.
  destruct (decide (rstrip before = before)) as [Hs|Hs];
    [rewrite (bool_decide_eq_true_2 _ Hs)|rewrite (bool_decide_eq_false_2 _ Hs)];
    cbn; [|split; [done|tauto]].
  unfold matches_base. autorewrite with snippet. rewrite Hr, Hw. cbn.
  set (words := _words_for_line self before None).
  destruct (decide (_t self = [])) as [Et|Et].
  - (* an empty trigger: [words[:-0]] is empty and [words[-0:]] is [words] *)
    rewrite Et. change (- len (@nil ascii)) with 0.
    rewrite slice_to_0, slice_from_0. cbn. rewrite andb_false_r. cbn. rewrite bool_decide_eq_true. split.
    + intros Hw0. split; [done|]. exists []. by rewrite Hw0.
    + intros [_ (p & Hp & Hb')]. rewrite app_nil_r in Hp. subst p.
      destruct words; [done|]. destruct Hb' as (c1 & c2 & _ & ? & _); done.
  - assert (0 < len (_t self)) as Hpos.
    { unfold len. destruct (_t self); [done|]. simpl. lia. }
    destruct (decide (slice_from words (- len (_t self)) = _t self)) as [Hsuf|Hsuf].
    + rewrite (bool_decide_eq_true_2 _ Hsuf). cbn.
      pose proof (slice_neg_app words (len (_t self)) ltac:(lia)) as Happ.
      rewrite Hsuf in Happ.
      set (prefix := slice_to words (- len (_t self))) in *.
      destruct (decide (prefix = [])) as [Ep|Ep].
      * rewrite (bool_decide_eq_true_2 _ Ep). cbn. split; [|done].
        intros _. split; [done|]. exists []. rewrite <-Happ, Ep. done.
      * rewrite (bool_decide_eq_false_2 _ Ep). cbn.
        destruct (last prefix) as [c1|] eqn:El;
          [|by apply last_None in El].
        destruct (head (_t self)) as [c2|] eqn:Eh;
          [|by apply head_None in Eh].
        rewrite (slice_from_last _ _ El), Hsuf, (slice_to_head _ _ Eh). cbn [app].
        rewrite match_boundary_two. split.
        -- intros Hbd. split; [done|]. exists prefix. split; [done|].
           intros _. by exists c1, c2.
        -- intros [_ (p & Hp & Hbd)]. rewrite <-Happ in Hp.
           apply app_inv_tail in Hp. subst p.
           destruct (Hbd Ep) as (c1' & c2' & ? & ? & ?). congruence.
    + rewrite (bool_decide_eq_false_2 _ Hsuf). cbn. split; [done|].
      intros [_ (p & Hp & _)]. exfalso. apply Hsuf.
      rewrite Hp. by apply slice_app_neg.
Qed.

(** On a text that does not end in whitespace the trailing word run is
    an end piece of the text. *)
Lemma words_for_line_suffix self before n :
  rstrip before = before → _words_for_line self before n `suffix_of` before.
Proof.
  intros Hs. unfold _words_for_line.
  case_bool_decide; [subst; done|].
  case_bool_decide; [by apply strip_by_suffix|].
  match goal with |- strip (slice_from before ?k) `suffix_of` _ => generalize k end.
  intros k. unfold slice_from.
  etrans; [|apply suffix_drop].
  apply strip_by_suffix. eapply rstrip_by_suffix_fixed; [exact Hs|apply suffix_drop].
Qed.

(** [matches] without [r]: the guard, the strategy, [_matched = _t] on
    success, and then the [b] check. *)
Lemma matches_no_regex self before :
  has_option self "r" = false →
  matches self before =
    if negb (bool_decide (rstrip before = before)) then (PyBool false, set_matched [] self)
    else
      let r := (matches_base re_finditer (set_matched [] self) before
                  (_words_for_line self before None)).1 in
      if truthy r then boundary_check (set_matched (_t self) self) before r
      else (r, set_matched [] self).
Proof.
  intros Hr. unfold Matcher.matches. rewrite whitespace_guard.
  destruct (negb _); [done|].
  autorewrite with snippet.
  destruct (matches_base _ _ _ _) as [v self'] eqn:Ebase.
  assert (self' = set_matched [] self) as ->.
  { revert Ebase. unfold matches_base. autorewrite with snippet. rewrite Hr.
    repeat case_match; by intros [= <- <-]. }
  cbn [fst]. destruct (truthy v) eqn:Ev; cbn [andb]; autorewrite with snippet.
  - rewrite bool_decide_eq_true_2 by done. by autorewrite with snippet.
  - unfold boundary_check. by rewrite Ev, andb_false_r.
Qed.

(** When a strategy other than [r] matches, the text ends with the
    trigger. *)
Lemma matches_base_suffix self before :
  has_option self "r" = false → rstrip before = before →
  truthy (matches_base re_finditer (set_matched [] self) before
            (_words_for_line self before None)).1 = true →
  _t self `suffix_of` before.
Proof.
  intros Hr Hs. pose proof (words_for_line_suffix self before None Hs) as Hw.
  unfold matches_base. autorewrite with snippet. rewrite Hr.
  set (words := _words_for_line self before None) in *.
  destruct (has_option self "w"); [|destruct (has_option self "i")]; cbn.
  - case_bool_decide as Esuf; cbn; [|by rewrite ?andb_false_l].
    intros _. etrans; [|exact Hw]. rewrite <-Esuf. apply suffix_drop.
  - unfold endswith. rewrite bool_decide_eq_true. intros Hsuf. by etrans.
  - rewrite bool_decide_eq_true. by intros <-.
Qed.

(** The [b] option for a trigger that is not empty (and not a regex):
    when the strategy matches, [before] ends with the trigger, and the
    match is kept exactly when the text before the trigger consists of
    spaces and tabs; otherwise [matches] returns [False] and [_matched]
    is empty again. *)
Lemma matches_boundary_nonempty self before :
  has_option self "b" = true → has_option self "r" = false → _t self ≠ [] →
  rstrip before = before →
  truthy (matches_base re_finditer (set_matched [] self) before
            (_words_for_line self before None)).1 = true →
  ∃ p, before = p ++ _t self
       ∧ matches self before =
           if bool_decide (Forall (λ c, isblank c = true) p)
           then ((matches_base re_finditer (set_matched [] self) before
                    (_words_for_line self before None)).1,
                 set_matched (_t self) self)
           else (PyBool false, set_matched [] self).
Proof.
  intros Hb Hr Ht Hs Hbase.
  destruct (matches_base_suffix self before Hr Hs Hbase) as [p Hp].
  exists p. split; [done|].
  rewrite matches_no_regex by done.
  rewrite (bool_decide_eq_true_2 _ Hs). cbn [negb]. cbn zeta. rewrite Hbase.
  unfold boundary_check. autorewrite with snippet. rewrite Hb, Hbase. cbn [andb].
  rewrite Hs. subst before.
  destruct (slice_app_neg p (_t self) Ht) as [-> _].
  destruct (decide (Forall (λ c, isblank c = true) p)) as [Hall|Hall].
  - rewrite (bool_decide_eq_true_2 _ Hall).
    rewrite bool_decide_eq_true_2; [done|]. by apply strip_by_nil.
  - rewrite (bool_decide_eq_false_2 _ Hall).
    rewrite bool_decide_eq_false_2; [done|]. by rewrite strip_by_nil.
Qed.

Lemma _re_match_loop_find self t ms :
  _re_match_loop self t ms =
    match List.find (λ m, mo_end m =? len t) ms with
    | Some m => (PyMatch m, set_last_re (Some m)
                              (set_matched (slice t (mo_start m) (mo_end m)) self))
    | None => (PyBool false, self)
    end.
Proof.
  induction ms as [|m ms IH]; [done|]. cbn.
  destruct (mo_end m =? len t); cbn; [done|apply IH].
Qed.

(** [matches] with [r] and without [b]: the guard, then the first match of
    [finditer] that ends where [before] ends; [_matched] is its span, or
    the trigger text when the span is empty. *)
Lemma matches_regex_eq self before :
  has_option self "r" = true → has_option self "b" = false →
  matches self before =
    if negb (bool_decide (rstrip before = before)) then (PyBool false, set_matched [] self)
    else match List.find (λ m, mo_end m =? len before) (re_finditer (_t self) before) with
         | Some m =>
             let span := slice before (mo_start m) (mo_end m) in
             (PyMatch m,
              set_last_re (Some m)
                (set_matched (if bool_decide (span = []) then _t self else span) self))
         | None => (PyBool false, set_matched [] self)
         end.
Proof.
  intros Hr Hb. unfold Matcher.matches. rewrite whitespace_guard.
  destruct (negb _); [done|].
  unfold matches_base. rewrite has_option_set_matched, Hr.
  unfold _re_match. rewrite _re_match_loop_find. autorewrite with snippet.
  destruct (List.find _ _) as [m|]; cbn zeta; unfold boundary_check;
    cbn [truthy andb]; autorewrite with snippet.
  - repeat case_bool_decide; autorewrite with snippet; rewrite Hb; cbn [andb];
      congruence.
  - by rewrite andb_false_r.
Qed.

(** C8, as the code has it: with [r] (and without [b]), [matches] succeeds
    exactly when [before] does not end in whitespace and one of the matches
    that [finditer] yields for the trigger ends where [before] ends; then
    the first such match is returned and kept in [_last_re], and
    [_matched] is its span when that span is not empty. *)
Theorem matches_regex_iff self before :
  has_option self "r" = true → has_option self "b" = false →
  (truthy (matches self before).1 = true
   ↔ rstrip before = before
     ∧ ∃ m, m ∈ re_finditer (_t self) before ∧ mo_end m = len before)
  ∧ (truthy (matches self before).1 = true →
     ∃ m, List.find (λ m, mo_end m =? len before) (re_finditer (_t self) before) = Some m
          ∧ (matches self before).1 = PyMatch m
          ∧ _last_re (matches self before).2 = Some m
          ∧ (slice before (mo_start m) (mo_end m) ≠ [] →
             _matched (matches self before).2 = slice before (mo_start m) (mo_end m))).
Proof.
  intros Hr Hb. rewrite matches_regex_eq by done.
  destruct (decide (rstrip before = before)) as [Hs|Hs];
    [rewrite (bool_decide_eq_true_2 _ Hs)|rewrite (bool_decide_eq_false_2 _ Hs)];
    cbn [negb]; [|cbn; split; [split; [done|tauto]|done]].
  destruct (List.find _ _) as [m|] eqn:Ef; cbn.
  - apply find_some in Ef as [Hin Hend]. apply Z.eqb_eq in Hend.
    split.
    + split; [|done]. intros _. split; [done|]. exists m.
      split; [by apply list_elem_of_In|done].
    + intros _. exists m. repeat split; [done..|].
      intros Hne. by rewrite bool_decide_eq_false_2.
  - split; [|done]. split; [done|]. intros [_ (m & Hin & Hend)].
    apply list_elem_of_In in Hin.
    apply (find_none _ _ Ef) in Hin. cbn in Hin. apply Z.eqb_neq in Hin. done.
Qed.

(** [matches] as one expression. *)
Lemma matches_unfold self before :
  matches self before =
    if negb (bool_decide (rstrip before = before)) then (PyBool false, set_matched [] self)
    else
      let '(v, s1) := matches_base re_finditer (set_matched [] self) before
                        (_words_for_line self before None) in
      boundary_check
        (if truthy v && bool_decide (_matched s1 = []) then set_matched (_t s1) s1 else s1)
        before v.
Proof. unfold Matcher.matches. by rewrite whitespace_guard. Qed.

Lemma re_match_loop_with_opts o self t ms :
  _re_match_loop (with_opts o self) t ms
  = ((_re_match_loop self t ms).1, with_opts o (_re_match_loop self t ms).2).
Proof.
  induction ms as [|m ms IH]; [done|]. cbn. by destruct (negb _).
Qed.

(** The strategy does not look at [b]. *)
Lemma matches_base_with_opts o self t words :
  has_option (with_opts o self) "r" = has_option self "r" →
  has_option (with_opts o self) "w" = has_option self "w" →
  has_option (with_opts o self) "i" = has_option self "i" →
  matches_base re_finditer (with_opts o self) t words
  = ((matches_base re_finditer self t words).1,
     with_opts o (matches_base re_finditer self t words).2).
Proof.
  intros Hr Hw Hi. unfold matches_base. rewrite Hr, Hw, Hi.
  destruct (has_option self "r").
  { unfold _re_match. apply re_match_loop_with_opts. }
  change (_t (with_opts o self)) with (_t self).
  repeat case_match; done.
Qed.

Lemma re_match_loop_opts self t ms :
  _opts (_re_match_loop self t ms).2 = _opts self.
Proof. induction ms as [|m ms IH]; [done|]. cbn. by destruct (negb _). Qed.

Lemma matches_base_opts self t words :
  _opts (matches_base re_finditer self t words).2 = _opts self.
Proof.
  unfold matches_base. destruct (has_option self "r").
  { apply re_match_loop_opts. }
  repeat case_match; done.
Qed.

Lemma has_option_opts self self' (x : string) :
  _opts self = _opts self' → has_option self x = has_option self' x.
Proof. unfold has_option. by intros ->. Qed.

Lemma has_option_without c self (x : string) :
  py x ≠ [c] → has_option (without_option c self) x = has_option self x.
Proof.
  unfold has_option. intros Hx. destruct (py x) as [|a [|??]]; [done| |done].
  cbn. apply bool_decide_ext. rewrite list_elem_of_filter.
  split; [by intros [_ ?]|]. intros Hin. split; [|done]. by intros ->.
Qed.

Lemma has_option_without_same c self :
  has_option (without_option c self) (String c EmptyString) = false.
Proof.
  unfold has_option. cbn. apply bool_decide_eq_false_2.
  rewrite list_elem_of_filter. by intros [? _].
Qed.

Lemma with_opts_without c self :
  with_opts (_opts self) (without_option c self) = self.
Proof. by destruct self. Qed.

(** C9, as the code has it: [b] changes [matches] only where the
    definition would match without it.  There, when the matched text [M]
    is not empty and [before.rstrip()] is [p ++ M], the match is kept if
    [p] consists of spaces and tabs only; otherwise [matches] returns
    [False] and [_matched] is empty again. *)
Theorem matches_boundary_option self before p :
  has_option self "b" = true →
  truthy (matches (without_option "b" self) before).1 = true →
  _matched (matches (without_option "b" self) before).2 ≠ [] →
  rstrip before = p ++ _matched (matches (without_option "b" self) before).2 →
  matches self before
  = if bool_decide (Forall (λ c, isblank c = true) p)
    then ((matches (without_option "b" self) before).1,
          with_opts (_opts self) (matches (without_option "b" self) before).2)
    else (PyBool false,
          set_matched []
            (with_opts (_opts self) (matches (without_option "b" self) before).2)).
Proof.
  intros Hb. set (o := _opts self). set (self0 := without_option "b" self).
  assert (has_option self0 "b" = false) as Hb0 by apply has_option_without_same.
  assert (∀ x : string, py x ≠ ["b"%char] →
            has_option (with_opts o self0) x = has_option self0 x) as Hopt.
  { intros x Hx. unfold o, self0. rewrite with_opts_without.
    by rewrite has_option_without. }
  rewrite <-(with_opts_without "b" self) at 1. fold o self0.
  rewrite !matches_unfold.
  destruct (negb (bool_decide (rstrip before = before))); [done|].
  change (set_matched [] (with_opts o self0)) with (with_opts o (set_matched [] self0)).
  change (_words_for_line (with_opts o self0) before None)
    with (_words_for_line self0 before None).
  rewrite matches_base_with_opts by (apply Hopt; done).
  pose proof (matches_base_opts (set_matched [] self0) before
                (_words_for_line self0 before None)) as Ho1.
  destruct (matches_base re_finditer (set_matched [] self0) before
              (_words_for_line self0 before None)) as [v s1].
  cbn [fst snd] in *.
  set (s2 := if truthy v && bool_decide (_matched s1 = [])
             then set_matched (_t s1) s1 else s1).
  assert ((if truthy v && bool_decide (_matched (with_opts o s1) = [])
           then set_matched (_t (with_opts o s1)) (with_opts o s1)
           else with_opts o s1) = with_opts o s2) as ->.
  { unfold s2. by destruct (truthy v && _). }
  assert (boundary_check s2 before v = (v, s2)) as ->.
  { unfold boundary_check.
    assert (has_option s2 "b" = false) as ->; [|done].
    unfold s2. destruct (truthy v && _); autorewrite with snippet;
      by rewrite (has_option_opts s1 (set_matched [] self0)). }
  cbn [fst snd]. intros Hv HM Hp.
  unfold boundary_check.
  assert (has_option (with_opts o s2) "b" = true) as ->.
  { by rewrite (has_option_opts (with_opts o s2) self). }
  rewrite Hv. cbn [andb].
  change (_matched (with_opts o s2)) with (_matched s2). rewrite Hp.
  destruct (slice_app_neg p (_matched s2) HM) as [-> _].
  destruct (decide (Forall (λ c, isblank c = true) p)) as [Hall|Hall].
  - rewrite (bool_decide_eq_true_2 _ Hall).
    rewrite bool_decide_eq_true_2; [done|]. by apply strip_by_nil.
  - rewrite (bool_decide_eq_false_2 _ Hall).
    rewrite bool_decide_eq_false_2; [done|]. by rewrite strip_by_nil.
Qed.

(** C10: without [r], [could_match] after a trailing space or tab behaves
    as on the empty text: it returns [True] with an empty [_matched],
    whereas [matches] fails on the same text. *)
Theorem could_match_after_blank self before c :
  has_option self "r" = false → last before = Some c → isblank c = true →
  could_match self before = (PyBool true, set_matched [] self)
  ∧ could_match self before = could_match self []
  ∧ truthy (matches self before).1 = false.
Proof.
  intros Hr Hl Hc.
  assert (could_match self [] = (PyBool true, set_matched [] self)) as Hnil.
  { unfold Matcher.could_match. cbn [last]. rewrite whitespace_guard.
    change (rstrip []) with (@nil ascii).
    rewrite (bool_decide_eq_true_2 (@nil ascii = [])) by done. cbn [negb].
    autorewrite with snippet.
    change (_words_for_line self [] None) with (@nil ascii).
    assert (startswith (_t self) [] = true) as Hsw.
    { apply bool_decide_eq_true_2, prefix_nil. }
    unfold could_match_base. autorewrite with snippet.
    change (sub_word_suffix []) with (@nil ascii). rewrite Hr, Hsw.
    unfold boundary_check.
    destruct (has_option self "w"); [|destruct (has_option self "i")];
      cbn [negb truthy andb]; autorewrite with snippet;
      rewrite ?(bool_decide_eq_true_2 (@nil ascii = [])) by done;
      cbn [negb truthy andb]; autorewrite with snippet.
      all: repeat case_bool_decide; try done; autorewrite with snippet in *.
      all: destruct (has_option self "b"); cbn [andb negb]; try done.
      all: repeat case_bool_decide; done. }
  split_and!.
  - rewrite <-Hnil. unfold Matcher.could_match. by rewrite Hl, Hc.
  - unfold Matcher.could_match at 1. rewrite Hl, Hc. done.
  - unfold Matcher.matches. rewrite whitespace_guard.
    rewrite bool_decide_eq_false_2; [done|].
    eapply rstrip_after_space; [done|]. by apply isblank_isspace.
Qed.

End MatchingProperties.

(** *** Concrete triggers *)

(** The default strategy on ["x fn"]. *)
Lemma matches_default_iff_witness :
  has_option (snip_fn "") "r" = false ∧ has_option (snip_fn "") "w" = false
  ∧ has_option (snip_fn "") "i" = false ∧ has_option (snip_fn "") "b" = false
  ∧ (truthy (matches literal_finditer (snip_fn "") (py "x fn")).1 = true
     ↔ rstrip (py "x fn") = py "x fn"
       ∧ _words_for_line (snip_fn "") (py "x fn") None = _t (snip_fn "")).
Proof.
  split_and!; [reflexivity..|].
  apply (matches_default_iff literal_finditer (snip_fn "") (py "x fn")); reflexivity.
Defined.

(** C2 as stated fails after a trailing space: the trailing word run of
    ["fn "] is the trigger ["fn"], and [matches] returns [False]. *)
Lemma matches_default_trailing_space :
  has_option (snip_fn "") "r" = false ∧ has_option (snip_fn "") "w" = false
  ∧ has_option (snip_fn "") "i" = false
  ∧ _words_for_line (snip_fn "") (py "fn ") None = _t (snip_fn "")
  ∧ matches literal_finditer (snip_fn "") (py "fn ") = (PyBool false, snip_fn "").
Proof. vm_compute. done. Qed.

(** The [w] strategy on ["foo.bar"]. *)
Lemma matches_word_iff_witness :
  has_option (snip_bar "w") "r" = false ∧ has_option (snip_bar "w") "w" = true
  ∧ has_option (snip_bar "w") "b" = false
  ∧ (truthy (matches literal_finditer (snip_bar "w") (py "foo.bar")).1 = true
     ↔ rstrip (py "foo.bar") = py "foo.bar"
       ∧ ∃ p, _words_for_line (snip_bar "w") (py "foo.bar") None = p ++ _t (snip_bar "w")
              ∧ (p ≠ [] → ∃ c1 c2, last p = Some c1 ∧ head (_t (snip_bar "w")) = Some c2
                                    ∧ regex_boundary c1 c2)).
Proof.
  split_and!; [reflexivity..|].
  apply (matches_word_iff literal_finditer (snip_bar "w") (py "foo.bar")); reflexivity.
Defined.

(** The two examples of C7. *)
Example matches_word_examples :
  truthy (matches literal_finditer (snip_bar "w") (py "foo.bar")).1 = true
  ∧ truthy (matches literal_finditer (snip_bar "w") (py "foobar")).1 = false.
Proof. vm_compute. done. Qed.

(** C7 as stated fails after a trailing space: the word run of ["bar "] is
    ["bar"], which ends with the trigger and leaves no prefix, and
    [matches] returns [False]. *)
Lemma matches_word_trailing_space :
  has_option (snip_bar "w") "w" = true
  ∧ _words_for_line (snip_bar "w") (py "bar ") None = [] ++ _t (snip_bar "w")
  ∧ slice_from (_words_for_line (snip_bar "w") (py "bar ") None) (- len (_t (snip_bar "w")))
    = _t (snip_bar "w")
  ∧ matches literal_finditer (snip_bar "w") (py "bar ") = (PyBool false, snip_bar "w").
Proof. vm_compute. done. Qed.

Lemma matches_regex_iff_witness :
  has_option snip_ab "r" = true ∧ has_option snip_ab "b" = false
  ∧ matches literal_finditer snip_ab (py "xab")
    = (PyMatch {| mo_start := 1; mo_end := 3; mo_groups := [] |},
       set_last_re (Some {| mo_start := 1; mo_end := 3; mo_groups := [] |})
         (set_matched (py "ab") snip_ab))
  ∧ ((truthy (matches literal_finditer snip_ab (py "xab")).1 = true
      ↔ rstrip (py "xab") = py "xab"
        ∧ ∃ m, m ∈ literal_finditer (_t snip_ab) (py "xab") ∧ mo_end m = len (py "xab"))
     ∧ (truthy (matches literal_finditer snip_ab (py "xab")).1 = true →
        ∃ m, List.find (λ m, mo_end m =? len (py "xab"))
               (literal_finditer (_t snip_ab) (py "xab")) = Some m
             ∧ (matches literal_finditer snip_ab (py "xab")).1 = PyMatch m
             ∧ _last_re (matches literal_finditer snip_ab (py "xab")).2 = Some m
             ∧ (slice (py "xab") (mo_start m) (mo_end m) ≠ [] →
                _matched (matches literal_finditer snip_ab (py "xab")).2
                = slice (py "xab") (mo_start m) (mo_end m)))).
Proof.
  do 3 (split; [reflexivity|]).
  apply (matches_regex_iff literal_finditer snip_ab (py "xab")); reflexivity.
Defined.

(** C8 as stated fails after a trailing space: the regex ["b "] has a match
    in ["ab "] that ends at its end, and [matches] returns [False]. *)
Lemma matches_regex_trailing_space :
  has_option snip_b_space "r" = true
  ∧ literal_finditer (_t snip_b_space) (py "ab ")
    = [ {| mo_start := 1; mo_end := 3; mo_groups := [] |} ]
  ∧ len (py "ab ") = 3
  ∧ matches literal_finditer snip_b_space (py "ab ") = (PyBool false, snip_b_space).
Proof. vm_compute. done. Qed.

(** The [b] check on ["   fn"] with the options [wb]. *)
Lemma matches_boundary_option_witness :
  has_option (snip_fn "wb") "b" = true
  ∧ truthy (matches literal_finditer (without_option "b" (snip_fn "wb")) (py "   fn")).1
    = true
  ∧ rstrip (py "   fn")
    = py "   "
      ++ _matched (matches literal_finditer (without_option "b" (snip_fn "wb"))
                     (py "   fn")).2
  ∧ matches literal_finditer (snip_fn "wb") (py "   fn")
    = if bool_decide (Forall (λ c, isblank c = true) (py "   "))
      then ((matches literal_finditer (without_option "b" (snip_fn "wb")) (py "   fn")).1,
            with_opts (_opts (snip_fn "wb"))
              (matches literal_finditer (without_option "b" (snip_fn "wb"))
                 (py "   fn")).2)
      else (PyBool false,
            set_matched []
              (with_opts (_opts (snip_fn "wb"))
                 (matches literal_finditer (without_option "b" (snip_fn "wb"))
                    (py "   fn")).2)).
Proof.
  do 3 (split; [reflexivity|]).
  apply (matches_boundary_option literal_finditer (snip_fn "wb") (py "   fn") (py "   "));
    [reflexivity|reflexivity|discriminate|reflexivity].
Defined.

(** C9 as stated fails in two places.  A form feed is whitespace for
    [rstrip()] and [split()], yet [strip(" \t")] does not remove it: the
    trigger ["fn"] with [b] does not match behind a form feed.  And for an
    empty trigger the matched text is empty, [before.rstrip()[:-0]] is
    empty whatever precedes, and the match behind ["x"] is kept. *)
Lemma matches_boundary_whitespace :
  (isspace form_feed = true
   ∧ truthy (matches literal_finditer (snip_fn "") (form_feed :: py "fn")).1 = true
   ∧ rstrip (form_feed :: py "fn") = [form_feed] ++ py "fn"
   ∧ matches literal_finditer (snip_fn "b") (form_feed :: py "fn")
     = (PyBool false, snip_fn "b"))
  ∧ (has_option (new_Snippet 0 [] [] [] (py "b")) "b" = true
     ∧ rstrip (py "x") = py "x" ++ []
     ∧ Forall (λ c, isspace c = false) (py "x")
     ∧ matches literal_finditer (new_Snippet 0 [] [] [] (py "b")) (py "x")
       = (PyBool true, new_Snippet 0 [] [] [] (py "b"))).
Proof. split; split_and!; try reflexivity. by repeat constructor. Qed.

(** The examples of C9: ["x fn"] fails and ["   fn"] succeeds. *)
Example matches_boundary_examples :
  matches literal_finditer (snip_fn "b") (py "x fn") = (PyBool false, snip_fn "b")
  ∧ matches literal_finditer (snip_fn "b") (py "   fn")
    = (PyBool true, set_matched (py "fn") (snip_fn "b")).
Proof. vm_compute. done. Qed.

(** After a trailing blank every definition without [r] is a candidate. *)
Lemma could_match_after_blank_witness :
  has_option (snip_fn "wb") "r" = false ∧ last (py "x ") = Some space
  ∧ isblank space = true
  ∧ (could_match literal_finditer (snip_fn "wb") (py "x ")
       = (PyBool true, set_matched [] (snip_fn "wb"))
     ∧ could_match literal_finditer (snip_fn "wb") (py "x ")
       = could_match literal_finditer (snip_fn "wb") []
     ∧ truthy (matches literal_finditer (snip_fn "wb") (py "x ")).1 = false).
Proof.
  do 3 (split; [reflexivity|]).
  apply (could_match_after_blank literal_finditer (snip_fn "wb") (py "x ") space);
    reflexivity.
Defined.

(** ** Snippet lookup *)

Example select_snippets_ex :
  let a := new_Snippet 1 (py "t") [] [] [] in
  let b := new_Snippet 2 (py "t") [] [] (py "!") in
  let c := new_Snippet 3 (py "a") [] [] [] in
  let d := new_Snippet 4 (py "t") [] [] [] in
  select_snippets [a; c; b; d] = [c; b; d].
Proof. vm_compute. done. Qed.

Lemma group_step_lookup (m : gmap str (list Snippet)) s t :
  group_step m s !! t =
    if decide (trigger s = t) then
      Some ((if bool_decide (m !! t = None) || overwrites_previous s
             then [] else default [] (m !! t)) ++ [s])
    else m !! t.
Proof.
  unfold group_step. rewrite lookup_alter. case_decide as Ht; [subst t|].
  - destruct (bool_decide (m !! trigger s = None) || overwrites_previous s) eqn:E.
    + by rewrite lookup_insert_eq.
    + apply orb_false_iff in E as [E _]. apply bool_decide_eq_false in E.
      destruct (m !! trigger s); [done|congruence].
  - destruct (_ || _); [|done]. by rewrite lookup_insert_ne.
Qed.

(** The list that the dictionary holds for [t] after the loop: the
    entries with trigger [t] that no later entry has cleared. *)
Lemma groups_elem found t s :
  s ∈ default [] (foldl group_step ∅ found !! t)
  ↔ ∃ l1 l2, found = l1 ++ s :: l2 ∧ trigger s = t ∧ Forall (keeps t) l2.
Proof.
  induction found as [|x found IH] using rev_ind.
  - cbn. rewrite lookup_empty. cbn. split; [by intros ?%elem_of_nil|].
    intros (l1 & l2 & Hl & _). by destruct l1.
  - rewrite foldl_app. cbn [foldl]. rewrite group_step_lookup.
    set (m := foldl group_step ∅ found) in *.
    assert (∀ l1 l2, found ++ [x] = l1 ++ s :: l2 →
              (l2 = [] ∧ found = l1 ∧ x = s)
              ∨ ∃ l2', l2 = l2' ++ [x] ∧ found = l1 ++ s :: l2') as Hsplit.
    { intros l1 l2 Heq. destruct l2 as [|y l2'] using rev_ind.
      - left. apply app_inj_tail in Heq as [-> ->]. done.
      - right. exists l2'. clear IHl2'.
        rewrite app_comm_cons, app_assoc in Heq.
        apply app_inj_tail in Heq as [-> ->]. done. }
    case_decide as Ht; cbn [from_option id].
    + subst t. rewrite elem_of_app, list_elem_of_singleton.
      destruct (bool_decide (m !! trigger x = None) || overwrites_previous x) eqn:E.
      * split.
        -- intros [?%elem_of_nil| ->]; [done|]. by exists found, [].
        -- intros (l1 & l2 & Heq & Hts & Hall).
           destruct (Hsplit _ _ Heq) as [(-> & -> & ->)|(l2' & -> & ->)]; [by right|].
           exfalso. apply Forall_app in Hall as [Hall' Hx].
           apply Forall_inv in Hx.
           apply orb_true_iff in E as [E|E]; [|by apply Hx].
           apply bool_decide_eq_true in E.
           assert (s ∈ default [] (m !! trigger x)) as Hin.
           { apply IH. by exists l1, l2'. }
           rewrite E in Hin. by apply elem_of_nil in Hin.
      * apply orb_false_iff in E as [_ Eb]. rewrite IH. split.
        -- intros [(l1 & l2 & -> & Hts & Hall)| ->].
           ++ exists l1, (l2 ++ [x]). split_and!; [by rewrite <-app_assoc|done|].
              apply Forall_app. split; [done|]. apply Forall_singleton.
              intros [_ ?]. congruence.
           ++ by exists found, [].
        -- intros (l1 & l2 & Heq & Hts & Hall).
           destruct (Hsplit _ _ Heq) as [(-> & -> & ->)|(l2' & -> & ->)]; [by right|].
           left. exists l1, l2'. split_and!; [done..|].
           by apply Forall_app in Hall as [? _].
    + rewrite IH. split.
      * intros (l1 & l2 & -> & Hts & Hall).
        exists l1, (l2 ++ [x]). split_and!; [by rewrite <-app_assoc|done|].
        apply Forall_app. split; [done|]. apply Forall_singleton.
        intros [? _]. done.
      * intros (l1 & l2 & Heq & Hts & Hall).
        destruct (Hsplit _ _ Heq) as [(-> & -> & ->)|(l2' & -> & ->)]; [done|].
        exists l1, l2'. split_and!; [done..|].
        by apply Forall_app in Hall as [? _].
Qed.

(** An object is selected when it stands in one of the dictionary's lists. *)
Lemma selected_snippets_elem (m : gmap str (list Snippet)) i :
  i ∈ selected_snippets m ↔ ∃ t s, s ∈ default [] (m !! t) ∧ oid s = i.
Proof.
  unfold selected_snippets. rewrite elem_of_list_to_set, list_elem_of_fmap.
  split.
  - intros (s & -> & Hs). apply list_elem_of_join in Hs as (l & Hs & Hl).
    apply list_elem_of_fmap in Hl as ([t l'] & -> & Hl).
    apply elem_of_map_to_list in Hl. exists t, s. cbn in *. by rewrite Hl.
  - intros (t & s & Hs & <-). exists s. split; [done|].
    destruct (m !! t) as [l|] eqn:El; [|by apply elem_of_nil in Hs].
    apply list_elem_of_join. exists l. split; [done|].
    apply list_elem_of_fmap. exists (t, l). split; [done|].
    by apply elem_of_map_to_list.
Qed.










(** With two filetypes every provider is asked twice, and each kept
    candidate is listed twice. *)
Example snips_two_filetypes :
  _snips [demo_provider] [py "c"; py "all"] (py "t") false
  = [ new_Snippet 2 (py "a") [] [] [];
      new_Snippet 3 (py "t") [] [] (py "!");
      new_Snippet 4 (py "t") [] [] [];
      new_Snippet 2 (py "a") [] [] [];
      new_Snippet 3 (py "t") [] [] (py "!");
      new_Snippet 4 (py "t") [] [] [] ].
Proof. vm_compute. done. Qed.

(** ** The window of [cursor_moved] *)

Example trim_window_leading :
  trim_window 0 [py "a"; py "b"; py "x"] [py "a"; py "b"; py "y"] (Done 2) 2
  = Done (1, [py "b"; py "x"], [py "b"; py "y"]).
Proof. vm_compute. done. Qed.

Example trim_window_trailing :
  trim_window 0 [py "x"; py "b"; py "c"] [py "y"; py "b"; py "c"] (Done 0) 0
  = Done (0, [py "x"], [py "y"]).
Proof. vm_compute. done. Qed.

Example trim_window_same :
  trim_window 5 [py "a"; py "b"; py "c"] [py "a"; py "b"; py "c"] (Done 6) 6
  = Done (6, [py "b"], [py "b"]).
Proof. vm_compute. done. Qed.

Section TrimWindow.
Variables (cstart : Z) (lt ct : list str) (ppos_line pos_line : Z).

Local Abbreviation stripped := (stripped cstart lt ct).
Local Abbreviation trailing_ok := (trailing_ok cstart lt ct ppos_line pos_line).
Local Abbreviation leading_ok := (leading_ok cstart lt ct ppos_line pos_line).

(** The subscript [l[e - 1]] of the first loop never fails on a text that
    is not empty: at [e = 0] it reads the last line. *)
Lemma index_before_end (l : list str) (k : nat) :
  l ≠ [] → (k ≤ length l)%nat →
  ∃ a, index l (len l - Z.of_nat k - 1) = Done a
       ∧ ((k < length l)%nat → l !! (length l - k - 1)%nat = Some a).
Proof.
  intros Hne Hk. unfold index, getitem, len.
  assert (0 < length l)%nat by (destruct l; [done|simpl; lia]).
  destruct (decide (k = length l)) as [->|Hlt].
  - replace (Z.of_nat (length l) - Z.of_nat (length l) - 1) with (-1) by lia.
    cbn [Z.ltb Z.compare].
    replace (0 <=? Z.of_nat (length l) + -1) with true by (symmetry; apply Z.leb_le; lia).
    destruct (l !! Z.to_nat (Z.of_nat (length l) + -1)) as [a|] eqn:E.
    + exists a. split; [done|lia].
    + apply lookup_ge_None in E. lia.
  - replace (Z.of_nat (length l) - Z.of_nat k - 1 <? 0) with false
      by (symmetry; apply Z.ltb_ge; lia).
    replace (Z.to_nat (Z.of_nat (length l) - Z.of_nat k - 1))
      with (length l - k - 1)%nat by lia.
    destruct (l !! (length l - k - 1)%nat) as [a|] eqn:E.
    + by exists a.
    + apply lookup_ge_None in E. lia.
Qed.

Hypothesis lt_not_empty : lt ≠ [].
Hypothesis ct_not_empty : ct ≠ [].

Lemma strip_trailing_run rounds k :
  trailing_ok k → (length lt - k < rounds)%nat →
  ∃ k', strip_trailing rounds lt ct (Done ppos_line) pos_line (stripped 0 k)
        = Done (stripped 0 k') ∧ trailing_ok k'.
Proof.
  revert k. induction rounds as [|rounds IH]; intros k Hk Hr; [lia|].
  destruct Hk as (Hkl & Hkc & Hdrop & Hcur).
  cbn [strip_trailing]. unfold trailing_cond. cbn [stripped lt_span ct_span initial_line fst snd].
  destruct (index_before_end lt k lt_not_empty Hkl) as (a & -> & Ha).
  destruct (index_before_end ct k ct_not_empty Hkc) as (b & -> & Hb).
  cbn [mbind Run_bind].
  case_bool_decide as Eab; [subst b|by exists k]. cbn [mbind Run_bind].
  match goal with |- context [if ?c then _ else _] => destruct c eqn:Ec end.
  - repeat (apply andb_true_iff in Ec as [Ec ?]).
    repeat match goal with H : (_ <? _) = true |- _ => apply Z.ltb_lt in H end.
    unfold len in *.
    assert (k < length lt)%nat by lia. assert (k < length ct)%nat by lia.
    destruct (IH (S k)) as (k' & Hrun & Hk'); [|lia|].
    { split_and!; [lia..| |intros _; unfold len; lia].
      replace (length lt - S k)%nat with (length lt - k - 1)%nat by lia.
      replace (length ct - S k)%nat with (length ct - k - 1)%nat by lia.
      rewrite (drop_S lt a _ (Ha ltac:(lia))), (drop_S ct a _ (Hb ltac:(lia))).
      f_equal.
      replace (S (length lt - k - 1)) with (length lt - k)%nat by lia.
      replace (S (length ct - k - 1)) with (length ct - k)%nat by lia. done. }
    exists k'. split; [|done]. rewrite <-Hrun. f_equal. unfold stripped, len.
    f_equal; f_equal; lia.
  - exists k. done.
Qed.

Lemma strip_leading_run rounds j k :
  leading_ok j k → (length lt - k - j < rounds)%nat →
  ∃ j', strip_leading rounds lt ct (Done ppos_line) pos_line (stripped j k)
        = Done (stripped j' k) ∧ leading_ok j' k.
Proof.
  revert j. induction rounds as [|rounds IH]; intros j Hj Hr; [lia|].
  destruct Hj as (Hjl & Hjc & Htake & Hcur).
  cbn [strip_leading]. unfold leading_cond. cbn [stripped lt_span ct_span initial_line fst snd].
  unfold len in *.
  destruct ((Z.of_nat j <? Z.of_nat (length lt) - Z.of_nat k)
            && (Z.of_nat j <? Z.of_nat (length ct) - Z.of_nat k)) eqn:Espan.
  - apply andb_true_iff in Espan as [H1%Z.ltb_lt H2%Z.ltb_lt].
    unfold index, getitem.
    replace (Z.of_nat j <? 0) with false by (symmetry; apply Z.ltb_ge; lia).
    rewrite Nat2Z.id.
    destruct (lt !! j) as [a|] eqn:Ea; [|apply lookup_ge_None in Ea; lia].
    destruct (ct !! j) as [b|] eqn:Eb; [|apply lookup_ge_None in Eb; lia].
    cbn [mbind Run_bind].
    case_bool_decide as Eab; [subst b|by exists j]. cbn [mbind Run_bind].
    match goal with |- context [if ?c then _ else _] => destruct c eqn:Ec end.
    + repeat (apply andb_true_iff in Ec as [Ec ?]).
      repeat match goal with H : (_ <=? _) = true |- _ => apply Z.leb_le in H end.
      destruct (IH (S j)) as (j' & Hrun & Hj'); [|lia|].
      { split_and!; [lia..| |intros _; unfold len; lia].
        rewrite (take_S_r lt j a Ea), (take_S_r ct j a Eb). by rewrite Htake. }
      exists j'. split; [|done]. rewrite <-Hrun. f_equal. unfold stripped, len.
      f_equal; [f_equal; lia..|lia].
    + exists j. done.
  - exists j. done.
Qed.

End TrimWindow.

Lemma slice_nat {A} (l : list A) (a k : nat) :
  (a ≤ length l)%nat → (k ≤ length l)%nat →
  slice l (Z.of_nat a) (len l - Z.of_nat k) = drop a (take (length l - k) l).
Proof.
  intros Ha Hk. unfold slice, clip, len.
  replace (Z.of_nat a <? 0) with false by (symmetry; apply Z.ltb_ge; lia).
  replace (Z.of_nat (length l) - Z.of_nat k <? 0) with false
    by (symmetry; apply Z.ltb_ge; lia).
  f_equal; [lia|f_equal; lia].
Qed.

(** The loops always finish and never raise: [j] equal lines are removed
    from the front and [k] from behind. *)
Lemma strip_equal_lines_run cstart lt ct ppos_line pos_line :
  ∃ j k : nat,
    strip_equal_lines cstart lt ct (Done ppos_line) pos_line = Done (stripped cstart lt ct j k)
    ∧ trailing_ok cstart lt ct ppos_line pos_line k
    ∧ leading_ok cstart lt ct ppos_line pos_line j k.
Proof.
  unfold strip_equal_lines.
  assert (trailing_ok cstart lt ct ppos_line pos_line 0) as H0.
  { split_and!; [lia..| |lia]. rewrite !Nat.sub_0_r, !drop_all. done. }
  assert ({| lt_span := (0, len lt); ct_span := (0, len ct); initial_line := cstart |}
          = stripped cstart lt ct 0 0) as ->.
  { unfold stripped. f_equal; [f_equal; lia..|lia]. }
  destruct (decide (lt = [])) as [El|El]; [|destruct (decide (ct = [])) as [Ec|Ec]].
  - rewrite (bool_decide_eq_true_2 _ El). cbn [negb andb].
    exists 0%nat, 0%nat. split_and!; [done..|].
    split_and!; [lia..|done|lia].
  - rewrite (bool_decide_eq_true_2 _ Ec), andb_false_r.
    exists 0%nat, 0%nat. split_and!; [done..|].
    split_and!; [lia..|done|lia].
  - rewrite (bool_decide_eq_false_2 _ El), (bool_decide_eq_false_2 _ Ec). cbn [negb andb].
    destruct (strip_trailing_run cstart lt ct ppos_line pos_line El Ec (S (length lt)) 0 H0)
      as (k & -> & Hk); [lia|]. cbn [mbind Run_bind].
    assert (leading_ok cstart lt ct ppos_line pos_line 0 k) as Hl0.
    { destruct Hk as (? & ? & _). split_and!; [lia..|done|lia]. }
    destruct (strip_leading_run cstart lt ct ppos_line pos_line (S (length lt)) 0 k Hl0)
      as (j & -> & Hj); [lia|].
    by exists j, k.
Qed.

(** C1, as the code has it: after [k] equal lines were removed from
    behind and [j] from the front, the window handed to the guess/diff
    step starts one line before the first kept line (when [j > 0]) and
    ends exactly where the removal from behind stopped. *)
Theorem trim_window_widens_front_only cstart lt ct ppos_line pos_line :
  ∃ j k : nat,
    (j + k ≤ length lt)%nat ∧ (j + k ≤ length ct)%nat
    ∧ take j lt = take j ct
    ∧ drop (length lt - k) lt = drop (length ct - k) ct
    ∧ ((0 < k)%nat → ppos_line < cstart + len lt - Z.of_nat k
                      ∧ pos_line < cstart + len ct - Z.of_nat k)
    ∧ ((0 < j)%nat → cstart + Z.of_nat j - 1 ≤ ppos_line
                      ∧ cstart + Z.of_nat j - 1 ≤ pos_line)
    ∧ strip_equal_lines cstart lt ct (Done ppos_line) pos_line
      = Done {| lt_span := (Z.of_nat j, len lt - Z.of_nat k);
                ct_span := (Z.of_nat j, len ct - Z.of_nat k);
                initial_line := cstart + Z.of_nat j |}
    ∧ trim_window cstart lt ct (Done ppos_line) pos_line
      = Done (cstart + Z.of_nat (j - 1),
              drop (j - 1) (take (length lt - k) lt),
              drop (j - 1) (take (length ct - k) ct)).
Proof.
  destruct (strip_equal_lines_run cstart lt ct ppos_line pos_line)
    as (j & k & Hrun & (Hkl & Hkc & Hdrop & ?) & (Hjl & Hjc & Htake & ?)).
  exists j, k. split_and!; [done..|].
  unfold trim_window. rewrite Hrun. cbn [mbind Run_bind].
  unfold widen, stripped. cbn [lt_span ct_span initial_line fst snd].
  replace (Z.max 0 (Z.of_nat j - 1)) with (Z.of_nat (j - 1)) by lia.
  replace (Z.max cstart (cstart + Z.of_nat j - 1)) with (cstart + Z.of_nat (j - 1)) by lia.
  rewrite !slice_nat by lia. done.
Qed.

(** C1 as stated fails behind the window: of [x; b; c] and [y; b; c] with
    both cursors on line 0, the two equal lines are removed from behind,
    and the window is [x] and [y], without [b]. *)
Lemma trim_window_not_widened_behind :
  strip_equal_lines 0 [py "x"; py "b"; py "c"] [py "y"; py "b"; py "c"] (Done 0) 0
  = Done {| lt_span := (0, 1); ct_span := (0, 1); initial_line := 0 |}
  ∧ trim_window 0 [py "x"; py "b"; py "c"] [py "y"; py "b"; py "c"] (Done 0) 0
    = Done (0, [py "x"], [py "y"])
  ∧ slice [py "x"; py "b"; py "c"] 0 (1 + 1) = [py "x"; py "b"].
Proof. vm_compute. done. Qed.

(** ** Jumping, expanding and the replay of edits *)

Lemma getitem_nat {A} (l : list A) (n : nat) : getitem l (Z.of_nat n) = l !! n.
Proof.
  unfold getitem.
  replace (Z.of_nat n <? 0) with false by (symmetry; apply Z.ltb_ge; lia).
  by rewrite Nat2Z.id.
Qed.

Lemma slice_to_from {A} (l : list A) (i : Z) : slice_to l i ++ slice_from l i = l.
Proof. apply take_drop. Qed.

Lemma slice_to_nat {A} (l : list A) (n : nat) : slice_to l (Z.of_nat n) = take n l.
Proof.
  unfold slice_to, clip, len.
  replace (Z.of_nat n <? 0) with false by (symmetry; apply Z.ltb_ge; lia).
  destruct (decide (n ≤ length l)%nat).
  - f_equal. lia.
  - rewrite !take_ge; [done|lia|lia].
Qed.

Lemma slice_from_nat {A} (l : list A) (n : nat) : slice_from l (Z.of_nat n) = drop n l.
Proof.
  unfold slice_from, clip, len.
  replace (Z.of_nat n <? 0) with false by (symmetry; apply Z.ltb_ge; lia).
  destruct (decide (n ≤ length l)%nat).
  - f_equal. lia.
  - rewrite !drop_ge; [done|lia|lia].
Qed.

Lemma split_lines_one cur text :
  newline ∉ text → split_lines cur text = [rev cur ++ text].
Proof.
  revert cur. induction text as [|c text IH]; intros cur Hnl; cbn.
  - by rewrite app_nil_r.
  - apply not_elem_of_cons in Hnl as [Hc Hnl].
    rewrite bool_decide_eq_false_2 by done.
    rewrite IH by done. cbn. by rewrite <-app_assoc.
Qed.

Lemma match_trailing_space_Some s g :
  match_trailing_space s = Some g
  → g = rstrip_by re_isspace s ∧ g ≠ s ∧ newline ∉ g.
Proof.
  unfold match_trailing_space.
  repeat case_bool_decide; cbn; intros [= <-]; done.
Qed.

(** Replacing a whole line by a text without a newline. *)
Lemma text_to_vim_line v n (l g : str) :
  buf v !! n = Some l → newline ∉ g →
  buf (text_to_vim {| line := Z.of_nat n; col := 0 |}
                   {| line := Z.of_nat n; col := len l |} g v)
  = <[n := g]> (buf v).
Proof.
  intros Hl Hg. unfold text_to_vim. cbn [buf set_cursor set_buf line col].
  rewrite getitem_nat, Hl. cbn [default from_option id].
  rewrite slice_to_0. unfold len at 1. rewrite slice_from_nat, drop_all, app_nil_r.
  cbn [app]. rewrite (split_lines_one [] g Hg). cbn [rev app].
  rewrite slice_to_nat.
  replace (Z.of_nat n + 1) with (Z.of_nat (S n)) by lia.
  rewrite slice_from_nat. symmetry. apply insert_take_drop.
  by apply lookup_lt_Some in Hl.
Qed.

Section Jump.
Context {Inst : Type}.
Variable inst_snippet : Inst → Snippet.
Variable select_next_tab : bool → Inst → option Tab * Inst.

Local Abbreviation _jump := (_jump inst_snippet select_next_tab).

(** What the [s] branch does to the buffer. *)
Lemma trim_before_cursor_buf cs v n (l before after : str) :
  line (cursor v) = Z.of_nat n → buf v !! n = Some l →
  current_line_splitted v = (before, after) →
  buf (trim_before_cursor inst_snippet cs v)
  = if has_option (inst_snippet cs) "s" && bool_decide (after = [])
    then match match_trailing_space before with
         | Some g => <[n := g]> (buf v)
         | None => buf v
         end
    else buf v.
Proof.
  intros Hn Hl Hsplit. unfold trim_before_cursor. rewrite Hsplit.
  destruct (has_option _ _); [|done]. cbn [andb].
  case_bool_decide as Ea; [subst after|done].
  destruct (match_trailing_space before) as [g|] eqn:Eg; [|done].
  apply match_trailing_space_Some in Eg as (_ & _ & Hg).
  assert (before = l) as ->.
  { unfold current_line_splitted in Hsplit. rewrite Hn, getitem_nat, Hl in Hsplit.
    cbn [default from_option id] in Hsplit.
    pose proof (slice_to_from l (col (cursor v))) as Happ.
    injection Hsplit as H1 H2. rewrite H1, H2, app_nil_r in Happ. done. }
  rewrite Hn. change (len l + len []) with (len l + 0). rewrite Z.add_0_r.
  by apply text_to_vim_line.
Qed.

(** C3, as the code has it: whenever a jump selects a tabstop of an
    instance, first or not, the cursor line loses its trailing whitespace
    if the definition has [s], nothing follows the cursor and
    [(.*?)\s+$] matches the text before it; otherwise the jump leaves the
    text of the buffer as it is. *)
Theorem jump_trims_on_every_jump backwards (m : SnippetManager Inst) v
    below cs cs' tab n (l before after : str) :
  _csnippets m = below ++ [cs] →
  select_next_tab backwards cs = (Some tab, cs') →
  line (cursor v) = Z.of_nat n → buf v !! n = Some l →
  current_line_splitted v = (before, after) →
  (_jump backwards m v).2 = true
  ∧ buf (_jump backwards m v).1.2
    = if has_option (inst_snippet cs') "s" && bool_decide (after = [])
      then match match_trailing_space before with
           | Some g => <[n := g]> (buf v)
           | None => buf v
           end
      else buf v.
Proof.
  intros Hstack Hsel Hn Hl Hsplit. unfold Manager._jump.
  rewrite Hstack, length_app. cbn [length]. rewrite Nat.add_1_r.
  cbn [_jump_rounds]. unfold _cs. rewrite Hstack, last_snoc, Hsel.
  cbn [fst snd]. split; [done|].
  cbn [select set_cursor buf].
  by apply trim_before_cursor_buf with l.
Qed.

End Jump.

(** *** A run of two jumps *)

(** C3 as stated fails on the second jump of an instance: the first jump
    leaves ["ab "] alone (the text follows the cursor) and puts the cursor
    behind it; the second jump cuts the line to ["ab"]. *)
Lemma jump_trims_on_second_jump :
  has_option (li_snippet inst_s) "s" = true
  ∧ first_jump.2 = true ∧ buf first_jump.1.2 = [py "ab "]
  ∧ current_line_splitted first_jump.1.2 = (py "ab ", [])
  ∧ second_jump.2 = true ∧ buf second_jump.1.2 = [py "ab"].
Proof. vm_compute. done. Qed.

Lemma jump_trims_on_every_jump_witness :
  _csnippets first_jump.1.1 = [] ++ [li_set_tabs [tab_at 2 0; tab_at 0 3] inst_s]
  ∧ (second_jump.2 = true
     ∧ buf second_jump.1.2
       = if has_option (li_snippet (li_set_tabs [tab_at 0 3] inst_s)) "s"
            && bool_decide (@nil ascii = [])
         then match match_trailing_space (py "ab ") with
              | Some g => <[0%nat := g]> (buf first_jump.1.2)
              | None => buf first_jump.1.2
              end
         else buf first_jump.1.2).
Proof.
  split; [reflexivity|].
  apply (jump_trims_on_every_jump li_snippet li_select_next_tab false
           first_jump.1.1 first_jump.1.2 []
           (li_set_tabs [tab_at 2 0; tab_at 0 3] inst_s)
           (li_set_tabs [tab_at 0 3] inst_s) (tab_at 2 0) 0%nat
           (py "ab ") (py "ab ") []); reflexivity.
Defined.

Section Expand.
Context {Inst Parent : Type}.
Variable inst_snippet : Inst → Snippet.
Variable inst_start inst_end : Inst → Position.
Variable select_next_tab : bool → Inst → option Tab * Inst.
Variable find_parent_for_new_to : Position → Inst → Parent.
Variable new_SnippetInstance :
  Snippet → option Parent → str → str → Position → Position →
  VisualContentPreserver → option MatchObject → Vim.State → Inst * Vim.State.
Variable ntabs_to_proper_indent : nat → str.

Local Abbreviation _jump := (_jump inst_snippet select_next_tab).
Local Abbreviation launch := (launch new_SnippetInstance ntabs_to_proper_indent).
Local Abbreviation _do_snippet :=
  (_do_snippet inst_snippet inst_start inst_end select_next_tab
     find_parent_for_new_to new_SnippetInstance ntabs_to_proper_indent).

(** A jump does not touch the preserved selection. *)
Lemma jump_rounds_visual_content rounds backwards (m : SnippetManager Inst) v :
  _visual_content (_jump_rounds inst_snippet select_next_tab rounds backwards m v).1.1
  = _visual_content m.
Proof.
  revert m v. induction rounds as [|rounds IH]; intros m v; cbn [_jump_rounds].
  - destruct (_cs m) as [cs|]; [|done].
    destruct (select_next_tab backwards cs) as [[tab|] cs']; [|done].
    cbn. by destruct (no tab =? 0).
  - destruct (_cs m) as [cs|]; [|done].
    destruct (select_next_tab backwards cs) as [[tab|] cs'].
    + cbn. by destruct (no tab =? 0).
    + specialize (IH (_current_snippet_is_done
                        (set_ctab None (set_csnippets (removelast (_csnippets m) ++ [cs']) m))) v).
      destruct (_jump_rounds _ _ _ _ _ _) as [[m' v'] jumped].
      cbn in IH. by destruct jumped.
Qed.

(** C4, as the code has it: an expansion builds its instance from the
    preserved selection as it stands, and then clears it whatever the
    template refers to; the first jump starts from the cleared state. *)
Theorem do_snippet_resets_visual_content snippet before after
    (m : SnippetManager Inst) v :
  ∃ text_before parent start end_ vs,
    _do_snippet snippet before after m v
    = (_jump false
         {| _csnippets :=
              _csnippets m
              ++ [(launch snippet text_before (_visual_content m) parent start end_ v).1];
            _ctab := _ctab m; _ignore_movements := true; _vstate := vs;
            _visual_content := reset_visual |}
         (launch snippet text_before (_visual_content m) parent start end_ v).2).1
  ∧ _visual_content (_do_snippet snippet before after m v).1 = reset_visual.
Proof.
  unfold Manager._do_snippet.
  set (text_before := if negb (bool_decide (matched snippet = []))
                      then slice_to before (- len (matched snippet)) else before).
  set (start := {| line := line (cursor v); col := len text_before |}).
  set (end_ := {| line := line (cursor v); col := len before |}).
  set (parent := match _cs m with
                 | Some cs => Some (find_parent_for_new_to start cs)
                 | None => None
                 end).
  assert (match _cs m with
          | Some cs => launch snippet text_before (_visual_content m)
                         (Some (find_parent_for_new_to start cs)) start end_ v
          | None => launch snippet text_before (_visual_content m) None start end_ v
          end = launch snippet text_before (_visual_content m) parent start end_ v) as ->.
  { unfold parent. by destruct (_cs m). }
  destruct (launch snippet text_before (_visual_content m) parent start end_ v)
    as [si v1] eqn:El.
  cbn [_csnippets set_csnippets set_visual_content set_ignore_movements].
  assert (∃ to, head (_csnippets m ++ [si]) = Some to) as [to ->].
  { destruct (_csnippets m); cbn; eauto. }
  match goal with |- context [Manager._jump _ _ false ?m1 v1] => set (m1' := m1) end.
  exists text_before, parent, start, end_, (_vstate m1').
  rewrite El. cbn [fst snd].
  pose proof (jump_rounds_visual_content (length (_csnippets m1')) false m1' v1) as Hvc.
  unfold Manager._jump.
  change {| _csnippets := _csnippets m ++ [si]; _ctab := _ctab m;
            _ignore_movements := true; _vstate := _vstate m1';
            _visual_content := reset_visual |} with m1'.
  destruct (_jump_rounds _ _ _ _ _ _) as [[m' v'] jumped]. cbn in *.
  split; [done|by rewrite Hvc].
Qed.

End Expand.

(** *** An expansion that does not refer to the selection *)

(** C4 as stated fails in its second half: the template ["hello"] does
    not refer to the selection, and its expansion clears the selection
    all the same. *)
Lemma do_snippet_clears_unused_selection :
  references_visual (_v snip_hello) = false
  ∧ _visual_content manager_visual = {| vc_mode := py "v"; vc_text := py "sel" |}
  ∧ _visual_content
      (_do_snippet li_snippet li_start li_end li_select_next_tab
         (λ _ _, ()) li_new (λ n, repeat tab n)
         (set_matched (py "t") snip_hello) (py "t") [] manager_visual vim_t).1
    = {| vc_mode := []; vc_text := [] |}.
Proof. vm_compute. done. Qed.

Section Replay.
Context {Inst Cmd : Type}.
Variable guess_edit : Z → list str → list str → VimState → Run (bool * list Cmd).
Variable diff : str → str → Z → Run (list Cmd).
Variable _do_edit : Cmd → list Inst → list Inst * Run unit.

Local Abbreviation apply_edits := (apply_edits _do_edit).
Local Abbreviation replay_user_edits := (replay_user_edits _do_edit).
Local Abbreviation replay_pass := (replay_pass guess_edit diff _do_edit).
Local Abbreviation try_replay_pass := (try_replay_pass guess_edit diff _do_edit).

(** A replay that raises [IndexError] hands back the stack it was given;
    the error is that of an operation of the script. *)
Lemma replay_user_edits_IndexError cmds stack :
  (replay_user_edits cmds stack).2 = Raised IndexError →
  replay_user_edits cmds stack = (stack, Raised IndexError)
  ∧ (apply_edits cmds stack).2 = Raised IndexError.
Proof.
  unfold Manager.replay_user_edits.
  destruct (apply_edits cmds stack) as [stack' [[]|[]|]]; cbn; done.
Qed.

Lemma set_csnippets_same (m : SnippetManager Inst) :
  set_csnippets (_csnippets m) m = m.
Proof. by destruct m. Qed.

(** The state after the [try] statement is the state the body left. *)
Lemma try_replay_pass_state initial_line lt ct (m : SnippetManager Inst) :
  (try_replay_pass initial_line lt ct m).1 = (replay_pass initial_line lt ct m).1.
Proof.
  unfold Manager.try_replay_pass.
  by destruct (replay_pass initial_line lt ct m) as [m' [|[]|]].
Qed.

(** C5: an [IndexError] from [guess_edit], [diff] or the replay ends the
    [try] statement without an error, and the manager with its tabstop
    tree is as it was before the pass.  Such an error comes from
    [guess_edit], from [diff], from the lookup of [_csnippets[0]] or from
    an operation of the edit script. *)
Theorem try_replay_pass_swallows_IndexError initial_line lt ct
    (m : SnippetManager Inst) :
  (replay_pass initial_line lt ct m).2 = Raised IndexError →
  try_replay_pass initial_line lt ct m = (m, Done ())
  ∧ (guess_edit initial_line lt ct (_vstate m) = Raised IndexError
     ∨ (∃ es, guess_edit initial_line lt ct (_vstate m) = Done (false, es)
              ∧ diff (join_lines lt) (join_lines ct) initial_line = Raised IndexError)
     ∨ _csnippets m = []
     ∨ ∃ es,
         (guess_edit initial_line lt ct (_vstate m) = Done (true, es)
          ∨ ∃ es0, guess_edit initial_line lt ct (_vstate m) = Done (false, es0)
                   ∧ diff (join_lines lt) (join_lines ct) initial_line = Done es)
         ∧ (apply_edits es (_csnippets m)).2 = Raised IndexError).
Proof.
  unfold Manager.try_replay_pass, Manager.replay_pass.
  destruct (guess_edit initial_line lt ct (_vstate m)) as [[rv es]|e|] eqn:Eg;
    cbn; [|intros [= ->]; split; [done|by left]|done].
  destruct rv.
  - destruct (_csnippets m) as [|bottom above] eqn:Es;
      [intros _; split; [done|right; right; by left]|].
    intros Hr.
    assert ((replay_user_edits es (bottom :: above)).2 = Raised IndexError) as Hr'
      by (by destruct (replay_user_edits es (bottom :: above))).
    apply replay_user_edits_IndexError in Hr' as [-> Ha]. cbn.
    rewrite <-Es, set_csnippets_same. split; [done|].
    right. right. right. exists es. split; [by left|by rewrite Es].
  - destruct (diff (join_lines lt) (join_lines ct) initial_line) as [es'|e|] eqn:Ed;
      cbn; [|intros [= ->]; split; [done|right; left; by exists es]|done].
    destruct (_csnippets m) as [|bottom above] eqn:Es;
      [intros _; split; [done|right; right; by left]|].
    intros Hr.
    assert ((replay_user_edits es' (bottom :: above)).2 = Raised IndexError) as Hr'
      by (by destruct (replay_user_edits es' (bottom :: above))).
    apply replay_user_edits_IndexError in Hr' as [-> Ha]. cbn.
    rewrite <-Es, set_csnippets_same. split; [done|].
    right. right. right. exists es'. split; [right; by exists es|by rewrite Es].
Qed.

End Replay.

Section CursorMoved.
Context {Inst Cmd : Type}.
Variable inst_start inst_end : Inst → Position.
Variable guess_edit : Z → list str → list str → VimState → Run (bool * list Cmd).
Variable diff : str → str → Z → Run (list Cmd).
Variable _do_edit : Cmd → list Inst → list Inst * Run unit.
Variable update_textobjects : list Inst → Vim.State → list Inst * Vim.State.

(** In [cursor_moved] as a whole: when the window is cut without an error
    and the body of the [try] raises [IndexError], the call ends without
    an error. *)
Lemma cursor_moved_after_IndexError (m : SnippetManager Inst) v bottom above
    initial_line lt ct :
  mode v ∈ [[]; py "i"; py "n"; py "in"] → _ignore_movements m = false →
  _csnippets m = bottom :: above →
  trim_window (line (inst_start bottom))
    (_lvb (_vstate m))
    (slice (buf v) (line (inst_start bottom))
       (line (inst_end bottom) + (len (buf v) - _lvb_len (_vstate m)) + 1))
    (p ← index (_poss (remember_position (_vstate m) v)) (-2); Done (line (vp_pos p)))
    (line (cursor v))
  = Done (initial_line, lt, ct) →
  (replay_pass guess_edit diff _do_edit initial_line lt ct
     (set_vstate (remember_position (_vstate m) v) m)).2 = Raised IndexError →
  (cursor_moved inst_start inst_end guess_edit diff _do_edit update_textobjects m v).2
  = Done ().
Proof.
  intros Hmode Hign Hstack Hwin Hraised. unfold cursor_moved.
  rewrite (bool_decide_eq_true_2 _ Hmode). cbn [negb].
  cbn [_ignore_movements set_vstate _csnippets _vstate]. rewrite Hign, Hstack.
  cbn [remember_position _lvb _lvb_len]. cbn [remember_position] in Hwin.
  rewrite Hwin.
  pose proof (try_replay_pass_state guess_edit diff _do_edit initial_line lt ct
                (set_vstate (remember_position (_vstate m) v) m)) as Hst.
  unfold try_replay_pass in *.
  destruct (replay_pass guess_edit diff _do_edit initial_line lt ct _) as [m' r].
  cbn in Hraised. subst r. cbn.
  destruct (_csnippets (_check_if_still_inside_snippet _ _ _ _ _)); [done|].
  destruct (update_textobjects _ _) as [[|to stack] v']; done.
Qed.

End CursorMoved.

(** *** A replay that fails at its second operation *)

(** The first operation of the script moves the end of tabstop 1 from
    column 2 to 3 and stop 0 from 9 to 10; the second one resolves to no
    tabstop.  The pass is discarded: the tree after the [try] statement
    is the tree before it. *)
Example replay_pass_discarded :
  li_tabs <$> (apply_edits li_do_edit two_ops (_csnippets manager_two_tabs)).1
  = [[ {| no := 1; tab_start := {| line := 0; col := 0 |};
          tab_end := {| line := 0; col := 3 |} |};
       {| no := 0; tab_start := {| line := 0; col := 10 |};
          tab_end := {| line := 0; col := 10 |} |} ]]
  ∧ (apply_edits li_do_edit two_ops (_csnippets manager_two_tabs)).2 = Raised IndexError
  ∧ try_replay_pass guess_two_ops no_diff li_do_edit 0 [py "ab"] [py "axb"]
      manager_two_tabs
    = (manager_two_tabs, Done ()).
Proof. vm_compute. done. Qed.

Lemma try_replay_pass_swallows_IndexError_witness :
  (replay_pass guess_two_ops no_diff li_do_edit 0 [py "ab"] [py "axb"] manager_two_tabs).2
  = Raised IndexError
  ∧ try_replay_pass guess_two_ops no_diff li_do_edit 0 [py "ab"] [py "axb"]
      manager_two_tabs
    = (manager_two_tabs, Done ()).
Proof.
  split; [reflexivity|].
  apply (try_replay_pass_swallows_IndexError guess_two_ops no_diff li_do_edit
           0 [py "ab"] [py "axb"] manager_two_tabs). reflexivity.
Defined.
(** ** Trigger matching: what a match leaves behind *)

Section MatchOutcome.
Variable re_finditer : str → str → list MatchObject.

Local Abbreviation matches := (matches re_finditer).
Local Abbreviation could_match := (could_match re_finditer).

(** The [b] check either keeps the result and the object, or fails. *)
Lemma boundary_check_truthy self before v :
  truthy (boundary_check self before v).1 = true →
  boundary_check self before v = (v, self).
Proof.
  unfold boundary_check. destruct (has_option self "b" && truthy v); [|done].
  by destruct (negb _).
Qed.

Lemma boundary_check_falsy self before v :
  truthy v = false → boundary_check self before v = (v, self).
Proof. unfold boundary_check. intros ->. by rewrite andb_false_r. Qed.

Lemma boundary_check_matched self before v :
  truthy (boundary_check self before v).1 = false →
  _matched (boundary_check self before v).2 = [] ∨ truthy v = false.
Proof.
  unfold boundary_check. destruct (has_option self "b" && truthy v).
  - destruct (negb _); cbn; [by left|by right].
  - cbn. by right.
Qed.

(** A strategy that fails leaves [_matched] empty. *)
Lemma matches_base_falsy self before words :
  truthy (matches_base re_finditer (set_matched [] self) before words).1 = false →
  (matches_base re_finditer (set_matched [] self) before words).2 = set_matched [] self.
Proof.
  unfold matches_base. autorewrite with snippet.
  destruct (has_option self "r").
  { unfold _re_match. rewrite _re_match_loop_find.
    by destruct (List.find _ _). }
  repeat case_match; done.
Qed.

(** X1: without [r], a successful [matches] leaves the trigger text in
    [_matched], and the text before the cursor ends with it; cutting
    [len(matched)] characters off the end, as [_do_snippet] does, removes
    exactly the trigger. *)
Theorem matches_cuts_trigger self before :
  has_option self "r" = false →
  truthy (matches self before).1 = true →
  _matched (matches self before).2 = _t self
  ∧ _t self `suffix_of` before
  ∧ (_t self ≠ [] → slice_to before (- len (_t self)) ++ _t self = before).
Proof.
  intros Hr. rewrite matches_no_regex by done.
  destruct (decide (rstrip before = before)) as [Hs|Hs];
    [rewrite (bool_decide_eq_true_2 _ Hs)|by rewrite (bool_decide_eq_false_2 _ Hs)].
  cbn [negb]. cbn zeta.
  destruct (truthy (matches_base _ _ _ _).1) eqn:Hbase; [|cbn [fst]; congruence].
  intros Hv. rewrite (boundary_check_truthy _ _ _ Hv). cbn [snd].
  pose proof (matches_base_suffix re_finditer self before Hr Hs Hbase) as Hsuf.
  split; [done|]. split; [done|].
  intros Ht. destruct Hsuf as [p ->].
  destruct (slice_app_neg p (_t self) Ht) as [-> _]. done.
Qed.

(** X2: whatever the options, a [matches] that fails leaves [_matched]
    empty. *)
Theorem matches_failure_clears_matched self before :
  truthy (matches self before).1 = false →
  _matched (matches self before).2 = [].
Proof.
  rewrite matches_unfold.
  destruct (negb (bool_decide (rstrip before = before))); [done|].
  pose proof (matches_base_falsy self before (_words_for_line self before None)) as Hf.
  destruct (matches_base _ _ _ _) as [v s1]. cbn [fst snd] in Hf.
  intros Hv. destruct (boundary_check_matched _ _ _ Hv) as [H|H]; [done|].
  rewrite boundary_check_falsy by done. cbn [snd].
  rewrite H. cbn [andb]. by rewrite (Hf H).
Qed.

(** [could_match] on a text that does not end in whitespace. *)
Lemma could_match_unfold self before :
  rstrip before = before →
  could_match self before =
    let '(v, s1) := could_match_base re_finditer (set_matched [] self) before
                      (_words_for_line self before None) in
    boundary_check
      (if truthy v && bool_decide (_matched s1 = [])
       then set_matched (_words_for_line self before None) s1 else s1)
      before v.
Proof.
  intros Hs. unfold Matcher.could_match.
  assert (match last before with
          | Some c => if isblank c then [] else before
          | None => before
          end = before) as ->.
  { destruct (last before) as [c|] eqn:Hl; [|done].
    destruct (isblank c) eqn:Hc; [|done].
    exfalso. eapply rstrip_after_space; [done| |done]. by apply isblank_isspace. }
  rewrite whitespace_guard, (bool_decide_eq_true_2 _ Hs). cbn [negb].
  by autorewrite with snippet.
Qed.

(** X3: without [w] and [i] (and not [r] together with [b]), a text on
    which [matches] succeeds is also accepted by [could_match], with the
    same return value. *)
Theorem matches_could_match self before :
  has_option self "w" = false → has_option self "i" = false →
  has_option self "r" && has_option self "b" = false →
  truthy (matches self before).1 = true →
  (could_match self before).1 = (matches self before).1.
Proof.
  intros Hw Hi Hrb Hv.
  assert (rstrip before = before) as Hs.
  { revert Hv. rewrite matches_unfold. case_bool_decide; [done|]. by cbn. }
  rewrite could_match_unfold by done. revert Hv. rewrite matches_unfold.
  rewrite (bool_decide_eq_true_2 _ Hs). cbn [negb].
  unfold matches_base, could_match_base. autorewrite with snippet.
  rewrite Hw, Hi.
  destruct (has_option self "r") eqn:Hr.
  - cbn [andb] in Hrb.
    destruct (_re_match _ _ _) as [v s1] eqn:Ere.
    assert (has_option s1 "b" = false) as Hb1.
    { rewrite (has_option_opts s1 self); [done|].
      change s1 with (v, s1).2. rewrite <-Ere. unfold _re_match.
      by rewrite re_match_loop_opts. }
    unfold boundary_check.
    destruct (truthy v && bool_decide (_matched s1 = [])); autorewrite with snippet;
      rewrite Hb1; done.
  - set (words := _words_for_line self before None).
    cbn [truthy]. autorewrite with snippet.
    rewrite (bool_decide_eq_true_2 (@nil ascii = [])) by done.
    rewrite !andb_true_r.
    case_bool_decide as Ew; [|by rewrite boundary_check_falsy].
    unfold startswith. rewrite bool_decide_eq_true_2 by (by rewrite Ew).
    autorewrite with snippet. by rewrite Ew.
Qed.

(** X4: without [r], a text accepted by [could_match] leaves in
    [_matched] a beginning of the trigger. *)
Theorem could_match_matched_prefix self before :
  has_option self "r" = false →
  truthy (could_match self before).1 = true →
  _matched (could_match self before).2 `prefix_of` _t self.
Proof.
  intros Hr. unfold Matcher.could_match.
  generalize (match last before with
              | Some c => if isblank c then [] else before
              | None => before
              end).
  intros trigger. destruct (negb _ && negb _); [done|].
  autorewrite with snippet.
  set (words := _words_for_line self trigger None).
  unfold could_match_base. autorewrite with snippet. rewrite Hr.
  assert (∀ s : Snippet, (if has_option self "i"
            then (PyBool (startswith (_t self) words), s)
            else (PyBool (startswith (_t self) words), s))
          = (PyBool (startswith (_t self) words), s)) as Hii
    by (intros; by destruct (has_option self "i")).
  destruct (has_option self "w").
  - destruct (negb (bool_decide (sub_word_suffix words = words))) eqn:Esuf.
    { cbn [truthy andb]. by rewrite boundary_check_falsy. }
    apply negb_false_iff, bool_decide_eq_true in Esuf.
    cbn [truthy]. destruct (startswith (_t self) (sub_word_suffix words)) eqn:Esw;
      [|by rewrite boundary_check_falsy].
    cbn [andb]. intros Hv. rewrite (boundary_check_truthy _ _ _ Hv). cbn [snd].
    apply bool_decide_eq_true in Esw.
    case_bool_decide; autorewrite with snippet; [by rewrite <-Esuf|done].
  - rewrite Hii. cbn [truthy].
    destruct (startswith (_t self) words) eqn:Esw; [|by rewrite boundary_check_falsy].
    cbn [andb]. autorewrite with snippet.
    rewrite (bool_decide_eq_true_2 (@nil ascii = [])) by done.
    intros Hv. rewrite (boundary_check_truthy _ _ _ Hv). cbn [snd].
    autorewrite with snippet. by apply bool_decide_eq_true in Esw.
Qed.


End MatchOutcome.
(** ** The trailing run of words: [Snippet._words_for_line] *)

Section Words.

Local Abbreviation is_space := (λ c : ascii, isspace c = true).
Local Abbreviation no_space := (λ c : ascii, isspace c = false).

Lemma split_cons c s :
  split (c :: s) =
    if isspace c then split s
    else match s with
         | [] => [[c]]
         | c' :: _ =>
             if isspace c' then [c] :: split s
             else match split s with
                  | w :: ws => (c :: w) :: ws
                  | [] => [[c]]
                  end
         end.
Proof. done. Qed.

Lemma split_nil_iff s : split s = [] ↔ Forall is_space s.
Proof.
  induction s as [|c s IH]; [done|]. rewrite split_cons.
  destruct (isspace c) eqn:Ec.
  - rewrite IH. split; [by constructor|by intros [? ?]%Forall_cons].
  - split.
    + destruct s as [|c' s]; [done|]. destruct (isspace c'); [done|].
      by destruct (split (c' :: s)).
    + intros [? ?]%Forall_cons. congruence.
Qed.

(** Two texts whose words do not run into each other. *)
Lemma split_app a b :
  (∀ c1 c2, last a = Some c1 → head b = Some c2 →
            isspace c1 = true ∨ isspace c2 = true) →
  split (a ++ b) = split a ++ split b.
Proof.
  induction a as [|c a IH]; [done|]. intros Hsep.
  assert (split (a ++ b) = split a ++ split b) as IH'.
  { apply IH. intros c1 c2 H1 H2. apply Hsep; [|done].
    destruct a; [done|]. done. }
  clear IH. change ((c :: a) ++ b) with (c :: (a ++ b)).
  rewrite (split_cons c (a ++ b)), (split_cons c a).
  destruct (isspace c) eqn:Ec; [done|].
  destruct a as [|c2 a].
  - cbn [app]. destruct b as [|c' b]; [done|].
    destruct (Hsep c c') as [H|H]; [done..|congruence|]. by rewrite H.
  - change ((c2 :: a) ++ b) with (c2 :: (a ++ b)) in *.
    lazy beta iota. destruct (isspace c2) eqn:Ec2; [by rewrite IH'|].
    rewrite IH'. destruct (split (c2 :: a)) as [|w ws] eqn:Es; [|done].
    apply split_nil_iff, Forall_cons in Es as [? _]. congruence.
Qed.

Lemma split_word w : w ≠ [] → Forall no_space w → split w = [w].
Proof.
  induction w as [|c w IH]; [done|]. intros _ [Hc Hw]%Forall_cons.
  rewrite split_cons, Hc. destruct w as [|c2 w]; [done|].
  rewrite IH by done. by apply Forall_cons in Hw as [-> _].
Qed.

Lemma split_app_space_l sp s : Forall is_space sp → split (sp ++ s) = split s.
Proof.
  intros Hsp. rewrite split_app.
  - by apply split_nil_iff in Hsp as ->.
  - intros c1 c2 H1 _. left. apply last_Some_elem_of in H1.
    by eapply Forall_forall in Hsp.
Qed.

Lemma split_app_space_r s sp : Forall is_space sp → split (s ++ sp) = split s.
Proof.
  intros Hsp. rewrite split_app.
  - apply split_nil_iff in Hsp as ->. by rewrite app_nil_r.
  - intros c1 c2 _ H2. right. destruct sp; [done|]. injection H2 as ->.
    by apply Forall_cons in Hsp as [? _].
Qed.

Context (p : ascii → bool).

Lemma lstrip_by_split s :
  ∃ sp, s = sp ++ lstrip_by p s ∧ Forall (λ c, p c = true) sp.
Proof.
  induction s as [|c s (sp & IH & Hsp)]; [by exists []|]. cbn.
  destruct (p c) eqn:Ec; [|by exists []].
  exists (c :: sp). split; [by rewrite IH at 1|by constructor].
Qed.

Lemma lstrip_by_head s c : head (lstrip_by p s) = Some c → p c = false.
Proof.
  induction s as [|a s IH]; [done|]. cbn. destruct (p a) eqn:Ea; [done|].
  cbn. by intros [= <-].
Qed.

Lemma rstrip_by_split s :
  ∃ sp, s = rstrip_by p s ++ sp ∧ Forall (λ c, p c = true) sp.
Proof.
  unfold rstrip_by. destruct (lstrip_by_split (rev s)) as (sp & Hs & Hsp).
  exists (rev sp). split; [|by apply Forall_rev].
  rewrite <-rev_app_distr, <-Hs. by rewrite rev_involutive.
Qed.

Lemma rstrip_by_last s c : last (rstrip_by p s) = Some c → p c = false.
Proof.
  unfold rstrip_by.
  assert (∀ l : str, last (rev l) = head l) as ->; [|apply lstrip_by_head].
  intros [|a l]; [done|]. cbn. apply last_snoc.
Qed.

Lemma lstrip_by_id s : (∀ c, head s = Some c → p c = false) → lstrip_by p s = s.
Proof. destruct s as [|c s]; [done|]. intros H. cbn. by rewrite (H c). Qed.

End Words.

(** [split()] does not see the whitespace that [strip()] removes. *)
Lemma split_strip s : split (strip s) = split s.
Proof.
  unfold strip, strip_by.
  destruct (lstrip_by_split isspace s) as (sp1 & Hs1 & Hsp1).
  destruct (rstrip_by_split isspace (lstrip_by isspace s)) as (sp2 & Hs2 & Hsp2).
  rewrite Hs1 at 2. rewrite split_app_space_l by done.
  rewrite Hs2 at 2. by rewrite split_app_space_r.
Qed.

(** A text with a word ends in its last word and whitespace. *)
Lemma split_last_word s :
  split s ≠ [] →
  ∃ s0 w sp, s = s0 ++ w ++ sp
    ∧ Forall (λ c, isspace c = true) sp
    ∧ w ≠ [] ∧ Forall (λ c, isspace c = false) w
    ∧ (∀ c, last s0 = Some c → isspace c = true)
    ∧ split s = split s0 ++ [w].
Proof.
  induction s as [|c s IH] using rev_ind; [done|]. intros Hne.
  destruct (isspace c) eqn:Ec.
  - assert (split (s ++ [c]) = split s) as Hsp.
    { apply split_app_space_r. by repeat constructor. }
    rewrite Hsp in Hne. destruct (IH Hne) as (s0 & w & sp & -> & Hsp' & Hw & Hw' & H0 & Hs).
    exists s0, w, (sp ++ [c]). rewrite Hsp, Hs, <-!app_assoc.
    split_and!; try done. apply Forall_app. by repeat constructor.
  - destruct (last s) as [c'|] eqn:Hl.
    + destruct (isspace c') eqn:Ec'.
      * exists s, [c], []. split_and!; try done.
        -- by repeat constructor.
        -- intros c1. rewrite Hl. by intros [= <-].
        -- rewrite split_app.
           ++ by rewrite (split_word [c]) by (done || by repeat constructor).
           ++ intros c1 c2. rewrite Hl. intros [= <-] _. by left.
      * assert (split s ≠ []) as Hne'.
        { intros Hnil%split_nil_iff. apply last_Some_elem_of in Hl.
          eapply Forall_forall in Hnil; [|done]. cbn in Hnil. congruence. }
        destruct (IH Hne') as (s0 & w & sp & -> & Hsp' & Hw & Hw' & H0 & Hs).
        assert (sp = []) as ->.
        { destruct sp as [|a sp] using rev_ind; [done|]. exfalso.
          rewrite !app_assoc, last_snoc in Hl. injection Hl as ->.
          apply Forall_app in Hsp' as [_ [? _]%Forall_cons]. congruence. }
        rewrite app_nil_r in *.
        exists s0, (w ++ [c]), []. rewrite app_nil_r, <-app_assoc.
        split_and!; try done.
        -- by destruct w.
        -- apply Forall_app. by repeat constructor.
        -- rewrite split_app.
           ++ rewrite (split_word (w ++ [c])); [done|by destruct w|].
              apply Forall_app. by repeat constructor.
           ++ intros c1 c2 H1 _. left. by apply H0.
    + apply last_None in Hl as ->. exists [], [c], [].
      split_and!; try done. by repeat constructor.
      cbn. by rewrite Ec.
Qed.

(** [rfind]: nothing found, and the highest place found. *)
Lemma rfind_from_none (sub s : str) i :
  sub ≠ [] → (∀ k, ¬ sub `prefix_of` drop k s) → rfind_from sub s i = -1.
Proof.
  intros Hsub. revert i. induction s as [|c s IH]; intros i Hno; cbn.
  - by rewrite bool_decide_eq_false_2.
  - rewrite IH by (intros k; apply (Hno (S k))). cbn.
    rewrite bool_decide_eq_false_2; [done|]. apply (Hno 0%nat).
Qed.

Lemma rfind_from_at (sub s : str) i n :
  sub ≠ [] → 0 ≤ i → sub `prefix_of` drop n s →
  (∀ k, (n < k)%nat → ¬ sub `prefix_of` drop k s) →
  rfind_from sub s i = i + Z.of_nat n.
Proof.
  intros Hsub. revert i n. induction s as [|c s IH]; intros i n Hi Hat Hno.
  - rewrite drop_nil in Hat. by apply prefix_nil_inv in Hat.
  - cbn [rfind_from]. destruct n as [|n].
    + rewrite rfind_from_none; [|done|].
      * cbn. rewrite bool_decide_eq_true_2 by done. lia.
      * intros k. apply (Hno (S k)). lia.
    + rewrite (IH (i + 1) n); [|lia|done|].
      * replace (0 <=? i + 1 + Z.of_nat n) with true by (symmetry; apply Z.leb_le; lia).
        lia.
      * intros k Hk. apply (Hno (S k)). lia.
Qed.

(** The last word is found where it stands. *)
Lemma rfind_last_word (s0 w sp : str) :
  w ≠ [] → Forall (λ c, isspace c = false) w → Forall (λ c, isspace c = true) sp →
  rfind (s0 ++ w ++ sp) w = len s0.
Proof.
  intros Hw Hns Hsp. unfold rfind, len.
  rewrite (rfind_from_at w _ 0 (length s0)); [lia|done|lia| |].
  - rewrite drop_app_length. by apply prefix_app_r.
  - intros k Hk [rest Hrest].
    rewrite drop_app_ge in Hrest by lia.
    destruct w as [|c0 w0] using rev_ind; [done|]. clear IHw0.
    apply Forall_app in Hns as [_ [Hc _]%Forall_cons].
    assert (((w0 ++ [c0]) ++ rest) !! length w0 = Some c0) as Hl.
    { rewrite <-app_assoc. rewrite lookup_app_r by lia.
      by replace (length w0 - length w0)%nat with 0%nat by lia. }
    rewrite <-Hrest, lookup_drop in Hl.
    rewrite lookup_app_r in Hl by (rewrite length_app; cbn; lia).
    apply list_elem_of_lookup_2 in Hl.
    eapply Forall_forall in Hsp; [|done]. cbn in Hsp. congruence.
Qed.

Lemma slice_to_app_len {A} (l k : list A) : slice_to (l ++ k) (len l) = l.
Proof. unfold len. by rewrite slice_to_nat, take_app_length. Qed.

Lemma slice_from_app_len {A} (l k : list A) : slice_from (l ++ k) (len l) = k.
Proof. unfold len. by rewrite slice_from_nat, drop_app_length. Qed.

(** [l[-i]] for [1 <= i <= len(l)]. *)
Lemma getitem_neg {A} (l : list A) (i : nat) :
  (0 < i ≤ length l)%nat → getitem l (- Z.of_nat i) = l !! (length l - i)%nat.
Proof.
  intros Hi. unfold getitem, len.
  replace (- Z.of_nat i <? 0) with true by (symmetry; apply Z.ltb_lt; lia).
  replace (0 <=? _) with true by (symmetry; apply Z.leb_le; lia).
  f_equal. lia.
Qed.

(** The loop of [_words_for_line]: after [i] rounds [before_words] is
    [before] without its last [i] words. *)
Lemma words_loop before n : ∀ i bw rest,
  before = bw ++ rest →
  split bw = take (length (split before) - i) (split before) →
  split rest = drop (length (split before) - i) (split before) →
  (rest = [] ∨ ∀ c, last bw = Some c → isspace c = true) →
  (∀ c, head rest = Some c → isspace c = false) →
  (i + n ≤ length (split before))%nat →
  ∃ rest',
    before
    = foldl (λ before_words i,
               let left := rfind before_words
                             (default [] (getitem (split before) (- Z.of_nat i))) in
               slice_to before_words left)
            bw (seq (S i) n) ++ rest'
    ∧ split rest' = drop (length (split before) - (i + n)) (split before)
    ∧ (∀ c, head rest' = Some c → isspace c = false).
Proof.
  set (wl := split before).
  induction n as [|n IH]; intros i bw rest Hb Hbw Hrest Hsep Hhead Hi.
  { exists rest. by rewrite Nat.add_0_r. }
  cbn [seq foldl].
  assert (split bw ≠ []) as Hne.
  { intros Hnil. apply (f_equal length) in Hbw. rewrite Hnil, length_take in Hbw.
    cbn in Hbw. lia. }
  destruct (split_last_word bw Hne) as (s0 & w & sp & -> & Hsp & Hw & Hns & H0 & Hs).
  assert (length (split s0) = (length wl - S i)%nat) as Hlen.
  { apply (f_equal length) in Hbw. rewrite Hs, length_app, length_take in Hbw.
    cbn in Hbw. lia. }
  assert (@lookup nat str (list str) _ (length wl - S i)%nat wl = Some w) as Hw_at.
  { rewrite <-(lookup_take_lt wl (length wl - i)) by lia.
    rewrite <-Hbw, Hs, <-Hlen. by rewrite lookup_app_r, Nat.sub_diag by lia. }
  rewrite getitem_neg by lia.
  rewrite Hw_at. cbn [default from_option id].
  cbn zeta. rewrite rfind_last_word by done. rewrite slice_to_app_len.
  destruct (IH (S i) s0 (w ++ sp ++ rest)) as (rest' & Hb' & Hrest' & Hhead').
  - by rewrite Hb, <-!app_assoc.
  - rewrite <-Hlen.
    replace (take (length (split s0)) wl)
      with (take (length (split s0)) (take (length wl - i) wl))
      by (rewrite take_take; f_equal; lia).
    by rewrite <-Hbw, Hs, take_app_length.
  - rewrite split_app.
    + rewrite split_word by done. rewrite split_app_space_l by done.
      rewrite Hrest. cbn [app]. symmetry.
      replace (length wl - i)%nat with (S (length wl - S i)) by lia.
      by apply drop_S.
    + intros c1 c2 H1 H2. destruct sp as [|a sp].
      * destruct Hsep as [->|Hsep]; [done|]. left. apply Hsep.
        rewrite app_nil_r. rewrite last_app, H1. done.
      * right. injection H2 as <-. by apply Forall_cons in Hsp as [? _].
  - by right.
  - intros c. destruct w as [|a w]; [done|]. intros [= <-].
    by apply Forall_cons in Hns as [? _].
  - lia.
  - exists rest'. split; [done|]. split; [|done].
    rewrite Hrest'. f_equal. lia.
Qed.

(** X6: [_words_for_line] "gets the final [num_words] words from
    [before]" (by default as many as the trigger has): the result is a
    piece of [before] that is followed by whitespace only, has no
    whitespace at either end, and its words are the last [num_words] words
    of [before] (all of them if there are fewer). *)
Theorem words_for_line_last_words self before num_words :
  split (_words_for_line self before num_words)
  = drop (length (split before) - default (length (split (_t self))) num_words)
         (split before)
  ∧ (∃ a b, before = a ++ _words_for_line self before num_words ++ b
            ∧ Forall (λ c, isspace c = true) b)
  ∧ (∀ c, head (_words_for_line self before num_words) = Some c → isspace c = false)
  ∧ (∀ c, last (_words_for_line self before num_words) = Some c → isspace c = false).
Proof.
  unfold _words_for_line.
  assert (match num_words with
          | Some n => n
          | None => length (split (_t self))
          end = default (length (split (_t self))) num_words) as ->
    by (by destruct num_words).
  generalize (default (length (split (_t self))) num_words). intros n.
  case_bool_decide as Hnil.
  { subst before. split_and!; try done. by exists [], []. }
  assert (∀ s, (∀ c, head (strip s) = Some c → isspace c = false)
               ∧ (∀ c, last (strip s) = Some c → isspace c = false)) as Hends.
  { intros s. split; intros c Hc.
    - unfold strip, strip_by in Hc.
      destruct (rstrip_by_split isspace (lstrip_by isspace s)) as (sp & Hs & _).
      apply (lstrip_by_head isspace s). rewrite Hs.
      by destruct (rstrip_by isspace (lstrip_by isspace s)).
    - by apply (rstrip_by_last isspace) in Hc. }
  case_bool_decide as Hle.
  - split_and!; [| |apply Hends..].
    + rewrite split_strip. replace (_ - _)%nat with 0%nat by lia. done.
    + unfold strip, strip_by.
      destruct (lstrip_by_split isspace before) as (a & Ha & _).
      destruct (rstrip_by_split isspace (lstrip_by isspace before)) as (b & Hb & Hsp).
      exists a, b. split; [|done]. by rewrite <-Hb.
  - destruct (words_loop before n 0 before []) as (rest & Hb & Hrest & Hhead).
    + by rewrite app_nil_r.
    + by rewrite Nat.sub_0_r, take_ge.
    + by rewrite Nat.sub_0_r, drop_all.
    + by left.
    + done.
    + lia.
    + revert Hb. cbn zeta.
      match goal with |- before = ?bw ++ rest → _ => generalize bw end.
      intros bw Hb.
      assert (slice_from before (len bw) = rest) as ->
        by (rewrite Hb; apply slice_from_app_len).
      split_and!; [| |apply Hends..].
      * by rewrite split_strip.
      * unfold strip, strip_by. rewrite (lstrip_by_id isspace rest Hhead).
        destruct (rstrip_by_split isspace rest) as (b & Hr & Hsp).
        exists bw, b. split; [|done]. by rewrite <-Hr.
Qed.
(** ** The stack of active snippets *)

Section JumpStack.
Context {Inst : Type}.
Variable inst_snippet : Inst → Snippet.
Variable select_next_tab : bool → Inst → option Tab * Inst.

Local Abbreviation _jump_rounds := (_jump_rounds inst_snippet select_next_tab).
Local Abbreviation _jump := (_jump inst_snippet select_next_tab).

(** An instance that has no tabstop left in the direction of the jump. *)
Local Abbreviation exhausted backwards :=
  (λ c : Inst, (select_next_tab backwards c).1 = None).

(** Instances without a tabstop are popped one after the other. *)
Lemma jump_rounds_exhausted backwards stack : ∀ rounds (m : SnippetManager Inst) v,
  _csnippets m = stack → Forall (exhausted backwards) stack →
  (length stack ≤ rounds)%nat →
  (_jump_rounds rounds backwards m v).2 = false
  ∧ (_jump_rounds rounds backwards m v).1.2 = v
  ∧ _csnippets (_jump_rounds rounds backwards m v).1.1 = []
  ∧ _vstate (_jump_rounds rounds backwards m v).1.1 = _vstate m.
Proof.
  induction stack as [|c stack IH] using rev_ind; intros rounds m v Hs Hall Hr.
  - destruct rounds; cbn [Manager._jump_rounds]; unfold _cs; rewrite Hs; done.
  - apply Forall_app in Hall as [Hall [Hc _]%Forall_cons].
    rewrite length_app in Hr. cbn in Hr. destruct rounds as [|rounds]; [lia|].
    cbn [Manager._jump_rounds]. unfold _cs. rewrite Hs, last_snoc.
    destruct (select_next_tab backwards c) as [ctab c'] eqn:Esel.
    cbn in Hc. subst ctab. rewrite removelast_last.
    set (m2 := _current_snippet_is_done _).
    destruct (IH rounds m2 v) as (H1 & H2 & H3 & H4); [|done|lia|].
    { unfold m2. cbn. apply removelast_last. }
    destruct (Manager._jump_rounds _ _ rounds backwards m2 v) as [[m3 v3] j].
    cbn in *. subst j. done.
Qed.

(** The jump happens in the topmost instance that has a tabstop left. *)
Lemma jump_rounds_skips backwards below cs cs' tab above :
  ∀ rounds (m : SnippetManager Inst) v,
  _csnippets m = below ++ cs :: above → Forall (exhausted backwards) above →
  select_next_tab backwards cs = (Some tab, cs') →
  (length above ≤ rounds)%nat →
  (_jump_rounds rounds backwards m v).2 = true
  ∧ _csnippets (_jump_rounds rounds backwards m v).1.1
    = (if no tab =? 0 then below else below ++ [cs'])
  ∧ _ctab (_jump_rounds rounds backwards m v).1.1 = Some tab
  ∧ (_jump_rounds rounds backwards m v).1.2
    = select (tab_start tab) (tab_end tab) (trim_before_cursor inst_snippet cs' v).
Proof.
  induction above as [|c above IH] using rev_ind; intros rounds m v Hs Hall Hsel Hr.
  - assert (∀ r, Manager._jump_rounds inst_snippet select_next_tab r backwards m v
                 = Manager._jump_rounds inst_snippet select_next_tab 0 backwards m v) as ->.
    { intros [|r]; cbn [Manager._jump_rounds]; unfold _cs; rewrite Hs, last_snoc, Hsel; done. }
    cbn [Manager._jump_rounds]. unfold _cs. rewrite Hs, last_snoc, Hsel.
    rewrite removelast_last. cbn [fst snd].
    destruct (no tab =? 0); cbn; [|done].
    by rewrite removelast_last.
  - apply Forall_app in Hall as [Hall [Hc _]%Forall_cons].
    rewrite length_app in Hr. cbn in Hr. destruct rounds as [|rounds]; [lia|].
    assert (below ++ cs :: above ++ [c] = (below ++ cs :: above) ++ [c]) as Hassoc
      by (by rewrite <-app_assoc).
    rewrite Hassoc in Hs.
    cbn [Manager._jump_rounds]. unfold _cs. rewrite Hs, last_snoc.
    destruct (select_next_tab backwards c) as [ctab c'] eqn:Esel.
    cbn in Hc. subst ctab. rewrite removelast_last.
    set (m2 := _current_snippet_is_done _).
    destruct (IH rounds m2 v) as (H1 & H2 & H3 & H4); [|done|done|lia|].
    { unfold m2. cbn. apply removelast_last. }
    destruct (Manager._jump_rounds _ _ rounds backwards m2 v) as [[m3 v3] j].
    cbn in *. subst j. done.
Qed.

Lemma topmost_with_tab backwards (stack : list Inst) :
  Forall (exhausted backwards) stack
  ∨ ∃ below cs above tab cs',
      stack = below ++ cs :: above ∧ Forall (exhausted backwards) above
      ∧ select_next_tab backwards cs = (Some tab, cs').
Proof.
  induction stack as [|c stack IH] using rev_ind; [by left|].
  destruct (select_next_tab backwards c) as [[tab|] c'] eqn:Esel.
  - right. exists stack, c, [], tab, c'. done.
  - destruct IH as [IH|(below & cs & above & tab & cs' & -> & Hall & Hsel)].
    + left. apply Forall_app. split; [done|]. apply Forall_singleton. by rewrite Esel.
    + right. exists below, cs, (above ++ [c]), tab, cs'.
      split_and!; [by rewrite <-app_assoc| |done].
      apply Forall_app. split; [done|]. apply Forall_singleton. by rewrite Esel.
Qed.

(** X7: [_jump] reports no jump exactly when no active instance has a
    tabstop left; then every instance was popped, and the buffer, the
    cursor and the remembered positions are as before. *)
Theorem jump_fails_iff backwards (m : SnippetManager Inst) v :
  ((_jump backwards m v).2 = false
   ↔ Forall (exhausted backwards) (_csnippets m))
  ∧ ((_jump backwards m v).2 = false →
     (_jump backwards m v).1.2 = v
     ∧ _csnippets (_jump backwards m v).1.1 = []
     ∧ _vstate (_jump backwards m v).1.1 = _vstate m).
Proof.
  unfold Manager._jump.
  destruct (topmost_with_tab backwards (_csnippets m))
    as [Hall|(below & cs & above & tab & cs' & Hs & Hall & Hsel)].
  - destruct (jump_rounds_exhausted backwards (_csnippets m)
                (length (_csnippets m)) m v) as (H1 & H2 & H3 & H4); [done..|].
    split; [by split|done].
  - destruct (jump_rounds_skips backwards below cs cs' tab above
                (length (_csnippets m)) m v) as (H1 & _); [done..| |].
    { rewrite Hs, length_app. cbn. lia. }
    rewrite H1. split; [|done]. split; [done|].
    rewrite Hs. intros [_ [Hc _]%Forall_cons]%Forall_app.
    cbn in Hc. by rewrite Hsel in Hc.
Qed.

(** X8: [_jump] jumps in the topmost instance that has a tabstop left:
    the instances above it are popped, its tabstop becomes [_ctab] and is
    selected (after the [s] trimming for that instance), and the
    instance itself is popped when the tabstop is number 0. *)
Theorem jump_skips_exhausted backwards (m : SnippetManager Inst) v
    below cs cs' tab above :
  _csnippets m = below ++ cs :: above →
  Forall (exhausted backwards) above →
  select_next_tab backwards cs = (Some tab, cs') →
  (_jump backwards m v).2 = true
  ∧ _csnippets (_jump backwards m v).1.1
    = (if no tab =? 0 then below else below ++ [cs'])
  ∧ _ctab (_jump backwards m v).1.1 = Some tab
  ∧ (_jump backwards m v).1.2
    = select (tab_start tab) (tab_end tab) (trim_before_cursor inst_snippet cs' v).
Proof.
  intros Hs Hall Hsel. unfold Manager._jump.
  apply (jump_rounds_skips backwards below cs cs' tab above); [done..|].
  rewrite Hs, length_app. cbn. lia.
Qed.

(** A jump leaves [_ignore_movements] as it is. *)
Lemma jump_rounds_ignore_movements rounds backwards (m : SnippetManager Inst) v :
  _ignore_movements (_jump_rounds rounds backwards m v).1.1 = _ignore_movements m.
Proof.
  revert m v. induction rounds as [|rounds IH]; intros m v; cbn [Manager._jump_rounds].
  - destruct (_cs m) as [cs|]; [|done].
    destruct (select_next_tab backwards cs) as [[tab|] cs']; [|done].
    cbn. by destruct (no tab =? 0).
  - destruct (_cs m) as [cs|]; [|done].
    destruct (select_next_tab backwards cs) as [[tab|] cs'].
    + cbn. by destruct (no tab =? 0).
    + specialize (IH (_current_snippet_is_done
                        (set_ctab None (set_csnippets (removelast (_csnippets m) ++ [cs']) m))) v).
      destruct (Manager._jump_rounds _ _ _ _ _ _) as [[m' v'] jumped].
      cbn in IH. by destruct jumped.
Qed.

End JumpStack.

Section Inside.
Context {Inst : Type}.
Variable inst_start inst_end : Inst → Position.

(** The cursor is within the span of an instance. *)
Local Abbreviation inside v :=
  (λ cs : Inst, pos_le (inst_start cs) (cursor v) && pos_le (cursor v) (inst_end cs)).

Lemma check_inside_rounds v kept popped : ∀ rounds (m : SnippetManager Inst),
  _csnippets m = kept ++ popped →
  Forall (λ cs, inside v cs = false) popped →
  (∀ cs, last kept = Some cs → inside v cs = true) →
  (length popped ≤ rounds)%nat →
  _check_if_still_inside_snippet inst_start inst_end rounds m v
  = if bool_decide (popped = []) then m else _reinit (set_csnippets kept m).
Proof.
  induction popped as [|c popped IH] using rev_ind; intros rounds m Hs Hout Hin Hr.
  - rewrite app_nil_r in Hs. rewrite bool_decide_eq_true_2 by done.
    assert (match _cs m with
            | Some cs => inside v cs = true
            | None => True
            end) as Htop.
    { unfold _cs. rewrite Hs. destruct (last kept) eqn:El; [by apply Hin|done]. }
    destruct rounds; cbn [_check_if_still_inside_snippet];
      destruct (_cs m); try done; by rewrite Htop.
  - apply Forall_app in Hout as [Hout [Hc _]%Forall_cons].
    rewrite length_app in Hr. cbn in Hr. destruct rounds as [|rounds]; [lia|].
    rewrite app_assoc in Hs.
    cbn [_check_if_still_inside_snippet]. unfold _cs. rewrite Hs, last_snoc, Hc.
    cbn [negb].
    rewrite (IH rounds); [|by cbn; rewrite Hs, removelast_last|done|done|lia].
    rewrite (bool_decide_eq_false_2 (popped ++ [c] = [])) by (by destruct popped).
    case_bool_decide as Hp; [|done].
    subst popped. rewrite app_nil_r in Hs. unfold _current_snippet_is_done.
    by rewrite Hs, removelast_last.
Qed.

(** X9: [_check_if_still_inside_snippet] pops the instances that the
    cursor has left, from the top down to the first one that holds the
    cursor; if any was popped, [_ctab] and [_ignore_movements] are
    reset. *)
Theorem check_inside_pops_left (m : SnippetManager Inst) v kept popped :
  _csnippets m = kept ++ popped →
  Forall (λ cs, inside v cs = false) popped →
  (∀ cs, last kept = Some cs → inside v cs = true) →
  _check_if_still_inside_snippet inst_start inst_end (length (_csnippets m)) m v
  = if bool_decide (popped = []) then m else _reinit (set_csnippets kept m).
Proof.
  intros Hs Hout Hin. apply check_inside_rounds; [done..|].
  rewrite Hs, length_app. lia.
Qed.

End Inside.
(** ** Commands *)

Section CommandProperties.
Context {Inst Parent : Type}.
Variable inst_snippet : Inst → Snippet.
Variable inst_start inst_end : Inst → Position.
Variable select_next_tab : bool → Inst → option Tab * Inst.
Variable find_parent_for_new_to : Position → Inst → Parent.
Variable new_SnippetInstance :
  Snippet → option Parent → str → str → Position → Position →
  VisualContentPreserver → option MatchObject → Vim.State → Inst * Vim.State.
Variable ntabs_to_proper_indent : nat → str.
Variable inputlist : list str → Reply.

Local Abbreviation _jump := (_jump inst_snippet select_next_tab).
Local Abbreviation _do_snippet :=
  (_do_snippet inst_snippet inst_start inst_end select_next_tab
     find_parent_for_new_to new_SnippetInstance ntabs_to_proper_indent).
Local Abbreviation _try_expand :=
  (_try_expand inst_snippet inst_start inst_end select_next_tab
     find_parent_for_new_to new_SnippetInstance ntabs_to_proper_indent inputlist).

(** The loop of [leaving_buffer] ends with an empty stack. *)
Lemma finish_all_done rounds (m : SnippetManager Inst) :
  (length (_csnippets m) ≤ rounds)%nat →
  finish_all rounds m = Done (set_csnippets [] m).
Proof.
  revert m. induction rounds as [|rounds IH]; intros m Hr.
  - destruct m as [[|c stack] ? ? ? ?]; cbn in *; [done|lia].
  - destruct m as [stack ? ? ? ?]. cbn in Hr.
    destruct stack as [|c stack] using rev_ind; [done|]. clear IHstack.
    rewrite length_app in Hr. cbn in Hr.
    cbn [finish_all _csnippets].
    destruct (stack ++ [c]) eqn:E; [by destruct stack|]. rewrite <-E.
    rewrite IH by (cbn; rewrite removelast_last; lia). done.
Qed.

(** X10: [leaving_buffer] ends every active snippet, whatever the stack
    holds, and resets [_ctab] and [_ignore_movements]; a jump after it
    finds nothing and leaves the buffer alone. *)
Theorem leaving_buffer_ends_all (m : SnippetManager Inst) backwards v :
  leaving_buffer m = Done (_reinit (set_csnippets [] m))
  ∧ _jump backwards (_reinit (set_csnippets [] m)) v
    = (_reinit (set_csnippets [] m), v, false).
Proof.
  split; [|done]. unfold leaving_buffer. by rewrite finish_all_done.
Qed.

(** An expansion leaves [_ignore_movements] set: [_do_snippet] sets it
    and the jump that ends [_do_snippet] does not clear it. *)
Lemma do_snippet_ignore_movements snippet before after (m : SnippetManager Inst) v :
  _ignore_movements (_do_snippet snippet before after m v).1 = true.
Proof.
  unfold Manager._do_snippet.
  destruct (match _cs m with Some _ => _ | None => _ end) as [si v1].
  cbn [_csnippets set_csnippets set_visual_content set_ignore_movements].
  match goal with |- context [Manager._jump _ _ false ?m1 v1] => set (m1' := m1) end.
  assert (_ignore_movements m1' = true) as Hm1.
  { unfold m1'. by destruct (head _). }
  pose proof (jump_rounds_ignore_movements inst_snippet select_next_tab
                (length (_csnippets m1')) false m1' v1) as Hj.
  unfold Manager._jump.
  destruct (_jump_rounds _ _ _ _ _ _) as [[m' v''] jumped]. cbn in *. congruence.
Qed.

(** X11: the first cursor movement after an expansion is not taken for
    an edit of the user: [_do_snippet] sets [_ignore_movements], and the
    next [cursor_moved] (in insert or normal mode) only remembers the
    position and clears the flag; the stack and the buffer stay. *)
Theorem cursor_moved_after_expansion {Cmd : Type}
    (guess_edit : Z → list str → list str → VimState → Run (bool * list Cmd))
    (diff : str → str → Z → Run (list Cmd))
    (_do_edit : Cmd → list Inst → list Inst * Run unit)
    (update_textobjects : list Inst → Vim.State → list Inst * Vim.State)
    snippet before after (m : SnippetManager Inst) v v' :
  mode v' ∈ [[]; py "i"; py "n"; py "in"] →
  cursor_moved inst_start inst_end guess_edit diff _do_edit update_textobjects
    (_do_snippet snippet before after m v).1 v'
  = (set_ignore_movements false
       (set_vstate
          (remember_position (_vstate (_do_snippet snippet before after m v).1) v')
          (_do_snippet snippet before after m v).1),
     v', Done ()).
Proof.
  intros Hmode.
  pose proof (do_snippet_ignore_movements snippet before after m v) as Hign.
  unfold cursor_moved. rewrite (bool_decide_eq_true_2 _ Hmode). cbn [negb].
  cbn [_ignore_movements set_vstate]. by rewrite Hign.
Qed.

(** X12: [_try_expand] returns [False] exactly when there is no text
    before the cursor or no snippet matches it, and then nothing has
    changed.  When the user declines the choice among several snippets,
    nothing has changed either, but the result is [True]. *)
Theorem try_expand_nothing providers filetypes (m : SnippetManager Inst) v :
  ((_try_expand providers filetypes m v).2 = Done false
   ↔ (current_line_splitted v).1 = []
     ∨ _snips providers filetypes (current_line_splitted v).1 false = [])
  ∧ ((_try_expand providers filetypes m v).2 = Done false →
     (_try_expand providers filetypes m v).1 = (m, v))
  ∧ ((1 < length (_snips providers filetypes (current_line_splitted v).1 false))%nat →
     (current_line_splitted v).1 ≠ [] →
     ask_for_users_choice inputlist
       (_snips providers filetypes (current_line_splitted v).1 false) = Done None →
     _try_expand providers filetypes m v = (m, v, Done true)).
Proof.
  unfold Commands._try_expand.
  destruct (current_line_splitted v) as [before after]. cbn [fst].
  case_bool_decide as Hb.
  { split_and!; [by split; [left|]|done|done]. }
  destruct (_snips providers filetypes before false) as [|s1 [|s2 rest]] eqn:Es.
  - split_and!; [by split; [right|]|done|cbn; lia].
  - destruct (_do_snippet s1 before after m v) as [m' v'].
    split_and!; [by split; [|intros [?|?]]|done|cbn; lia].
  - split_and!.
    + destruct (ask_for_users_choice inputlist (s1 :: s2 :: rest)) as [[s|]| |];
        [destruct (_do_snippet s before after m v)|..];
        by split; [|intros [?|?]].
    + destruct (ask_for_users_choice inputlist (s1 :: s2 :: rest)) as [[s|]| |];
        [destruct (_do_snippet s before after m v)|..]; done.
    + intros _ _ ->. done.
Qed.

End CommandProperties.

Section Wrapper.
Context {Inst R : Type}.
Variable format_exc : Exn → str.
Variable new_scratch_buffer : str → Vim.State → Vim.State.

(** X13: an exception that a decorated method raises does not leave
    [err_to_scratch_buffer]: every active snippet is ended as by
    [leaving_buffer], the trace is shown in a scratch buffer, and the
    call returns [None]. *)
Theorem err_to_scratch_buffer_ends_all (m : SnippetManager Inst) v e :
  err_to_scratch_buffer format_exc new_scratch_buffer (m, v, @Raised R e)
  = (_reinit (set_csnippets [] m),
     new_scratch_buffer (error_intro ++ format_exc e) v, Done None).
Proof.
  unfold err_to_scratch_buffer, leaving_buffer.
  by rewrite finish_all_done.
Qed.

End Wrapper.

(** ** Choosing among several snippets *)

Section ChoiceProperties.
Variable inputlist : list str → Reply.

(** X14: [ask_for_users_choice]: an answer from 1 to the number of
    entries picks that entry, and a larger one picks the last entry. *)
Theorem ask_for_users_choice_clamps snippets rv :
  inputlist (display snippets) = Number rv → 1 ≤ rv → snippets ≠ [] →
  ∃ s, ask_for_users_choice inputlist snippets = Done (Some s)
       ∧ snippets !! (Z.to_nat (Z.min rv (len snippets)) - 1)%nat = Some s.
Proof.
  intros Hrv Hpos Hne. unfold ask_for_users_choice. rewrite Hrv.
  replace (rv =? 0) with false by (symmetry; apply Z.eqb_neq; lia).
  assert (0 < len snippets) as Hlen by (destruct snippets; [done|unfold len; cbn; lia]).
  set (rv' := if len snippets <? rv then len snippets else rv).
  assert (rv' = Z.min rv (len snippets)) as Hrv'.
  { unfold rv'. destruct (Z.ltb_spec (len snippets) rv); lia. }
  assert (1 ≤ rv' ≤ len snippets) as Hbound by lia.
  unfold index, getitem.
  replace (rv' - 1 <? 0) with false by (symmetry; apply Z.ltb_ge; lia).
  replace (Z.to_nat (rv' - 1)) with (Z.to_nat (Z.min rv (len snippets)) - 1)%nat by lia.
  destruct (snippets !! _) as [s|] eqn:El; [by exists s|].
  apply lookup_ge_None in El. unfold len in *. lia.
Qed.

(** X15: the answers that pick nothing: an error of the editor, no
    reply, and 0.  A negative answer is not among them: it counts from
    the end of the list, one place further than its value. *)
Theorem ask_for_users_choice_none snippets :
  (inputlist (display snippets) ∈ [VimError; NoReply; Number 0] →
   ask_for_users_choice inputlist snippets = Done None)
  ∧ (∀ rv, inputlist (display snippets) = Number rv → rv < 0 →
     ask_for_users_choice inputlist snippets
     = s ← index snippets (rv - 1); Done (Some s)).
Proof.
  unfold ask_for_users_choice. split.
  - intros Hin. repeat (apply elem_of_cons in Hin as [->|Hin]); try done.
    by apply elem_of_nil in Hin.
  - intros rv -> Hneg.
    replace (rv =? 0) with false by (symmetry; apply Z.eqb_neq; lia).
    replace (len snippets <? rv) with false; [done|].
    symmetry. apply Z.ltb_ge. unfold len. lia.
Qed.

End ChoiceProperties.

(** ** [cursor_moved] under its wrapper *)

Section WrappedCursorMoved.
Context {Inst Cmd : Type}.
Variable inst_start inst_end : Inst → Position.
Variable guess_edit : Z → list str → list str → VimState → Run (bool * list Cmd).
Variable diff : str → str → Z → Run (list Cmd).
Variable _do_edit : Cmd → list Inst → list Inst * Run unit.
Variable update_textobjects : list Inst → Vim.State → list Inst * Vim.State.
Variable format_exc : Exn → str.
Variable new_scratch_buffer : str → Vim.State → Vim.State.

Local Abbreviation cursor_moved :=
  (cursor_moved inst_start inst_end guess_edit diff _do_edit update_textobjects).

(** X25: only [IndexError] is caught inside [cursor_moved].  Another
    exception from [guess_edit], [diff] or the replay leaves
    [cursor_moved] before the cursor is checked against the snippets;
    the wrapper then ends every active snippet, shows the trace and
    returns [None]. *)
Theorem cursor_moved_error_ends_snippets (m : SnippetManager Inst) v bottom above
    initial_line lt ct e :
  mode v ∈ [[]; py "i"; py "n"; py "in"] → _ignore_movements m = false →
  _csnippets m = bottom :: above →
  trim_window (line (inst_start bottom))
    (_lvb (_vstate m))
    (slice (buf v) (line (inst_start bottom))
       (line (inst_end bottom) + (len (buf v) - _lvb_len (_vstate m)) + 1))
    (p ← index (_poss (remember_position (_vstate m) v)) (-2); Done (line (vp_pos p)))
    (line (cursor v))
  = Done (initial_line, lt, ct) →
  (replay_pass guess_edit diff _do_edit initial_line lt ct
     (set_vstate (remember_position (_vstate m) v) m)).2 = Raised e →
  e ≠ IndexError →
  (cursor_moved m v).2 = Raised e
  ∧ (cursor_moved m v).1.2 = v
  ∧ ∃ m', err_to_scratch_buffer format_exc new_scratch_buffer (cursor_moved m v)
          = (m', new_scratch_buffer (error_intro ++ format_exc e) v, Done None)
          ∧ _csnippets m' = [] ∧ _ctab m' = None ∧ _ignore_movements m' = false.
Proof.
  intros Hmode Hign Hstack Hwin Hraised He. unfold Manager.cursor_moved.
  rewrite (bool_decide_eq_true_2 _ Hmode). cbn [negb].
  cbn [_ignore_movements set_vstate _csnippets _vstate]. rewrite Hign, Hstack.
  cbn [remember_position _lvb _lvb_len]. cbn [remember_position] in Hwin.
  rewrite Hwin. unfold try_replay_pass.
  destruct (replay_pass guess_edit diff _do_edit initial_line lt ct _) as [m' r].
  cbn in Hraised. subst r.
  destruct e; [done|]. cbn [fst snd].
  split_and!; [done..|].
  eexists. unfold err_to_scratch_buffer, leaving_buffer.
  rewrite finish_all_done by done. cbn [mbind Run_bind]. done.
Qed.

End WrappedCursorMoved.

(** ** Anonymous snippets *)

Section ExpandAnon.
Context {Inst Parent : Type}.
Variable inst_snippet : Inst → Snippet.
Variable inst_start inst_end : Inst → Position.
Variable select_next_tab : bool → Inst → option Tab * Inst.
Variable find_parent_for_new_to : Position → Inst → Parent.
Variable new_SnippetInstance :
  Snippet → option Parent → str → str → Position → Position →
  VisualContentPreserver → option MatchObject → Vim.State → Inst * Vim.State.
Variable ntabs_to_proper_indent : nat → str.
Variable re_finditer : str → str → list MatchObject.

Local Abbreviation _do_snippet :=
  (_do_snippet inst_snippet inst_start inst_end select_next_tab
     find_parent_for_new_to new_SnippetInstance ntabs_to_proper_indent).
Local Abbreviation expand_anon :=
  (expand_anon inst_snippet inst_start inst_end select_next_tab
     find_parent_for_new_to new_SnippetInstance ntabs_to_proper_indent re_finditer).

(** X26: [expand_anon] returns [False] exactly when a trigger is given
    and it does not match the text before the cursor, and then nothing
    has changed.  Without a trigger it expands whatever stands before
    the cursor, and [matches] is not asked: [_matched] stays empty, so
    nothing before the cursor is cut off.  After a [True] the next
    cursor movement is ignored. *)
Theorem expand_anon_outcome id value trigger descr options
    (m : SnippetManager Inst) v :
  ((expand_anon id value trigger descr options m v).2 = false
   ↔ trigger ≠ []
     ∧ truthy (matches re_finditer (new_Snippet id trigger value descr options)
                 (current_line_splitted v).1).1 = false)
  ∧ ((expand_anon id value trigger descr options m v).2 = false →
     (expand_anon id value trigger descr options m v).1 = (m, v))
  ∧ (trigger = [] →
     expand_anon id value trigger descr options m v
     = (_do_snippet (new_Snippet id [] value descr options)
          (current_line_splitted v).1 (current_line_splitted v).2 m v, true)
     ∧ _matched (new_Snippet id [] value descr options) = [])
  ∧ ((expand_anon id value trigger descr options m v).2 = true →
     _ignore_movements (expand_anon id value trigger descr options m v).1.1 = true).
Proof.
  unfold Commands.expand_anon.
  destruct (current_line_splitted v) as [before after]. cbn [fst snd].
  pose proof (λ snip, do_snippet_ignore_movements inst_snippet inst_start inst_end
                select_next_tab find_parent_for_new_to new_SnippetInstance
                ntabs_to_proper_indent snip before after m v) as Hign.
  case_bool_decide as Ht.
  - subst trigger. specialize (Hign (new_Snippet id [] value descr options)).
    destruct (_do_snippet _ before after m v) as [m' v']. cbn [fst snd] in *.
    split_and!; [split; [done|by intros [? _]]|done|done|done].
  - destruct (matches re_finditer _ before) as [r snip]. cbn [fst].
    specialize (Hign snip).
    destruct (truthy r).
    + destruct (_do_snippet snip before after m v) as [m' v']. cbn [fst snd] in *.
      split_and!; [split; [done|by intros [_ ?]]|done|done|done].
    + cbn [fst snd]. split_and!; done.
Qed.

End ExpandAnon.
(** ** Filetypes of a buffer *)

Lemma list_index_None x l : list_index x l = None ↔ x ∉ l.
Proof.
  induction l as [|y l IH]; cbn.
  - split; [intros _; apply not_elem_of_nil|done].
  - rewrite not_elem_of_cons. case_bool_decide as Hy.
    + split; [done|]. intros [? _]. congruence.
    + rewrite fmap_None, IH. split; [by split|by intros [_ ?]].
Qed.

Lemma list_index_Some x l i : list_index x l = Some i → x ∈ l.
Proof.
  intros Hi. destruct (decide (x ∈ l)) as [|Hn]; [done|].
  apply list_index_None in Hn. congruence.
Qed.

Lemma list_insert_perm {A} (i : Z) (x : A) (l : list A) :
  list_insert i x l ≡ₚ x :: l.
Proof.
  unfold list_insert. rewrite <-Permutation_middle. by rewrite take_drop.
Qed.

Lemma list_insert_sublist {A} (i : Z) (x : A) (l : list A) :
  l `sublist_of` list_insert i x l.
Proof.
  unfold list_insert. rewrite <-(take_drop (clip (len l) i) l) at 1.
  apply sublist_app; [done|]. by apply sublist_cons.
Qed.

(** What one round of the loop does to the list. *)
Lemma add_filetype_step_list st c :
  st.2 `sublist_of` (add_filetype_step st c).2
  ∧ (NoDup st.2 → NoDup (add_filetype_step st c).2)
  ∧ (∀ y, y ∈ (add_filetype_step st c).2 ↔ y ∈ st.2 ∨ (y = strip c ∧ strip c ≠ [])).
Proof.
  unfold add_filetype_step. cbn zeta. case_bool_decide as Hc.
  { split_and!; [done..|]. intros y. split; [by left|]. by intros [?|[_ ?]]. }
  destruct (list_index (strip c) st.2) as [i|] eqn:Ei; cbn [snd].
  - apply list_index_Some in Ei.
    split_and!; [done..|]. intros y. split; [by left|]. by intros [?|[-> _]].
  - apply list_index_None in Ei. split_and!.
    + apply list_insert_sublist.
    + intros Hnd. rewrite list_insert_perm. by apply NoDup_cons.
    + intros y. rewrite list_insert_perm, elem_of_cons. split.
      * intros [->|?]; [by right|by left].
      * intros [?|[-> _]]; [by right|by left].
Qed.

Lemma wanted_cons c cs :
  filter (λ x : str, x ≠ []) (strip <$> c :: cs)
  = if bool_decide (strip c = []) then filter (λ x : str, x ≠ []) (strip <$> cs)
    else strip c :: filter (λ x : str, x ≠ []) (strip <$> cs).
Proof.
  rewrite fmap_cons. case_bool_decide as Hc.
  - by rewrite filter_cons_False by (by intros ?).
  - by rewrite filter_cons_True.
Qed.

(** What the loop does to the list. *)
Lemma add_filetypes_list cs : ∀ st,
  st.2 `sublist_of` (foldl add_filetype_step st cs).2
  ∧ (NoDup st.2 → NoDup (foldl add_filetype_step st cs).2)
  ∧ (∀ y, y ∈ (foldl add_filetype_step st cs).2
          ↔ y ∈ st.2 ∨ y ∈ filter (λ x : str, x ≠ []) (strip <$> cs)).
Proof.
  induction cs as [|c cs IH]; intros st; cbn [foldl].
  - split_and!; [done..|]. intros y. split; [by left|].
    intros [?|Hy]; [done|]. by apply elem_of_nil in Hy.
  - destruct (IH (add_filetype_step st c)) as (Hsub & Hnd & Hel).
    destruct (add_filetype_step_list st c) as (Hsub1 & Hnd1 & Hel1).
    split_and!.
    + by etrans.
    + intros ?. by apply Hnd, Hnd1.
    + intros y. rewrite Hel, Hel1, wanted_cons.
      case_bool_decide as Hc.
      * split; [intros [[?|[_ ?]]|?]|intros [?|?]]; tauto.
      * rewrite elem_of_cons. split; [intros [[?|[? _]]|?]|intros [?|[?|?]]]; tauto.
Qed.

(** Filetypes that are all there leave the list as it is. *)
Lemma add_filetypes_present cs : ∀ st,
  (∀ y, y ∈ filter (λ x : str, x ≠ []) (strip <$> cs) → y ∈ st.2) →
  (foldl add_filetype_step st cs).2 = st.2.
Proof.
  induction cs as [|c cs IH]; intros st Hin; cbn [foldl]; [done|].
  rewrite wanted_cons in Hin.
  assert ((add_filetype_step st c).2 = st.2) as Hst.
  { unfold add_filetype_step. cbn zeta. case_bool_decide as Hc; [done|].
    destruct (list_index (strip c) st.2) as [i|] eqn:Ei; [done|].
    apply list_index_None in Ei. exfalso. apply Ei, Hin. by left. }
  rewrite IH; [done|]. rewrite Hst. intros y Hy. apply Hin.
  case_bool_decide; [done|by right].
Qed.

(** New filetypes of a fresh list are put before ['all'], in their
    order. *)
Lemma add_filetypes_fresh cs : ∀ pre : list str,
  NoDup (pre ++ filter (λ x : str, x ≠ []) (strip <$> cs)) →
  py "all" ∉ pre ++ filter (λ x : str, x ≠ []) (strip <$> cs) →
  (foldl add_filetype_step (len pre - 1, pre ++ [py "all"]) cs).2
  = pre ++ filter (λ x : str, x ≠ []) (strip <$> cs) ++ [py "all"].
Proof.
  induction cs as [|c cs IH]; intros pre Hnd Hall; cbn [foldl]; [done|].
  rewrite wanted_cons in *.
  unfold add_filetype_step at 2. cbn zeta. case_bool_decide as Hc; [by apply IH|].
  cbn [fst snd].
  assert (list_index (strip c) (pre ++ [py "all"]) = None) as ->.
  { apply list_index_None. rewrite elem_of_app, list_elem_of_singleton.
    intros [Hin|Heq].
    - apply NoDup_app in Hnd as (_ & Hdis & _). apply (Hdis _ Hin). by left.
    - apply Hall. rewrite <-Heq. apply elem_of_app. right. by left. }
  assert (list_insert (len pre - 1 + 1) (strip c) (pre ++ [py "all"])
          = (pre ++ [strip c]) ++ [py "all"]) as ->.
  { unfold list_insert, clip, len. rewrite length_app. cbn [length].
    replace (Z.of_nat (length pre) - 1 + 1 <? 0) with false
      by (symmetry; apply Z.ltb_ge; lia).
    replace (Z.to_nat _) with (length pre) by lia.
    by rewrite take_app_length, drop_app_length, <-app_assoc. }
  replace (len pre - 1 + 1) with (len (pre ++ [strip c]) - 1)
    by (unfold len; rewrite length_app; cbn; lia).
  rewrite IH.
  - by rewrite <-!app_assoc.
  - by rewrite <-app_assoc.
  - by rewrite <-app_assoc.
Qed.

Lemma dd_get_lookup nr fts :
  (dd_get nr fts).2 !! nr = Some (dd_get nr fts).1
  ∧ ∀ nr', nr' ≠ nr → (dd_get nr fts).2 !! nr' = fts !! nr'.
Proof.
  unfold dd_get. destruct (fts !! nr) as [l|] eqn:El; cbn [fst snd].
  - done.
  - split; [by rewrite lookup_insert_eq|]. intros nr' Hne. by rewrite lookup_insert_ne.
Qed.

Lemma add_buffer_filetypes_unfold nr ft fts :
  add_buffer_filetypes nr ft fts
  = <[nr := (foldl add_filetype_step (-1, (dd_get nr fts).1) (split_on "." [] ft)).2]>
      (dd_get nr fts).2.
Proof. unfold add_buffer_filetypes. by destruct (dd_get nr fts). Qed.

(** X16: [add_buffer_filetypes(ft)] changes the list of the current
    buffer only.  Starting from that list (['all'] if the buffer has
    none), the new list holds the old entries in their old order, and
    besides them exactly the pieces of the dotted name [ft], stripped and
    not empty; no filetype is entered twice. *)
Theorem add_buffer_filetypes_adds nr ft fts :
  ∃ l', add_buffer_filetypes nr ft fts !! nr = Some l'
    ∧ (∀ y, y ∈ l' ↔ y ∈ (dd_get nr fts).1 ∨ y ∈ wanted_filetypes ft)
    ∧ (dd_get nr fts).1 `sublist_of` l'
    ∧ (NoDup (dd_get nr fts).1 → NoDup l')
    ∧ (∀ nr', nr' ≠ nr → add_buffer_filetypes nr ft fts !! nr' = fts !! nr').
Proof.
  rewrite add_buffer_filetypes_unfold.
  destruct (add_filetypes_list (split_on "." [] ft) (-1, (dd_get nr fts).1))
    as (Hsub & Hnd & Hel).
  eexists. split; [by rewrite lookup_insert_eq|].
  split_and!; [done..|].
  intros nr' Hne. rewrite lookup_insert_ne by done.
  by apply dd_get_lookup.
Qed.

(** X17: asking for the same filetypes a second time changes nothing. *)
Theorem add_buffer_filetypes_idempotent nr ft fts :
  add_buffer_filetypes nr ft (add_buffer_filetypes nr ft fts)
  = add_buffer_filetypes nr ft fts.
Proof.
  rewrite (add_buffer_filetypes_unfold nr ft (add_buffer_filetypes nr ft fts)).
  rewrite (add_buffer_filetypes_unfold nr ft fts).
  set (l' := (foldl add_filetype_step (-1, (dd_get nr fts).1) (split_on "." [] ft)).2).
  assert (dd_get nr (<[nr := l']> (dd_get nr fts).2) = (l', <[nr := l']> (dd_get nr fts).2))
    as -> by (unfold dd_get at 1; by rewrite lookup_insert_eq).
  cbn [fst snd]. rewrite add_filetypes_present.
  - cbn [snd]. by rewrite insert_insert_eq.
  - cbn [snd]. intros y Hy.
    apply (add_filetypes_list (split_on "." [] ft) (-1, (dd_get nr fts).1)). by right.
Qed.

(** X18: after [reset_buffer_filetypes], [add_buffer_filetypes(ft)] with
    distinct filetypes other than ['all'] gives these filetypes in their
    order, followed by ['all']; the first of them is the primary
    filetype. *)
Theorem add_buffer_filetypes_after_reset nr ft fts :
  NoDup (wanted_filetypes ft) → py "all" ∉ wanted_filetypes ft →
  add_buffer_filetypes nr ft (reset_buffer_filetypes nr fts) !! nr
  = Some (wanted_filetypes ft ++ [py "all"])
  ∧ (primary_filetype nr (add_buffer_filetypes nr ft (reset_buffer_filetypes nr fts))).1
    = Done (default (py "all") (head (wanted_filetypes ft))).
Proof.
  intros Hnd Hall.
  assert (reset_buffer_filetypes nr fts !! nr = None) as Hreset.
  { unfold reset_buffer_filetypes. case_bool_decide as Hs.
    - by rewrite lookup_delete_eq.
    - by apply eq_None_not_Some. }
  assert (add_buffer_filetypes nr ft (reset_buffer_filetypes nr fts) !! nr
          = Some (wanted_filetypes ft ++ [py "all"])) as Hl.
  { rewrite add_buffer_filetypes_unfold, lookup_insert_eq. f_equal.
    unfold dd_get. rewrite Hreset. cbn [fst].
    apply (add_filetypes_fresh (split_on "." [] ft) []); done. }
  split; [done|].
  unfold primary_filetype, dd_get. rewrite Hl.
  by destruct (wanted_filetypes ft).
Qed.
(** ** Remembered positions: [VimState] *)

(** X19: [remember_position] keeps the newest five positions; after it
    [pos] is the position just taken, and [ppos] is what [pos] was
    before. *)
Theorem remember_position_shifts vs v :
  (length (_poss vs) ≤ 5)%nat →
  (length (_poss (remember_position vs v)) ≤ 5)%nat
  ∧ pos (remember_position vs v)
    = Done {| vp_pos := cursor v; vp_mode := mode v; vp_visualmode := visualmode v |}
  ∧ (∀ p, pos vs = Done p → ppos (remember_position vs v) = Done p).
Proof.
  destruct vs as [poss lvb lvb_len]. cbn [_poss]. intros Hlen.
  unfold remember_position, pos, ppos. cbn [_poss].
  do 6 (destruct poss as [|? poss];
        [split_and!; [vm_compute; lia|vm_compute; reflexivity|];
         intros p H; vm_compute in H |- *; congruence|]).
  cbn in Hlen. lia.
Qed.

(** X20: [pos] raises [IndexError] exactly when no position is
    remembered, and [ppos] exactly when fewer than two are. *)
Theorem ppos_IndexError_iff vs :
  (pos vs = Raised IndexError ↔ _poss vs = [])
  ∧ (ppos vs = Raised IndexError ↔ (length (_poss vs) < 2)%nat).
Proof.
  unfold pos, ppos, index, getitem, len. cbn [Z.ltb Z.compare].
  split.
  - destruct (_poss vs) as [|p l] using rev_ind; [done|].
    rewrite length_app. cbn [length].
    replace (0 <=? _) with true by (symmetry; apply Z.leb_le; lia).
    replace (Z.to_nat _) with (length l) by lia.
    rewrite lookup_app_r, Nat.sub_diag by lia. cbn. split; [done|by destruct l].
  - destruct (Z.leb_spec 0 (Z.of_nat (length (_poss vs)) + -2)) as [H|H].
    + destruct (_poss vs !! _) eqn:El; [split; [done|lia]|].
      apply lookup_ge_None in El. lia.
    + split; [lia|done].
Qed.

(** ** Listing *)

Lemma rstrip_by_app_spaces p (r : str) c sp :
  p c = false → Forall (λ x, p x = true) sp →
  rstrip_by p (r ++ [c] ++ sp) = r ++ [c].
Proof.
  intros Hc Hsp. induction sp as [|a sp IH] using rev_ind.
  - rewrite app_nil_r, rstrip_by_snoc, Hc. done.
  - apply Forall_app in Hsp as [Hsp [Ha _]%Forall_cons].
    rewrite !app_assoc, rstrip_by_snoc, Ha, <-app_assoc. by apply IH.
Qed.

(** X21: the [description] of a snippet without a description text (or
    with one of whitespace only) is its trigger in parentheses, without
    the blank that the format puts behind it. *)
Theorem description_without_text self :
  Forall (λ c, isspace c = true) (_d self) →
  description self = py "(" ++ _t self ++ py ")".
Proof.
  intros Hd. unfold description, strip, strip_by.
  change (lstrip_by isspace (py "(" ++ _t self ++ py ") " ++ _d self))
    with (py "(" ++ _t self ++ py ") " ++ _d self).
  change (py "(" ++ _t self ++ py ") " ++ _d self)
    with (py "(" ++ _t self ++ [")"%char] ++ " "%char :: _d self).
  rewrite !app_assoc, <-(app_assoc _ [")"%char]).
  rewrite rstrip_by_app_spaces; [by rewrite <-!app_assoc|done|by constructor].
Qed.

(** ** Snippet lookup without the assumption of distinct objects *)

(** X22: a snippet object is returned by the selection exactly when it
    was found and, at one of its places in the list of found snippets,
    no later snippet with [!] has the same trigger. *)
Theorem select_snippets_elem found snip :
  snip ∈ select_snippets found
  ↔ snip ∈ found
    ∧ ∃ l1 s l2, found = l1 ++ s :: l2 ∧ oid s = oid snip
                 ∧ Forall (keeps (trigger s)) l2.
Proof.
  unfold select_snippets. rewrite list_elem_of_filter, selected_snippets_elem.
  split; intros [H1 H2].
  - split; [done|]. destruct H1 as (t & s & Hs & Hid).
    apply groups_elem in Hs as (l1 & l2 & Hf & Ht & Hk).
    exists l1, s, l2. by rewrite Ht.
  - split; [|done]. destruct H2 as (l1 & s & l2 & Hf & Hid & Hk).
    exists (trigger s), s. split; [|done]. apply groups_elem. by exists l1, l2.
Qed.

(** X23: when no found snippet has [!], all of them are returned, in
    the order in which they were found. *)
Theorem select_snippets_all found :
  Forall (λ s, overwrites_previous s = false) found →
  select_snippets found = found.
Proof.
  intros Hno. unfold select_snippets.
  set (sel := selected_snippets (foldl group_step ∅ found)).
  assert (Forall (λ snip, oid snip ∈ sel) found) as Hall.
  { apply Forall_forall. intros s Hs.
    apply selected_snippets_elem. exists (trigger s), s. split; [|done].
    apply groups_elem. apply list_elem_of_split in Hs as (l1 & l2 & ->).
    exists l1, l2. split_and!; [done..|].
    apply Forall_app in Hno as [_ [_ Hno]%Forall_cons].
    eapply Forall_impl; [exact Hno|]. intros s' Hs' [_ ?]. congruence. }
  clearbody sel. clear -Hall. induction found as [|s found IH]; [done|].
  apply Forall_cons in Hall as [Hs Hall].
  rewrite filter_cons_True by done. by rewrite IH.
Qed.
(** ** The visual selection *)

Lemma slice_Z_nat {A} (l : list A) (i j : Z) :
  0 ≤ i → 0 ≤ j → slice l i j = drop (Z.to_nat i) (take (Z.to_nat j) l).
Proof.
  intros Hi Hj. unfold slice, clip, len.
  replace (i <? 0) with false by (symmetry; apply Z.ltb_ge; lia).
  replace (j <? 0) with false by (symmetry; apply Z.ltb_ge; lia).
  assert (take (Z.to_nat (Z.min j (Z.of_nat (length l)))) l = take (Z.to_nat j) l) as ->.
  { destruct (decide (j ≤ Z.of_nat (length l))).
    - f_equal. lia.
    - rewrite !take_ge; [done|lia|lia]. }
  destruct (decide (i ≤ Z.of_nat (length l))).
  - f_equal. lia.
  - rewrite !drop_ge; [done|rewrite length_take; lia|rewrite length_take; lia].
Qed.

Lemma slice_from_Z_nat {A} (l : list A) (i : Z) :
  0 ≤ i → slice_from l i = drop (Z.to_nat i) l.
Proof. intros Hi. rewrite <-(Z2Nat.id i) at 1 by done. apply slice_from_nat. Qed.

Lemma slice_to_Z_nat {A} (l : list A) (j : Z) :
  0 ≤ j → slice_to l j = take (Z.to_nat j) l.
Proof. intros Hj. rewrite <-(Z2Nat.id j) at 1 by done. apply slice_to_nat. Qed.

Lemma index_nat {A} (l : list A) (n : nat) x :
  l !! n = Some x → index l (Z.of_nat n) = Done x.
Proof. intros Hx. unfold index. by rewrite getitem_nat, Hx. Qed.

Lemma buffer_text_app b1 b2 : buffer_text (b1 ++ b2) = buffer_text b1 ++ buffer_text b2.
Proof. unfold buffer_text. by rewrite fmap_app, join_app. Qed.

Lemma buffer_text_cons l b : buffer_text (l :: b) = (l ++ [newline]) ++ buffer_text b.
Proof. done. Qed.

(** The loop over the lines between the first and the last one. *)
Lemma lines_with_eol_seq v k : ∀ (a : nat) (s : Z) text,
  s = Z.of_nat a → (a + k ≤ length (buf v))%nat →
  lines_with_eol v text ((λ i, s + Z.of_nat i) <$> seq 0 k)
  = Done (text ++ buffer_text (take k (drop a (buf v)))).
Proof.
  induction k as [|k IH]; intros a s text -> Hlen.
  - cbn. by rewrite app_nil_r.
  - destruct (buf v !! a) as [l|] eqn:El; [|apply lookup_ge_None in El; lia].
    cbn [seq fmap list_fmap lines_with_eol]. rewrite Z.add_0_r.
    unfold _vim_line_with_eol. rewrite (index_nat _ _ _ El). cbn [mbind Run_bind].
    rewrite <-fmap_S_seq, <-list_fmap_compose.
    rewrite (list_fmap_ext _ (λ i, Z.of_nat (S a) + Z.of_nat i) (seq 0 k))
      by (intros; cbn; lia).
    rewrite (IH (S a)) by (done || lia).
    rewrite (drop_S _ _ _ El). cbn [take]. rewrite buffer_text_cons.
    by rewrite <-!app_assoc.
Qed.

(** X24: [conserve] takes the text between the two marks: with the mark
    ['<] in line [a+1] at column [sc] and ['>] in line [b+1] at column
    [ec], both within their lines (the end of line counts), the text kept
    is the piece of the buffer, read as one text with a newline after
    every line, from the first mark up to and including the second; the
    mode kept is [visualmode()]. *)
Theorem conserve_takes_selection (byte2col : Z → Z → Z) (a b : nat)
    sbyte ebyte self v (la lb : str) :
  (a ≤ b)%nat → buf v !! a = Some la → buf v !! b = Some lb →
  0 ≤ byte2col (Z.of_nat a + 1) (sbyte - 1) ≤ len la + 1 →
  -1 ≤ byte2col (Z.of_nat b + 1) (ebyte - 1) ≤ len lb →
  conserve byte2col (Z.of_nat a + 1) sbyte (Z.of_nat b + 1) ebyte self v
  = ({| vc_mode := visualmode v;
        vc_text := slice (buffer_text (buf v))
                     (line_offset (buf v) a + byte2col (Z.of_nat a + 1) (sbyte - 1))
                     (line_offset (buf v) b
                      + byte2col (Z.of_nat b + 1) (ebyte - 1) + 1) |},
     Done ()).
Proof.
  intros Hab Ha Hb. unfold conserve, selected_text. cbn zeta.
  generalize (byte2col (Z.of_nat a + 1) (sbyte - 1)).
  generalize (byte2col (Z.of_nat b + 1) (ebyte - 1)). intros ec sc Hsc Hec.
  replace (Z.of_nat a + 1 - 1) with (Z.of_nat a) by lia.
  replace (Z.of_nat b + 1 - 1) with (Z.of_nat b) by lia.
  unfold _vim_line_with_eol. rewrite (index_nat _ _ _ Ha). cbn [mbind Run_bind].
  assert (buf v = take a (buf v) ++ la :: drop (S a) (buf v)) as Hsplit
    by (by rewrite take_drop_middle).
  unfold line_offset.
  set (A := buffer_text (take a (buf v))).
  set (La := la ++ [newline]). set (Lb := lb ++ [newline]).
  assert (len La = len la + 1) as HLa by (unfold La, len; rewrite length_app; cbn; lia).
  assert (len Lb = len lb + 1) as HLb by (unfold Lb, len; rewrite length_app; cbn; lia).
  case_bool_decide as Heq.
  - assert (a = b) as <- by lia. assert (lb = la) as -> by congruence.
    cbn [vc_mode]. do 2 f_equal.
    rewrite Hsplit at 1. rewrite buffer_text_app, buffer_text_cons. fold A La.
    rewrite !slice_Z_nat by (unfold len in *; lia).
    replace (Z.to_nat (len A + ec + 1)) with (length A + Z.to_nat (ec + 1))%nat
      by (unfold len; lia).
    rewrite take_app_add, take_app_le by (unfold len in *; lia).
    replace (Z.to_nat (len A + sc)) with (length A + Z.to_nat sc)%nat
      by (unfold len; lia).
    by rewrite drop_app_add.
  - assert (a < b)%nat as Hlt by lia.
    set (k := (b - S a)%nat).
    assert (range (Z.of_nat a + 1) (Z.of_nat b)
            = (λ i, Z.of_nat (S a) + Z.of_nat i) <$> seq 0 k) as ->.
    { unfold range. replace (Z.to_nat _) with k by lia.
      apply list_fmap_ext. intros; cbn; lia. }
    pose proof (lookup_lt_Some _ _ _ Hb) as Hblen.
    rewrite (lines_with_eol_seq v k (S a)) by (done || lia).
    cbn [mbind Run_bind]. rewrite (index_nat _ _ _ Hb). cbn [mbind Run_bind vc_mode].
    do 2 f_equal.
    set (M := buffer_text (take k (drop (S a) (buf v)))).
    assert (drop (S a) (buf v) = take k (drop (S a) (buf v)) ++ lb :: drop (S b) (buf v))
      as Hsplit2.
    { assert (drop (S b) (buf v) = drop (S k) (drop (S a) (buf v))) as ->
        by (rewrite drop_drop; f_equal; lia).
      symmetry. apply take_drop_middle. rewrite lookup_drop, <-Hb. f_equal. lia. }
    assert (buffer_text (take b (buf v)) = A ++ La ++ M) as ->.
    { rewrite Hsplit at 1. rewrite take_app_ge by (rewrite length_take; lia).
      rewrite length_take_le by lia. replace (b - a)%nat with (S k) by lia.
      cbn [take]. rewrite buffer_text_app, buffer_text_cons. done. }
    rewrite Hsplit at 1. rewrite buffer_text_app, buffer_text_cons.
    rewrite Hsplit2 at 1. rewrite buffer_text_app, buffer_text_cons. fold A La Lb M.
    rewrite slice_from_Z_nat, slice_to_Z_nat, slice_Z_nat by (unfold len in *; lia).
    rewrite !app_assoc. rewrite <-(app_assoc _ Lb).
    replace (Z.to_nat (len ((A ++ La) ++ M) + ec + 1))
      with (length ((A ++ La) ++ M) + Z.to_nat (ec + 1))%nat by (unfold len; lia).
    rewrite take_app_add, take_app_le by (unfold len in *; lia).
    rewrite <-!app_assoc.
    replace (Z.to_nat (len A + sc)) with (length A + Z.to_nat sc)%nat
      by (unfold len; lia).
    rewrite drop_app_add, drop_app_le by (unfold len in *; lia). done.
Qed.
(** ** Concrete runs of the properties above *)

Lemma matches_cuts_trigger_witness :
  has_option (snip_fn "") "r" = false
  ∧ truthy (matches literal_finditer (snip_fn "") (py "x fn")).1 = true
  ∧ _matched (matches literal_finditer (snip_fn "") (py "x fn")).2 = _t (snip_fn "")
  ∧ _t (snip_fn "") `suffix_of` py "x fn"
  ∧ (_t (snip_fn "") ≠ [] →
     slice_to (py "x fn") (- len (_t (snip_fn ""))) ++ _t (snip_fn "") = py "x fn").
Proof.
  split; [reflexivity|]. split; [reflexivity|].
  apply (matches_cuts_trigger literal_finditer (snip_fn "") (py "x fn")); reflexivity.
Defined.

Lemma matches_failure_clears_matched_witness :
  truthy (matches literal_finditer snip_ab_rb (py "xab")).1 = false
  ∧ _matched (matches literal_finditer snip_ab_rb (py "xab")).2 = [].
Proof.
  split; [reflexivity|].
  apply (matches_failure_clears_matched literal_finditer snip_ab_rb (py "xab")).
  reflexivity.
Defined.

Lemma matches_could_match_witness :
  has_option (snip_fn "b") "w" = false ∧ has_option (snip_fn "b") "i" = false
  ∧ has_option (snip_fn "b") "r" && has_option (snip_fn "b") "b" = false
  ∧ truthy (matches literal_finditer (snip_fn "b") (py "  fn")).1 = true
  ∧ (could_match literal_finditer (snip_fn "b") (py "  fn")).1
    = (matches literal_finditer (snip_fn "b") (py "  fn")).1.
Proof.
  split_and!; [reflexivity..|].
  apply (matches_could_match literal_finditer (snip_fn "b") (py "  fn")); reflexivity.
Defined.

Lemma could_match_matched_prefix_witness :
  has_option (snip_fn "") "r" = false
  ∧ truthy (could_match literal_finditer (snip_fn "") (py "x f")).1 = true
  ∧ _matched (could_match literal_finditer (snip_fn "") (py "x f")).2
    `prefix_of` _t (snip_fn "").
Proof.
  split_and!; [reflexivity..|].
  apply (could_match_matched_prefix literal_finditer (snip_fn "") (py "x f")); reflexivity.
Defined.


Lemma jump_skips_exhausted_witness :
  _csnippets manager_nested = [] ++ inst_s :: [inst_done]
  ∧ Forall (λ c, (li_select_next_tab false c).1 = None) [inst_done]
  ∧ li_select_next_tab false inst_s
    = (Some (tab_at 1 3), li_set_tabs [tab_at 2 0; tab_at 0 3] inst_s)
  ∧ (_jump li_snippet li_select_next_tab false manager_nested vim_s).2 = true
  ∧ _csnippets (_jump li_snippet li_select_next_tab false manager_nested vim_s).1.1
    = (if no (tab_at 1 3) =? 0 then []
       else [] ++ [li_set_tabs [tab_at 2 0; tab_at 0 3] inst_s])
  ∧ _ctab (_jump li_snippet li_select_next_tab false manager_nested vim_s).1.1
    = Some (tab_at 1 3)
  ∧ (_jump li_snippet li_select_next_tab false manager_nested vim_s).1.2
    = select (tab_start (tab_at 1 3)) (tab_end (tab_at 1 3))
        (trim_before_cursor li_snippet
           (li_set_tabs [tab_at 2 0; tab_at 0 3] inst_s) vim_s).
Proof.
  split; [reflexivity|]. split; [by repeat constructor|]. split; [reflexivity|].
  apply (jump_skips_exhausted li_snippet li_select_next_tab false manager_nested vim_s
           [] inst_s (li_set_tabs [tab_at 2 0; tab_at 0 3] inst_s) (tab_at 1 3)
           [inst_done]); [reflexivity|by repeat constructor|reflexivity].
Defined.

Lemma check_inside_pops_left_witness :
  _csnippets manager_nested = [inst_s] ++ [inst_done]
  ∧ Forall (λ cs, pos_le (li_start cs) (cursor vim_s)
                  && pos_le (cursor vim_s) (li_end cs) = false) [inst_done]
  ∧ (∀ cs, last [inst_s] = Some cs →
       pos_le (li_start cs) (cursor vim_s) && pos_le (cursor vim_s) (li_end cs) = true)
  ∧ _check_if_still_inside_snippet li_start li_end
      (length (_csnippets manager_nested)) manager_nested vim_s
    = if bool_decide ([inst_done] = [])
      then manager_nested else _reinit (set_csnippets [inst_s] manager_nested).
Proof.
  split; [reflexivity|]. split; [by repeat constructor|].
  split; [by intros cs [= <-]|].
  apply (check_inside_pops_left li_start li_end manager_nested vim_s [inst_s] [inst_done]);
    [reflexivity|by repeat constructor|by intros cs [= <-]].
Defined.

Lemma cursor_moved_after_expansion_witness :
  mode vim_t ∈ [[]; py "i"; py "n"; py "in"]
  ∧ cursor_moved li_start li_end guess_two_ops no_diff li_do_edit (λ s v, (s, v))
      (_do_snippet li_snippet li_start li_end li_select_next_tab (λ _ _, ()) li_new
         (λ n, repeat tab n) (set_matched (py "t") snip_hello) (py "t") []
         manager_visual vim_t).1 vim_t
    = (set_ignore_movements false
         (set_vstate
            (remember_position
               (_vstate (_do_snippet li_snippet li_start li_end li_select_next_tab
                           (λ _ _, ()) li_new (λ n, repeat tab n)
                           (set_matched (py "t") snip_hello) (py "t") []
                           manager_visual vim_t).1) vim_t)
            (_do_snippet li_snippet li_start li_end li_select_next_tab (λ _ _, ()) li_new
               (λ n, repeat tab n) (set_matched (py "t") snip_hello) (py "t") []
               manager_visual vim_t).1),
       vim_t, Done ()).
Proof.
  split; [by apply (bool_decide_unpack _)|].
  apply (cursor_moved_after_expansion li_snippet li_start li_end li_select_next_tab
           (λ _ _, ()) li_new (λ n, repeat tab n) guess_two_ops no_diff li_do_edit
           (λ s v, (s, v)) (set_matched (py "t") snip_hello) (py "t") []
           manager_visual vim_t vim_t).
  by apply (bool_decide_unpack _).
Defined.

Lemma ask_for_users_choice_clamps_witness :
  answer 9 (display demo_found) = Number 9 ∧ 1 ≤ 9 ∧ demo_found ≠ []
  ∧ (∃ s, ask_for_users_choice (answer 9) demo_found = Done (Some s)
          ∧ demo_found !! (Z.to_nat (Z.min 9 (len demo_found)) - 1)%nat = Some s).
Proof.
  split; [reflexivity|]. split; [lia|]. split; [done|].
  apply (ask_for_users_choice_clamps (answer 9) demo_found 9); [reflexivity|lia|done].
Defined.

Lemma add_buffer_filetypes_after_reset_witness :
  NoDup (wanted_filetypes (py "cpp. c"))
  ∧ (py "all" ∉ wanted_filetypes (py "cpp. c"))
  ∧ add_buffer_filetypes 1 (py "cpp. c") (reset_buffer_filetypes 1 ∅) !! 1
    = Some (wanted_filetypes (py "cpp. c") ++ [py "all"])
  ∧ (primary_filetype 1
       (add_buffer_filetypes 1 (py "cpp. c") (reset_buffer_filetypes 1 ∅))).1
    = Done (default (py "all") (head (wanted_filetypes (py "cpp. c")))).
Proof.
  split; [by apply (bool_decide_unpack _)|]. split; [by apply (bool_decide_unpack _)|].
  apply (add_buffer_filetypes_after_reset 1 (py "cpp. c") ∅);
    by apply (bool_decide_unpack _).
Defined.

Lemma remember_position_shifts_witness :
  (length (_poss (remember_position new_VimState vim_s)) ≤ 5)%nat
  ∧ (length (_poss (remember_position (remember_position new_VimState vim_s) vim_t)) ≤ 5)%nat
  ∧ pos (remember_position (remember_position new_VimState vim_s) vim_t)
    = Done {| vp_pos := cursor vim_t; vp_mode := mode vim_t;
              vp_visualmode := visualmode vim_t |}
  ∧ (∀ p, pos (remember_position new_VimState vim_s) = Done p →
          ppos (remember_position (remember_position new_VimState vim_s) vim_t) = Done p).
Proof.
  split; [vm_compute; lia|].
  apply (remember_position_shifts (remember_position new_VimState vim_s) vim_t).
  vm_compute; lia.
Defined.

Lemma description_without_text_witness :
  Forall (λ c, isspace c = true) (_d (snip_fn ""))
  ∧ description (snip_fn "") = py "(" ++ _t (snip_fn "") ++ py ")".
Proof.
  split; [constructor|].
  apply (description_without_text (snip_fn "")). constructor.
Defined.

Lemma select_snippets_all_witness :
  Forall (λ s, overwrites_previous s = false) (take 2 demo_found)
  ∧ select_snippets (take 2 demo_found) = take 2 demo_found.
Proof.
  split; [by repeat constructor|].
  apply (select_snippets_all (take 2 demo_found)). by repeat constructor.
Defined.

Lemma conserve_takes_selection_witness :
  (0 ≤ 2)%nat
  ∧ buf vim_three_lines !! 0%nat = Some (py "ab")
  ∧ buf vim_three_lines !! 2%nat = Some (py "ef")
  ∧ 0 ≤ ascii_byte2col (Z.of_nat 0 + 1) (2 - 1) ≤ len (py "ab") + 1
  ∧ -1 ≤ ascii_byte2col (Z.of_nat 2 + 1) (1 - 1) ≤ len (py "ef")
  ∧ conserve ascii_byte2col (Z.of_nat 0 + 1) 2 (Z.of_nat 2 + 1) 1 reset_visual
      vim_three_lines
    = ({| vc_mode := visualmode vim_three_lines;
          vc_text := slice (buffer_text (buf vim_three_lines))
                       (line_offset (buf vim_three_lines) 0
                        + ascii_byte2col (Z.of_nat 0 + 1) (2 - 1))
                       (line_offset (buf vim_three_lines) 2
                        + ascii_byte2col (Z.of_nat 2 + 1) (1 - 1) + 1) |},
       Done ()).
Proof.
  split; [lia|]. split; [reflexivity|]. split; [reflexivity|].
  split; [vm_compute; split; discriminate|]. split; [vm_compute; split; discriminate|].
  apply (conserve_takes_selection ascii_byte2col 0 2 2 1 reset_visual vim_three_lines
           (py "ab") (py "ef"));
    [lia|reflexivity|reflexivity|vm_compute; split; discriminate..].
Defined.

Lemma cursor_moved_error_ends_snippets_witness :
  mode vim_s ∈ [[]; py "i"; py "n"; py "in"]
  ∧ _ignore_movements manager_two_tabs = false
  ∧ _csnippets manager_two_tabs = inst_two_tabs :: []
  ∧ trim_window (line (li_start inst_two_tabs))
      (_lvb (_vstate manager_two_tabs))
      (slice (buf vim_s) (line (li_start inst_two_tabs))
         (line (li_end inst_two_tabs)
          + (len (buf vim_s) - _lvb_len (_vstate manager_two_tabs)) + 1))
      (p ← index (_poss (remember_position (_vstate manager_two_tabs) vim_s)) (-2);
       Done (line (vp_pos p)))
      (line (cursor vim_s))
    = Done (0, [], [py "ab "])
  ∧ (replay_pass guess_fails no_diff li_do_edit 0 [] [py "ab "]
       (set_vstate (remember_position (_vstate manager_two_tabs) vim_s)
          manager_two_tabs)).2 = Raised OtherError
  ∧ OtherError ≠ IndexError
  ∧ (cursor_moved li_start li_end guess_fails no_diff li_do_edit (λ s v, (s, v))
       manager_two_tabs vim_s).2 = Raised OtherError
  ∧ (cursor_moved li_start li_end guess_fails no_diff li_do_edit (λ s v, (s, v))
       manager_two_tabs vim_s).1.2 = vim_s
  ∧ ∃ m', err_to_scratch_buffer trace_of scratch
            (cursor_moved li_start li_end guess_fails no_diff li_do_edit (λ s v, (s, v))
               manager_two_tabs vim_s)
          = (m', scratch (error_intro ++ trace_of OtherError) vim_s, Done None)
          ∧ _csnippets m' = [] ∧ _ctab m' = None ∧ _ignore_movements m' = false.
Proof.
  split; [by repeat constructor|]. do 4 (split; [reflexivity|]). split; [done|].
  apply (cursor_moved_error_ends_snippets li_start li_end guess_fails no_diff li_do_edit
           (λ s v, (s, v)) trace_of scratch manager_two_tabs vim_s inst_two_tabs []
           0 [] [py "ab "] OtherError);
    [by repeat constructor|reflexivity..|done].
Defined.
